(** * Scatter / gather shingle filter: a shallow embedding and its properties

    The development follows [scatter_v1.cpp] and [gather_v1.cpp]:
    - machine integers are [Z] with the wrap-around of their C type written out;
    - C arrays are lists, every access is bounds-checked and an access outside
      the array is the error [OutOfBounds];
    - the fingerprint map is a byte-addressed store of [M_COM + M_DIV] bytes;
    - [exit(c)] is the error [ExitCode c];
    - the three worker threads are read as the sequential data flow
      read -> hash -> consume of each batch. *)

From Stdlib Require Import ZArith Lia List Bool.
From stdpp Require Import base list.
Import ListNotations.

Local Open Scope Z_scope.

(** ** Machine integers *)

Definition wrap8  (x : Z) : Z := x mod 2 ^ 8.
Definition wrap32 (x : Z) : Z := x mod 2 ^ 32.
Definition wrap64 (x : Z) : Z := x mod 2 ^ 64.

(** ** Results of fallible code *)

Inductive error : Type :=
| OutOfBounds            (* an array or map access outside its storage *)
| ExitCode (c : Z)       (* exit(c) *)
| OutOfFuel.             (* a while loop that did not end within its fuel *)

Inductive res (A : Type) : Type :=
| Ok (a : A)
| Err (e : error).
Arguments Ok {A} a.
Arguments Err {A} e.

Definition bind {A B : Type} (m : res A) (k : A -> res B) : res B :=
  match m with
  | Ok a => k a
  | Err e => Err e
  end.

Notation "x <- m ;; k" := (bind m (fun x => k))
  (at level 100, m at next level, right associativity).

(** ** Arrays *)

Definition len {A : Type} (a : list A) : Z := Z.of_nat (length a).

Definition rd {A : Type} (a : list A) (i : Z) : res A :=
  if 0 <=? i then
    match a !! Z.to_nat i with
    | Some v => Ok v
    | None => Err OutOfBounds
    end
  else Err OutOfBounds.

Definition wr {A : Type} (a : list A) (i : Z) (v : A) : res (list A) :=
  if (0 <=? i) && (i <? len a) then Ok (<[Z.to_nat i := v]> a)
  else Err OutOfBounds.

(** A pointer into an array: [p + k] keeps the array and moves the offset. *)
Record ptr : Type := Ptr { arr : list Z; off : Z }.

Definition ptr_add (p : ptr) (k : Z) : ptr := Ptr (arr p) (off p + k).
Definition ptr_rd (p : ptr) (i : Z) : res Z := rd (arr p) (off p + i).

(** ** Counted loops: [for (j = lo; j < hi; j++) body] *)

Fixpoint for_loop {St : Type} (k : nat) (j : Z) (body : Z -> St -> res St) (st : St)
  : res St :=
  match k with
  | O => Ok st
  | S k' =>
      match body j st with
      | Ok st' => for_loop k' (j + 1) body st'
      | Err e => Err e
      end
  end.

Definition for_range {St : Type} (lo hi : Z) (body : Z -> St -> res St) (st : St)
  : res St :=
  for_loop (Z.to_nat (hi - lo)) lo body st.

(** ** Global parameters (same values in scatter and gather) *)

Definition BATCH_SIZE : Z := 8 * 1024.
Definition DV : Z := 8.
Definition L : Z := 5.
Definition LC : Z := L - 1.
Definition LP : Z := 10.
Definition ns : Z := 1000000000.
Definition NS : Z := 100000000.
Definition M_COM : Z := 1000000007.
Definition B_COM : Z := 257.
Definition M_DIV : Z := 67.

Definition B_DIV_table : list Z := [257; 263; 269; 271; 277; 281; 283; 293].
Definition B_DIV (id : Z) : Z := nth (Z.to_nat id) B_DIV_table 0.

(** [c_com]: [result = 1; for k < L: result *= B_COM; result %= M_COM]. *)
Definition c_com : Z :=
  Nat.iter (Z.to_nat L) (fun result => wrap64 (result * B_COM) mod M_COM) 1.
Definition C_COM : Z := c_com.

(** [c_div(id)]: the same loop with [B_DIV[id]] and [M_DIV]. *)
Definition c_div (id : Z) : Z :=
  Nat.iter (Z.to_nat L) (fun result => wrap64 (result * B_DIV id) mod M_DIV) 1.
Definition C_DIV_table : list Z :=
  [c_div 0; c_div 1; c_div 2; c_div 3; c_div 4; c_div 5; c_div 6; c_div 7].
Definition C_DIV (id : Z) : Z := nth (Z.to_nat id) C_DIV_table 0.

(** The containers as declared:
    [uint8_t buf_ctr[BATCH_SIZE + LC]; uint64_t com_ctr[BATCH_SIZE];
     uint8_t div_ctr[BATCH_SIZE * DV]]. *)
Definition BUF_CTR_LEN : Z := BATCH_SIZE + LC.
Definition COM_CTR_LEN : Z := BATCH_SIZE.
Definition DIV_CTR_LEN : Z := BATCH_SIZE * DV.

(** ** Rolling hash engine *)

(** The right-hand side of the common roll in [hash_batch]:
    [((com_hash[j] + M_COM) * B_COM - C_COM * s[j] + s[j+L]) % M_COM],
    all operands [uint64_t]. *)
Definition com_roll (h s0 sL : Z) : Z :=
  wrap64 (wrap64 (wrap64 (wrap64 (h + M_COM) * B_COM) - wrap64 (C_COM * s0)) + sL)
  mod M_COM.

(** The right-hand side of [update_div_hashes]:
    [(256*M_DIV + s[L] + hash[id] * B_DIV[id] - C_DIV[id] * s[0]) % M_DIV]. *)
Definition div_roll (id h s0 sL : Z) : Z :=
  wrap64 (wrap64 (wrap64 (wrap64 (256 * M_DIV) + sL) + wrap64 (h * B_DIV id))
          - wrap64 (C_DIV id * s0))
  mod M_DIV.

(** One Horner step of the first shingle: [(h * B + s[j]) % M]. *)
Definition horner_step (B M h b : Z) : Z := wrap64 (wrap64 (h * B) + b) mod M.

(** [hash_batch] is textually the same in both programs. Its four loops are
    named here; [hash_batch] runs them in the order of the source. *)

(** [for id < DV: div_hash[id] = 0;
      for j < L: div_hash[id] = (div_hash[id] * B_DIV[id] + s[j]) % M_DIV;
      div_hash[DV+id] = div_hash[id]] *)
Definition div_first (s div_hash : list Z) : res (list Z) :=
  for_range 0 DV (fun id div_hash =>
    div_hash <- wr div_hash id 0 ;;
    div_hash <- for_range 0 L (fun j div_hash =>
        h <- rd div_hash id ;;
        b <- rd s j ;;
        wr div_hash id (wrap8 (horner_step (B_DIV id) M_DIV h b))) div_hash ;;
    h <- rd div_hash id ;;
    wr div_hash (DV + id) h) div_hash.

(** [com_hash[0] = 0;
     for j < L: com_hash[0] = (com_hash[0] * B_COM + s[j]) % M_COM] *)
Definition com_first (s com_hash : list Z) : res (list Z) :=
  com_hash <- wr com_hash 0 0 ;;
  for_range 0 L (fun j com_hash =>
    h <- rd com_hash 0 ;;
    b <- rd s j ;;
    wr com_hash 0 (horner_step B_COM M_COM h b)) com_hash.

(** [for j < hash_count:
      com_hash[j+1] = ((com_hash[j] + M_COM) * B_COM - C_COM * s[j] + s[j+L]) % M_COM] *)
Definition com_following (s : list Z) (hash_count : Z) (com_hash : list Z)
  : res (list Z) :=
  for_range 0 hash_count (fun j com_hash =>
    h <- rd com_hash j ;;
    s0 <- rd s j ;;
    sL <- rd s (wrap32 (j + L)) ;;
    wr com_hash (wrap32 (j + 1)) (com_roll h s0 sL)) com_hash.

Section HashBatch.

Variable update_div_hashes : list Z -> Z -> Z -> list Z -> Z -> res (list Z).

(** [for (j = 1; j < hash_count; j++)
      update_div_hashes(&div_hash[j*DV], &div_hash[(j+1)*DV], s+j-1)] *)
Definition div_following_with (s : list Z) (hash_count : Z) (div_hash : list Z)
  : res (list Z) :=
  for_range 1 hash_count (fun j div_hash =>
    update_div_hashes div_hash (wrap32 (j * DV)) (wrap32 (wrap32 (j + 1) * DV))
                      s (j - 1)) div_hash.

Definition hash_batch_with (s : list Z) (hash_count : Z) (com_hash div_hash : list Z)
  : res (list Z * list Z) :=
  div_hash <- div_first s div_hash ;;
  div_hash <- div_following_with s hash_count div_hash ;;
  com_hash <- com_first s com_hash ;;
  com_hash <- com_following s hash_count com_hash ;;
  Ok (com_hash, div_hash).

End HashBatch.

(** ** The fingerprint map: [M_COM + M_DIV] bytes *)

Definition bytemap : Type := Z -> Z.

Definition MAP_SIZE : Z := M_COM + M_DIV.

Definition map_rd (m : bytemap) (a : Z) : res Z :=
  if (0 <=? a) && (a <? MAP_SIZE) then Ok (m a) else Err OutOfBounds.

Definition map_wr (m : bytemap) (a v : Z) : res bytemap :=
  if (0 <=? a) && (a <? MAP_SIZE) then Ok (fun x => if x =? a then v else m x)
  else Err OutOfBounds.

(** [memset(map, 0b11111111, M_COM + M_DIV)] *)
Definition map_init : bytemap := fun _ => 255.

(** ** Batch bookkeeping (the same text in [main] and in every worker) *)

(** [batch_count = n / BATCH_SIZE;
     if ((n - (batch_count * BATCH_SIZE)) > 0) batch_count++;]
    with [uint32_t batch_count], [n] of type [unsigned long long] and
    [BATCH_SIZE] an [int]. *)
Definition main_batch_count (n : Z) : Z :=
  let batch_count := wrap32 (n / BATCH_SIZE) in
  if 0 <? wrap64 (n - wrap32 (batch_count * BATCH_SIZE))
  then wrap32 (batch_count + 1) else batch_count.

Record plan : Type := Plan {
  batch_count : Z;
  last_batch_size : Z;
  first_batch_size : Z
}.

(** [batch_count = n / BATCH_SIZE;
     last_batch_size = n - (batch_count * BATCH_SIZE);
     if (last_batch_size > 0) batch_count++; else last_batch_size = BATCH_SIZE;
     if (batch_count == 1) batch_size = last_batch_size; else batch_size = BATCH_SIZE;] *)
Definition worker_plan (n : Z) : plan :=
  let batch_count := wrap32 (n / BATCH_SIZE) in
  let last_batch_size := wrap32 (wrap64 (n - wrap32 (batch_count * BATCH_SIZE))) in
  let batch_count := if 0 <? last_batch_size then wrap32 (batch_count + 1)
                     else batch_count in
  let last_batch_size := if 0 <? last_batch_size then last_batch_size
                         else BATCH_SIZE in
  let batch_size := if batch_count =? 1 then last_batch_size else BATCH_SIZE in
  Plan batch_count last_batch_size batch_size.

(** The worker's [while (true)]: the blocks for containers A, B and C are
    the same text, so one round of the model is one block. After its batch,
    [if (batch_id == batch_count) return;
     if (++batch_id == batch_count) batch_size = last_batch_size;]. *)
Fixpoint worker_loop {St : Type} (fuel : nat)
         (process : Z -> Z -> St -> res St)
         (pl : plan) (batch_id batch_size : Z) (st : St) : res St :=
  match fuel with
  | O => Err OutOfFuel
  | S fuel' =>
      st <- process batch_id batch_size st ;;
      if batch_id =? batch_count pl then Ok st
      else
        let batch_id := wrap32 (batch_id + 1) in
        let batch_size := if batch_id =? batch_count pl then last_batch_size pl
                          else batch_size in
        worker_loop fuel' process pl batch_id batch_size st
  end.

Definition run_worker {St : Type} (process : Z -> Z -> St -> res St) (n : Z) (st : St)
  : res St :=
  let pl := worker_plan n in
  worker_loop (Z.to_nat (batch_count pl)) process pl 1 (first_batch_size pl) st.

(** What [main] does before the workers run. *)
Inductive event : Type :=
| EvMalloc | EvMapReset | EvLoadMap | EvRcp | EvStartWorkers.

(** ** Byte permutation: [rcp_generator] (the same text in both programs) *)

(** [while (a[rand]) {rand++;}] with [uint8_t rand]. *)
Fixpoint probe (fuel : nat) (a : list bool) (rand : Z) : res Z :=
  match fuel with
  | O => Err OutOfFuel
  | S fuel' =>
      taken <- rd a rand ;;
      if taken : bool then probe fuel' a (wrap8 (rand + 1)) else Ok rand
  end.

(** [for j < 256: rand = dist(mt_rand); while (a[rand]) rand++;
                  a[rand] = true; p[j] = rand;]
    [draw j] is the [j]-th value of [dist(mt_rand)]. *)
Definition rcp_fill (draw : Z -> Z) (p : list Z) : res (list bool * list Z) :=
  for_range 0 256 (fun j ap =>
    let '(a, p) := ap in
    rand <- probe 256 a (wrap8 (draw j)) ;;
    a <- wr a rand true ;;
    p <- wr p j rand ;;
    Ok (a, p)) (replicate 256 false, p).

(** [for j < 256: for (i = j+1; i < 256; i++) if (p[j] == p[i]) exit(25);] *)
Definition rcp_test (p : list Z) : res unit :=
  for_range 0 256 (fun j _ =>
    for_range (j + 1) 256 (fun i _ =>
      pj <- rd p j ;;
      pi <- rd p i ;;
      if pj =? pi then Err (ExitCode 25) else Ok tt) tt) tt.

Definition rcp_generator (draw : Z -> Z) (p : list Z) : res (list Z) :=
  ap <- rcp_fill draw p ;;
  _ <- rcp_test (snd ap) ;;
  Ok (snd ap).

(** ** Scatter *)

Module Scatter.

(** [#define n ns]: the number of reference shingles. *)
Definition n : Z := ns.

(** [update_div_hashes(hash, hash1, s)] with [hash = &div_hash[hash]],
    [hash1 = &div_hash[hash1]] and [s = &s[sp]]: both output pointers
    lie in the same array. *)
Definition update_div_hashes (div_hash : list Z) (hash hash1 : Z)
           (s : list Z) (sp : Z) : res (list Z) :=
  for_range 0 DV (fun id div_hash =>
    sL <- rd s (sp + L) ;;
    h <- rd div_hash (hash + id) ;;
    s0 <- rd s (sp + 0) ;;
    let v := wrap8 (div_roll id h s0 sL) in
    div_hash <- wr div_hash (hash + id) v ;;
    wr div_hash (hash1 + id) v) div_hash.

Definition hash_batch : list Z -> Z -> list Z -> list Z -> res (list Z * list Z) :=
  hash_batch_with update_div_hashes.

(** [for id < DV: map[com_ctr[j] + div_ctr[j*DV+id]] &= ~(1<<id);]
    (the prefetch before it touches no data). *)
Definition clear_bits (com_ctr div_ctr : list Z) (j : Z) (map : bytemap)
  : res bytemap :=
  for_range 0 DV (fun id map =>
    c <- rd com_ctr j ;;
    d <- rd div_ctr (wrap32 (wrap32 (j * DV) + id)) ;;
    let a := wrap64 (c + d) in
    v <- map_rd map a ;;
    map_wr map a (wrap8 (Z.land v (Z.lnot (Z.shiftl 1 id))))) map.

(** worker3 on one container:
    [for (j = first_batch_j0; j < batch_size; j++) ...]. *)
Definition worker3_consume (first_batch_j0 batch_size : Z) (com_ctr div_ctr : list Z)
           (map : bytemap) : res bytemap :=
  for_range first_batch_j0 batch_size (fun j map => clear_bits com_ctr div_ctr j map) map.

(** [main] up to the start of the workers. *)
Definition main_start (n : Z) (malloc_ok : bool) : list event * res Z :=
  let batch_count := main_batch_count n in
  if batch_count <? 3 then ([], Err (ExitCode 10))
  else if negb malloc_ok then ([EvMalloc], Err (ExitCode 11))
  else ([EvMalloc; EvMapReset; EvRcp; EvStartWorkers], Ok batch_count).

End Scatter.

(** ** Gather *)

Module Gather.

(** [#define N (NS - L + 1)]: the number of test shingles. *)
Definition N_of (NS : Z) : Z := wrap64 (wrap64 (NS - L) + 1).
Definition N : Z := N_of NS.

(** gather hoists [t = 256*M_DIV + s[L]] out of the loop. *)
Definition update_div_hashes (div_hash : list Z) (hash hash1 : Z)
           (s : list Z) (sp : Z) : res (list Z) :=
  sL <- rd s (sp + L) ;;
  let t := wrap64 (wrap64 (256 * M_DIV) + sL) in
  for_range 0 DV (fun id div_hash =>
    h <- rd div_hash (hash + id) ;;
    s0 <- rd s (sp + 0) ;;
    let v := wrap8 (wrap64 (wrap64 (t + wrap64 (h * B_DIV id))
                            - wrap64 (C_DIV id * s0)) mod M_DIV) in
    div_hash <- wr div_hash (hash + id) v ;;
    wr div_hash (hash1 + id) v) div_hash.

Definition hash_batch : list Z -> Z -> list Z -> list Z -> res (list Z * list Z) :=
  hash_batch_with update_div_hashes.

(** [w = 0; for id < DV: w |= map[hash[id]] & (1<<id); return w;] *)
Definition check_hash (map : bytemap) (hash : list Z) : res Z :=
  for_range 0 DV (fun id w =>
    h <- rd hash id ;;
    v <- map_rd map h ;;
    Ok (wrap8 (Z.lor w (Z.land v (Z.shiftl 1 id))))) 0.

(** [for id < DV: hash[id] = com_hash[j] + div_hash[j*DV + id];] *)
Definition aggregate (com_hash div_hash : ptr) (j : Z) : res (list Z) :=
  for_range 0 DV (fun id hash =>
    c <- ptr_rd com_hash j ;;
    d <- ptr_rd div_hash (wrap32 (wrap32 (j * DV) + id)) ;;
    wr hash id (wrap64 (c + d))) (replicate (Z.to_nat DV) 0).

(** [static uint64_t count] of [check_batch] and the globals [residue],
    [max_count]. *)
Record run_state : Type := RunState { count : Z; residue : Z; max_count : Z }.

Definition run_init : run_state := RunState 0 0 0.

(** [if (check_hash(hash) == 0) count++; else count = 0;
     if (count > LP - L) residue++;
     if (count > max_count) max_count = count;] *)
Definition run_update (st : run_state) (w : Z) : run_state :=
  let count := if w =? 0 then wrap64 (count st + 1) else 0 in
  let residue := if wrap64 (LP - L) <? count then wrap64 (residue st + 1)
                 else residue st in
  let max_count := if max_count st <? count then count else max_count st in
  RunState count residue max_count.

Definition check_batch (map : bytemap) (hash_count : Z) (com_hash div_hash : ptr)
           (st : run_state) : res run_state :=
  for_range 0 hash_count (fun j st =>
    hash <- aggregate com_hash div_hash j ;;
    w <- check_hash map hash ;;
    Ok (run_update st w)) st.

(** worker3 on one container:
    [if (skip_first_carry)
       check_batch(batch_size - LC, com_ctr + LC, div_ctr + LC);
     else check_batch(batch_size, com_ctr, div_ctr);] *)
Definition worker3_consume (map : bytemap) (skip_first_carry : bool) (batch_size : Z)
           (com_ctr div_ctr : list Z) (st : run_state) : res run_state :=
  if skip_first_carry
  then check_batch map (wrap32 (batch_size - LC))
                   (ptr_add (Ptr com_ctr 0) LC) (ptr_add (Ptr div_ctr 0) LC) st
  else check_batch map batch_size (Ptr com_ctr 0) (Ptr div_ctr 0) st.

(** worker1 reads the master file: [seekg(ns)], then one [read] of
    [batch_size] bytes per batch, [exit(14/16/18)] on a short read in
    container A/B/C. The state is the read position. *)
Definition short_read_code (batch_id : Z) : Z := 14 + 2 * ((batch_id - 1) mod 3).

Definition worker1_reads (NS file_length : Z) : res Z :=
  if file_length <? wrap64 (ns + NS) then Err (ExitCode 12)
  else
    run_worker (fun batch_id batch_size pos =>
                  if pos + batch_size <=? file_length then Ok (pos + batch_size)
                  else Err (ExitCode (short_read_code batch_id)))
               (N_of NS) ns.

(** The [hash_count] that worker3 passes to [check_batch], batch by batch;
    the state is [skip_first_carry] and the counts so far. *)
Definition worker3_hash_counts (NS : Z) : res (bool * list Z) :=
  run_worker (fun batch_id batch_size st =>
                let '(skip_first_carry, counts) := st in
                if skip_first_carry : bool
                then Ok (false, counts ++ [wrap32 (batch_size - LC)])
                else Ok (false, counts ++ [batch_size]))
             (N_of NS) (true, []).

(** [main] up to the start of the workers. *)
Definition main_start (n : Z) (malloc_ok : bool) : list event * res Z :=
  let batch_count := main_batch_count n in
  if batch_count <? 3 then ([], Err (ExitCode 10))
  else if negb malloc_ok then ([EvMalloc], Err (ExitCode 11))
  else ([EvMalloc; EvLoadMap; EvRcp; EvStartWorkers], Ok batch_count).

End Gather.

(** ** The hashes as the data model defines them

    [com(i) = (sum_{k<L} s[i+k] * B_COM^(L-1-k)) mod M_COM] and
    [div_id(i) = (sum_{k<L} s[i+k] * B_DIV[id]^(L-1-k)) mod M_DIV]:
    the values from scratch, against which the rolled values are compared. *)

Definition byte_at (s : list Z) (i : Z) : Z := default 0 (s !! Z.to_nat i).

Definition shingle_poly (B : Z) (s : list Z) (i : Z) : Z :=
  foldr Z.add 0 ((fun k => byte_at s (i + k) * B ^ (L - 1 - k)) <$> seqZ 0 L).

Definition com_scratch (s : list Z) (i : Z) : Z := shingle_poly B_COM s i mod M_COM.
Definition div_scratch (id : Z) (s : list Z) (i : Z) : Z :=
  shingle_poly (B_DIV id) s i mod M_DIV.

(** The bytes of shingle [i]. *)
Definition shingle (s : list Z) (i : Z) : list Z :=
  (fun k => byte_at s (i + k)) <$> seqZ 0 L.

(** [uint8_t] contents. *)
Definition bytes (s : list Z) : Prop := Forall (fun b => 0 <= b < 256) s.

(** The accumulator after [n] rounds of [acc = f(acc, s[j])]. *)
Fixpoint acc_pre (f : Z -> Z -> Z) (s : list Z) (n : nat) : Z :=
  match n with
  | O => 0
  | S n' => f (acc_pre f s n') (byte_at s (Z.of_nat n'))
  end.

(** What [hash_batch] leaves in the hash arrays of a batch of [hc] shingles
    of the buffer [s]. *)
Definition hashed (s : list Z) (hc : Z) (com div : list Z) : Prop :=
  (forall j, 0 <= j <= hc -> rd com j = Ok (com_scratch s j)) /\
  (forall j id, 0 <= j < hc -> 0 <= id < DV ->
     rd div (j * DV + id) = Ok (div_scratch id s j)) /\
  (forall id, 0 <= id < DV -> rd div (hc * DV + id) = Ok (div_scratch id s (hc - 1))).

(** The storage a call [hash_batch(s, hc, com, div)] touches. *)
Definition room (s : list Z) (hc : Z) (com div : list Z) : Prop :=
  hc + L <= len s /\ hc + 1 <= len com /\ (hc + 1) * DV <= len div.

(** ** Batches through the pipeline (worker2, then worker3) *)

(** A container as worker2 receives it: the buffer filled by worker1, the
    batch size, and the hash arrays with whatever they held before. *)
Record batch : Type := Batch {
  b_buf : list Z;
  b_size : Z;
  b_com : list Z;
  b_div : list Z
}.

Definition ok_batch (b : batch) : Prop :=
  bytes (b_buf b) /\ 1 <= b_size b /\ (b_size b + 1) * DV < 2 ^ 32 /\
  room (b_buf b) (b_size b) (b_com b) (b_div b).

Definition shingle_count (bs : list batch) : Z := foldr Z.add 0 (b_size <$> bs).

(** scatter: hash the batch, then clear its bits; worker3 starts with
    [first_batch_j0 = LC] and sets it to [0] after its first container. *)
Definition scatter_batch (first_batch_j0 : Z) (b : batch) (map : bytemap) : res bytemap :=
  cd <- Scatter.hash_batch (b_buf b) (b_size b) (b_com b) (b_div b) ;;
  Scatter.worker3_consume first_batch_j0 (b_size b) (fst cd) (snd cd) map.

Fixpoint scatter_run (first_batch_j0 : Z) (bs : list batch) (map : bytemap)
  : res bytemap :=
  match bs with
  | [] => Ok map
  | b :: bs' =>
      map <- scatter_batch first_batch_j0 b map ;;
      scatter_run 0 bs' map
  end.

(** gather: hash the batch, then check it; worker3 starts with
    [skip_first_carry = true] and clears it after its first container. *)
Definition gather_batch (map : bytemap) (skip_first_carry : bool) (b : batch)
           (st : Gather.run_state) : res Gather.run_state :=
  cd <- Gather.hash_batch (b_buf b) (b_size b) (b_com b) (b_div b) ;;
  Gather.worker3_consume map skip_first_carry (b_size b) (fst cd) (snd cd) st.

Fixpoint gather_run (map : bytemap) (skip_first_carry : bool) (bs : list batch)
         (st : Gather.run_state) : res Gather.run_state :=
  match bs with
  | [] => Ok st
  | b :: bs' =>
      st <- gather_batch map skip_first_carry b st ;;
      gather_run map false bs' st
  end.

(** Bit [id] of slot [a] is cleared: co-filter [id] has seen the slot. *)
Definition marked (m : bytemap) (a id : Z) : Prop := Z.testbit (m a) id = false.

(** [m'] has every bit cleared that [m] has cleared. *)
Definition below (m' m : bytemap) : Prop :=
  forall a i, Z.testbit (m a) i = false -> Z.testbit (m' a) i = false.

(** The slot of shingle [i] of the buffer [s] in co-filter [id]:
    [addr(i,id) = com(i) + div_id(i)]. *)
Definition addr (s : list Z) (i id : Z) : Z := com_scratch s i + div_scratch id s i.

(** ** The run detector, in the words of the design

    [count] goes up by one on a surviving shingle and back to [0] on any other;
    [counts c ws] lists the values it takes, from [c], over the verdicts [ws]. *)
Fixpoint counts (c : Z) (ws : list Z) : list Z :=
  match ws with
  | [] => []
  | w :: ws' =>
      let c' := if w =? 0 then c + 1 else 0 in
      c' :: counts c' ws'
  end.

(** The verdict [w] of shingle [j]: [check_hash] on its aggregated hashes. *)
Definition verdict (map : bytemap) (com_hash div_hash : ptr) (j : Z) : res Z :=
  hash <- Gather.aggregate com_hash div_hash j ;;
  Gather.check_hash map hash.

(** The state after [k] more surviving shingles. *)
Definition pass_n (st : Gather.run_state) (k : Z) : Gather.run_state :=
  Gather.RunState
    (Gather.count st + k)
    (Gather.residue st + Z.max 0 (Gather.count st + k - (LP - L))
                       - Z.max 0 (Gather.count st - (LP - L)))
    (Z.max (Gather.max_count st) (Gather.count st + k)).

(** States the detector can be in. *)
Definition wf_state (st : Gather.run_state) : Prop :=
  0 <= Gather.count st <= Gather.max_count st /\ 0 <= Gather.residue st.

(** A computation that can only fail by leaving an array. *)
Definition oob_only {A : Type} (r : res A) : Prop :=
  forall e, r = Err e -> e = OutOfBounds.

(** The number of assigned slots of [a]. *)
Fixpoint trues (a : list bool) : Z :=
  match a with
  | [] => 0
  | b :: a' => (if b then 1 else 0) + trues a'
  end.

(** [p] is a bijection on [[0,256)]. *)
Definition bijection256 (p : list Z) : Prop :=
  len p = 256 /\
  (forall i, 0 <= i < 256 -> exists x, rd p i = Ok x /\ 0 <= x < 256) /\
  (forall i i' x, 0 <= i < 256 -> 0 <= i' < 256 ->
     rd p i = Ok x -> rd p i' = Ok x -> i = i') /\
  (forall x, 0 <= x < 256 -> exists i, 0 <= i < 256 /\ rd p i = Ok x).

(** The state of [rcp_generator] after [j] rounds of its first loop. *)
Definition rcp_inv (j : Z) (ap : list bool * list Z) : Prop :=
  let '(a, p) := ap in
  len a = 256 /\ len p = 256 /\ trues a = j /\
  (forall i, 0 <= i < j -> exists x, rd p i = Ok x /\ 0 <= x < 256 /\ rd a x = Ok true) /\
  (forall i i' x, 0 <= i < j -> 0 <= i' < j ->
     rd p i = Ok x -> rd p i' = Ok x -> i = i') /\
  (forall x, rd a x = Ok true -> exists i, 0 <= i < j /\ rd p i = Ok x).

(** [ceil(n / d)] *)
Definition ceil_div (n d : Z) : Z := (n + d - 1) / d.

(** The batches of a plan, in order: full ones, then the last. *)
Definition plan_sizes (pl : plan) : list Z :=
  replicate (Z.to_nat (batch_count pl - 1)) BATCH_SIZE ++ [last_batch_size pl].

(** [process] applied to the batches [batch_id, batch_id + 1, ...] of the
    given sizes. *)
Fixpoint fold_batches {St : Type} (process : Z -> Z -> St -> res St)
         (batch_id : Z) (sizes : list Z) (st : St) : res St :=
  match sizes with
  | [] => Ok st
  | size :: sizes' =>
      st <- process batch_id size st ;;
      fold_batches process (batch_id + 1) sizes' st
  end.

(** ** Round trip: scatter a sequence of batches, then gather the same *)

(** Both programs on batches that are not the first of a run: scatter
    clears the bits of every shingle, gather checks every shingle. *)
Definition roundtrip (bs : list batch) : res Gather.run_state :=
  map <- scatter_run 0 bs map_init ;;
  gather_run map false bs Gather.run_init.

(** The same with the first-batch handling of the two worker3:
    [first_batch_j0 = LC] and [skip_first_carry = true]. *)
Definition roundtrip_first (bs : list batch) : res Gather.run_state :=
  map <- scatter_run LC bs map_init ;;
  gather_run map true bs Gather.run_init.

(** ** Concrete inputs *)

Definition demo_buf : list Z := [1; 2; 3; 4; 5; 6; 7; 8; 9; 10; 11; 12; 13; 14; 15; 16].

(** Ten shingles of [demo_buf], in hash arrays with room for them. *)
Definition demo_batch : batch := Batch demo_buf 10 (replicate 11 0) (replicate 88 0).

(** A test buffer that holds the shingle [5 6 7 8 9] of [demo_buf] at offset 2. *)
Definition demo_test : batch :=
  Batch [9; 9; 5; 6; 7; 8; 9; 1; 1; 1; 1; 1] 4 (replicate 5 0) (replicate 40 0).

Definition demo_draw (j : Z) : Z := 7 * j * j + 3.

(** The master file as [master.cpp] writes it: 2 GB. *)
Definition master_file_length : Z := 2000000000.

(** The hash arrays of [demo_batch], and the map after scatter has consumed
    its shingles from shingle [j0] on. *)
Definition demo_hashes : list Z * list Z :=
  match Gather.hash_batch (b_buf demo_batch) (b_size demo_batch)
                          (b_com demo_batch) (b_div demo_batch) with
  | Ok cd => cd
  | Err _ => ([], [])
  end.

Definition demo_map_from (j0 : Z) : bytemap :=
  match Scatter.worker3_consume j0 10 (fst demo_hashes) (snd demo_hashes) map_init with
  | Ok m => m
  | Err _ => map_init
  end.

Definition demo_map : bytemap := demo_map_from 2.

(** ** Further definitions *)

(** The state of the run detector keeps [count <= max_count], and [residue]
    is positive exactly when a run longer than [LP - L] was seen. *)
Definition detector_inv (st : Gather.run_state) : Prop :=
  0 <= Gather.count st <= Gather.max_count st /\
  0 <= Gather.residue st /\
  (0 < Gather.residue st <-> LP - L < Gather.max_count st).

(** Map contents are [uint8_t]. *)
Definition bytemap_ok (m : bytemap) : Prop := forall a, 0 <= m a < 256.

(** Slot [a] is the slot, in co-filter [id], of one of the shingles
    [j0 <= j < hc] of the buffer [s]. *)
Definition hit (s : list Z) (j0 hc a id : Z) : Prop :=
  exists j, j0 <= j < hc /\ addr s j id = a.

(** The same over the batches of a run of scatter, whose worker3 starts its
    first container at [first_batch_j0]. *)
Definition hit_by (first_batch_j0 : Z) (bs : list batch) (a id : Z) : Prop :=
  exists (k : nat) b,
    bs !! k = Some b /\
    hit (b_buf b) (if Nat.eqb k 0 then first_batch_j0 else 0) (b_size b) a id.


(** ** The map file: the setup time, then the map *)

(** A binary file: its length and its bytes. *)
Record file : Type := File { f_len : Z; f_at : Z -> Z }.

(** [gcount()] after [read(dst, count)] at position [pos]: the bytes that
    are there. *)
Definition gcount (f : file) (pos count : Z) : Z :=
  Z.max 0 (Z.min count (f_len f - pos)).

(** scatter, at the end of [main]:
    [ofstream map_output_stream(map_file_name, ios::binary);
     if (!map_output_stream) cerr << ...;
     map_output_stream.write(&cur_time, sizeof(time_t));
     map_output_stream.write(map, M_COM + M_DIV);]
    A stream that could not be opened is only reported: the writes do
    nothing and the file stays as it was. [cur_time] is the object
    representation of the [time_t]. *)
Definition write_hash_map (sizeof_time_t : Z) (open_ok : bool) (old : option file)
           (cur_time : Z -> Z) (map : bytemap) : option file :=
  if open_ok
  then Some (File (sizeof_time_t + MAP_SIZE)
                  (fun i => if i <? sizeof_time_t then cur_time i
                            else map (i - sizeof_time_t)))
  else old.

(** gather, [load_hash_map]: [exit(26)] without a file, [exit(27)] when
    [map_length < M_COM+M_DIV], then
    [read(p_time, sizeof(time_t)); read(map, M_COM+M_DIV);]
    with no look at [gcount()]. A read that comes short fills what it got,
    and a stream that has failed reads nothing more. [setup_time] and [map]
    are what the two destinations held before. *)
Definition load_hash_map (sizeof_time_t : Z) (f : option file)
           (setup_time : Z -> Z) (map : bytemap) : res ((Z -> Z) * bytemap) :=
  match f with
  | None => Err (ExitCode 26)
  | Some f =>
      let map_length := wrap64 (f_len f) in
      if map_length <? wrap64 (M_COM + M_DIV) then Err (ExitCode 27)
      else
        let n1 := gcount f 0 sizeof_time_t in
        let setup_time := fun i => if (0 <=? i) && (i <? n1) then f_at f i
                                   else setup_time i in
        let n2 := if n1 =? sizeof_time_t then gcount f n1 (M_COM + M_DIV) else 0 in
        let map := fun a => if (0 <=? a) && (a <? n2) then f_at f (n1 + a)
                            else map a in
        Ok (setup_time, map)
  end.

(** ** master: the random master file *)

Module Master.

(** [#define N 2000000000ULL] and [#define BUFFER_SIZE 32768ULL] *)
Definition N : Z := 2000000000.
Definition BUFFER_SIZE : Z := 32768.

(** [output_stream.write(buffer, count)] *)
Definition write (out buffer : list Z) (count : Z) : res (list Z) :=
  if (0 <=? count) && (count <=? len buffer)
  then Ok (out ++ take (Z.to_nat count) buffer)
  else Err OutOfBounds.

(** The loop of [main]:
    [for (j = 0; j < N; j++) {
       buffer[i] = dist(mt_rand);
       if (++i == BUFFER_SIZE) { write(buffer, BUFFER_SIZE); i = 0; } }]
    on the state [buffer], [i] and the file so far. [draw j] is the [j]-th
    value of [dist(mt_rand)]. *)
Definition generate (N : Z) (draw : Z -> Z) (buffer : list Z)
  : res (list Z * Z * list Z) :=
  for_range 0 N (fun j st =>
    let '(buffer, i, out) := st in
    buffer <- wr buffer i (wrap8 (draw j)) ;;
    let i := wrap64 (i + 1) in
    if i =? BUFFER_SIZE
    then (out <- write out buffer BUFFER_SIZE ;; Ok (buffer, 0, out))
    else Ok (buffer, i, out)) (buffer, 0, []).

(** [main] with [N] bytes to write: [exit(10)] if the file cannot be opened,
    [exit(11)] if [malloc] fails, then the loop and
    [if (i > 0) write(buffer, i);]. [buffer] is what [malloc] returned; the
    result is the file. *)
Definition main (N : Z) (draw : Z -> Z) (open_ok malloc_ok : bool) (buffer : list Z)
  : res (list Z) :=
  if negb open_ok then Err (ExitCode 10)
  else if negb malloc_ok then Err (ExitCode 11)
  else
    st <- generate N draw buffer ;;
    let '(buffer, i, out) := st in
    if 0 <? i then write out buffer i else Ok out.

End Master.

(** ** worker1: from the master file to the string buffers *)

(** The string buffers [buf_ctr_A], [buf_ctr_B] and [buf_ctr_C] are entries
    [0], [1] and [2] of a store; [buffer], [input_buffer] and [carry_buffer]
    point into it. *)
Definition rd2 (bufs : list (list Z)) (c i : Z) : res Z :=
  b <- rd bufs c ;; rd b i.

Definition wr2 (bufs : list (list Z)) (c i v : Z) : res (list (list Z)) :=
  b <- rd bufs c ;;
  b <- wr b i v ;;
  wr bufs c b.

(** The blocks of the worker loop take the containers in turn: A, B, C. *)
Definition ctr_of (batch_id : Z) : Z := (batch_id - 1) mod 3.

Record w1_state : Type := W1 {
  w1_bufs : list (list Z);   (* the three string buffers *)
  w1_carry : Z;              (* [carry_buffer] is [BATCH_SIZE] into this one *)
  w1_pos : Z;                (* position of the input stream *)
  w1_done : list (list Z)    (* the buffers as worker1 handed them on *)
}.

(** One block of worker1, on the container of [batch_id]:
    [for (i = 0; i < LC; i++) buffer[i] = carry_buffer[i];
     carry_buffer = buffer + BATCH_SIZE;
     input_buffer = buffer + LC;
     string_input_stream.read(input_buffer, batch_size);
     if (batch_size != string_input_stream.gcount()) exit(14);   (16, 18)
     for (j = 0; j < batch_size; j++) input_buffer[j] = shuffle[input_buffer[j]];]
    then the demo-string hook of the program, [demo], and the end-signal. *)
Definition worker1_block
           (demo : Z -> Z -> list (list Z) -> Z -> res (list (list Z)))
           (file shuffle : list Z) (batch_id batch_size : Z) (st : w1_state)
  : res w1_state :=
  let c := ctr_of batch_id in
  bufs <- for_range 0 LC (fun i bufs =>
            v <- rd2 bufs (w1_carry st) (BATCH_SIZE + i) ;;
            wr2 bufs c i v) (w1_bufs st) ;;
  if len file <? w1_pos st + batch_size
  then Err (ExitCode (Gather.short_read_code batch_id))
  else
    bufs <- for_range 0 batch_size (fun j bufs =>
              v <- rd file (w1_pos st + j) ;;
              wr2 bufs c (LC + j) v) bufs ;;
    bufs <- for_range 0 batch_size (fun j bufs =>
              x <- rd2 bufs c (LC + j) ;;
              v <- rd shuffle x ;;
              wr2 bufs c (LC + j) v) bufs ;;
    bufs <- demo batch_id batch_size bufs c ;;
    b <- rd bufs c ;;
    Ok (W1 bufs c (w1_pos st + batch_size) (w1_done st ++ [b])).

(** worker1 from the opening of the master file on. A file that cannot be
    opened is only reported ([cerr << ...]); [tellg()] is then [-1], no
    byte can be read, and [file] is [None].
    [if ((uint64_t)tellg() < needed) exit(12);], the stream set to [start],
    the artificial carry [carry_buffer = buf_ctr_C + BATCH_SIZE;
    carry_buffer[j] = 0] for [j < LC], then the blocks for [n] bytes. *)
Definition worker1 (start n needed : Z)
           (demo : Z -> Z -> list (list Z) -> Z -> res (list (list Z)))
           (file : option (list Z)) (shuffle : list Z) (bufs : list (list Z))
  : res w1_state :=
  let tellg := match file with Some f => len f | None => -1 end in
  if wrap64 tellg <? needed then Err (ExitCode 12)
  else
    bufs <- for_range 0 LC (fun j bufs => wr2 bufs 2 (BATCH_SIZE + j) 0) bufs ;;
    run_worker (worker1_block demo (default [] file) shuffle) n (W1 bufs 2 start []).

(** scatter:
    [demo_batch_id = (n / BATCH_SIZE) / 2;
     if (batch_id == demo_batch_id) for (j = 0; j < 20; j++) input_buffer[j] = 0;] *)
Definition scatter_demo (n : Z) (batch_id batch_size : Z) (bufs : list (list Z)) (c : Z)
  : res (list (list Z)) :=
  let demo_batch_id := wrap32 (n / BATCH_SIZE) / 2 in
  if batch_id =? demo_batch_id
  then for_range 0 20 (fun j bufs => wr2 bufs c (LC + j) 0) bufs
  else Ok bufs.

(** gather:
    [demo_batch_id = (N / BATCH_SIZE) / 3;
     if (batch_id == demo_batch_id)
       for (j = 1; j <= 10; j++) input_buffer[batch_size - j] = 0;
     if (batch_id == demo_batch_id + 1)
       for (j = 0; j < 10; j++) input_buffer[j] = 0;] *)
Definition gather_demo (n : Z) (batch_id batch_size : Z) (bufs : list (list Z)) (c : Z)
  : res (list (list Z)) :=
  let demo_batch_id := wrap32 (n / BATCH_SIZE) / 3 in
  bufs <- (if batch_id =? demo_batch_id
           then for_range 1 11 (fun j bufs =>
                  wr2 bufs c (LC + wrap32 (batch_size - j)) 0) bufs
           else Ok bufs) ;;
  if batch_id =? wrap32 (demo_batch_id + 1)
  then for_range 0 10 (fun j bufs => wr2 bufs c (LC + j) 0) bufs
  else Ok bufs.

(** worker1 of scatter reads the [n = ns] reference bytes from the start of
    the master file, worker1 of gather the [N] test bytes from position
    [ns]; the macros [ns] and [NS] are parameters here. *)
Definition scatter_worker1 (ns : Z) (file : option (list Z)) (shuffle : list Z)
           (bufs : list (list Z)) : res w1_state :=
  worker1 0 ns ns (scatter_demo ns) file shuffle bufs.

Definition gather_worker1 (ns NS : Z) (file : option (list Z)) (shuffle : list Z)
           (bufs : list (list Z)) : res w1_state :=
  worker1 ns (Gather.N_of NS) (wrap64 (ns + NS)) (gather_demo (Gather.N_of NS))
          file shuffle bufs.

(** The containers as declared: three buffers of [BATCH_SIZE + LC] bytes. *)
Definition bufs_ok (bufs : list (list Z)) : Prop :=
  length bufs = 3%nat /\ Forall (fun b => len b = BUF_CTR_LEN) bufs.

(** The stream that reaches the hashes: byte [i] read from [start + i],
    shuffled, and [0] where the demo-string hook has written. *)
Definition stream_byte (start : Z) (zeroed : Z -> bool) (file shuffle : list Z) (i : Z)
  : Z :=
  if zeroed i then 0 else byte_at shuffle (byte_at file (start + i)).

Definition scatter_zeroed (n i : Z) : bool :=
  let d := wrap32 (n / BATCH_SIZE) / 2 in
  (1 <=? d) && ((d - 1) * BATCH_SIZE <=? i) && (i <? (d - 1) * BATCH_SIZE + 20).


(** What a demo-string hook does to the container of batch [batch_id]: the
    carry stays, and input byte [j] becomes [0] where [zeroed] says so. *)
Definition demo_zeroes (demo : Z -> Z -> list (list Z) -> Z -> res (list (list Z)))
           (zeroed : Z -> bool) (batch_id batch_size : Z) : Prop :=
  forall bufs c b,
    rd bufs c = Ok b -> len b = BUF_CTR_LEN ->
    exists b',
      demo batch_id batch_size bufs c = Ok (<[Z.to_nat c := b']> bufs) /\
      len b' = BUF_CTR_LEN /\
      (forall i, 0 <= i < LC -> rd b' i = rd b i) /\
      (forall j, 0 <= j < batch_size ->
         rd b' (LC + j)
         = if zeroed ((batch_id - 1) * BATCH_SIZE + j) then Ok 0 else rd b (LC + j)).

(** Buffer [k] of a run holds the carry and then its part of the stream. *)
Definition window (T : Z -> Z) (k : nat) (size : Z) (b : list Z) : Prop :=
  len b = BUF_CTR_LEN /\
  forall p, 0 <= p < LC + size ->
    rd b p = Ok (if (Nat.eqb k 0) && (p <? LC) then 0
                 else T (Z.of_nat k * BATCH_SIZE + p - LC)).

(** ** The scheduler: the stages of the pipeline

    [main] sends a start-signal to each worker of a stage and waits for
    their end-signals before the next stage; the workers of a stage run at
    the same time. A worker answers a start-signal with one block of its
    loop, on the container of its [batch_id]. *)

Inductive worker : Type := Worker1 | Worker2 | Worker3.

Record sched : Type := Sched {
  s_w1 : option Z;                (* [batch_id] of worker1, [None] once it has returned *)
  s_w2 : option Z;
  s_w3 : option Z;
  s_busy : list bool;             (* [ctr_A_busy], [ctr_B_busy], [ctr_C_busy] *)
  s_log : list (Z * worker * Z)   (* stage, worker and batch of the blocks entered *)
}.

Definition get_worker (st : sched) (w : worker) : option Z :=
  match w with
  | Worker1 => s_w1 st
  | Worker2 => s_w2 st
  | Worker3 => s_w3 st
  end.

Definition set_worker (st : sched) (w : worker) (v : option Z) : sched :=
  match w with
  | Worker1 => Sched v (s_w2 st) (s_w3 st) (s_busy st) (s_log st)
  | Worker2 => Sched (s_w1 st) v (s_w3 st) (s_busy st) (s_log st)
  | Worker3 => Sched (s_w1 st) (s_w2 st) v (s_busy st) (s_log st)
  end.

(** [exit(13)], [exit(15)], [exit(17)] in worker1, [exit(19..21)] in
    worker2 and [exit(22..24)] in worker3, for containers A, B, C. *)
Definition busy_code (w : worker) (c : Z) : Z :=
  match w with
  | Worker1 => 13 + 2 * c
  | Worker2 => 19 + c
  | Worker3 => 22 + c
  end.

(** The head of a block: [if (ctr_X_busy) exit(code); else ctr_X_busy = true;].
    A worker that has returned sends no end-signal, and the wait of the
    scheduler for it does not end. *)
Definition enter (stage_id : Z) (w : worker) (st : sched) : res sched :=
  match get_worker st w with
  | None => Err OutOfFuel
  | Some batch_id =>
      let c := ctr_of batch_id in
      busy <- rd (s_busy st) c ;;
      if busy : bool then Err (ExitCode (busy_code w c))
      else
        busy <- wr (s_busy st) c true ;;
        Ok (Sched (s_w1 st) (s_w2 st) (s_w3 st) busy
                  (s_log st ++ [(stage_id, w, batch_id)]))
  end.

(** The tail of a block: [ctr_X_busy = false;], the end-signal, then
    [if (batch_id == batch_count) return; ++batch_id;]. *)
Definition leave (batch_count : Z) (w : worker) (st : sched) : res sched :=
  match get_worker st w with
  | None => Err OutOfFuel
  | Some batch_id =>
      busy <- wr (s_busy st) (ctr_of batch_id) false ;;
      Ok (set_worker (Sched (s_w1 st) (s_w2 st) (s_w3 st) busy (s_log st)) w
                     (if batch_id =? batch_count then None
                      else Some (wrap32 (batch_id + 1))))
  end.

Fixpoint each_worker (f : worker -> sched -> res sched) (ws : list worker) (st : sched)
  : res sched :=
  match ws with
  | [] => Ok st
  | w :: ws' => st <- f w st ;; each_worker f ws' st
  end.

(** One stage: the workers that got a start-signal are all in their blocks
    before the first one leaves, the order that asks most of the busy
    flags. *)
Definition run_stage (batch_count stage_id : Z) (ws : list worker) (st : sched)
  : res sched :=
  st <- each_worker (enter stage_id) ws st ;;
  each_worker (leave batch_count) ws st.

(** [main] from the first stage to the joins: stage 1 is worker1 alone,
    stage 2 workers 1 and 2,
    [for (stage_id = 3; stage_id <= batch_count; stage_id++)] all three,
    stage [batch_count + 1] workers 2 and 3, stage [batch_count + 2]
    worker3; [join] returns for a worker that has returned. *)
Definition scheduler (batch_count : Z) : res sched :=
  let st := Sched (Some 1) (Some 1) (Some 1) [false; false; false] [] in
  st <- run_stage batch_count 1 [Worker1] st ;;
  st <- run_stage batch_count 2 [Worker1; Worker2] st ;;
  st <- for_range 3 (batch_count + 1) (fun stage_id st =>
          run_stage batch_count stage_id [Worker1; Worker2; Worker3] st) st ;;
  st <- run_stage batch_count (batch_count + 1) [Worker2; Worker3] st ;;
  st <- run_stage batch_count (batch_count + 2) [Worker3] st ;;
  match s_w1 st, s_w2 st, s_w3 st with
  | None, None, None => Ok st
  | _, _, _ => Err OutOfFuel
  end.

(** The stage in which a worker has batch [b]: worker1 in stage [b],
    worker2 one later, worker3 two later. *)
Definition stage_of (w : worker) (b : Z) : Z :=
  match w with
  | Worker1 => b
  | Worker2 => b + 1
  | Worker3 => b + 2
  end.

(** The blocks of stage [t] of a pipeline of [batch_count] batches, and
    the blocks of the first [stages] stages. *)
Definition stage_jobs (batch_count t : Z) : list (Z * worker * Z) :=
  (if t <=? batch_count then [(t, Worker1, t)] else []) ++
  (if (2 <=? t) && (t <=? batch_count + 1) then [(t, Worker2, t - 1)] else []) ++
  (if (3 <=? t) && (t <=? batch_count + 2) then [(t, Worker3, t - 2)] else []).

Definition pipeline_log (batch_count stages : Z) : list (Z * worker * Z) :=
  seqZ 1 stages ≫= stage_jobs batch_count.
(** * Properties *)

(** ** Machine integers *)

Lemma wrap8_small x : 0 <= x < 2 ^ 8 -> wrap8 x = x.
Proof. intros H. unfold wrap8. apply Z.mod_small. exact H. Qed.

Lemma wrap32_small x : 0 <= x < 2 ^ 32 -> wrap32 x = x.
Proof. intros H. unfold wrap32. apply Z.mod_small. exact H. Qed.

Lemma wrap64_small x : 0 <= x < 2 ^ 64 -> wrap64 x = x.
Proof. intros H. unfold wrap64. apply Z.mod_small. exact H. Qed.

Lemma wrap8_range x : 0 <= wrap8 x < 256.
Proof. unfold wrap8. apply Z.mod_pos_bound. reflexivity. Qed.

(** ** The error monad and arrays *)

Lemma bind_ok {A B} (m : res A) (k : A -> res B) b :
  bind m k = Ok b -> exists a, m = Ok a /\ k a = Ok b.
Proof. destruct m as [a|e]; simpl; intros H; [eauto | discriminate]. Qed.

Lemma len_nonneg {A} (a : list A) : 0 <= len a.
Proof. unfold len. lia. Qed.

Lemma rd_ok {A} (a : list A) i :
  0 <= i < len a -> exists v, rd a i = Ok v.
Proof.
  intros [H0 H1]. unfold rd, len in *.
  destruct (Z.leb_spec 0 i); [|lia].
  destruct (a !! Z.to_nat i) as [v|] eqn:E; [eauto|].
  apply lookup_ge_None in E. lia.
Qed.

Lemma rd_inv {A} (a : list A) i v :
  rd a i = Ok v -> 0 <= i < len a /\ a !! Z.to_nat i = Some v.
Proof.
  unfold rd, len. destruct (Z.leb_spec 0 i); [|discriminate].
  destruct (a !! Z.to_nat i) as [w|] eqn:E; [|discriminate].
  intros [= ->]. apply lookup_lt_Some in E as E'. split; [lia|reflexivity].
Qed.

Lemma rd_err {A} (a : list A) i : ~ (0 <= i < len a) -> rd a i = Err OutOfBounds.
Proof.
  intros H. unfold rd, len in *. destruct (Z.leb_spec 0 i); [|reflexivity].
  destruct (a !! Z.to_nat i) as [w|] eqn:E; [|reflexivity].
  apply lookup_lt_Some in E. lia.
Qed.

Lemma rd_is_err {A} (a : list A) i e : rd a i = Err e -> e = OutOfBounds.
Proof.
  unfold rd. destruct (0 <=? i); [|congruence].
  destruct (a !! Z.to_nat i); congruence.
Qed.

Lemma wr_ok {A} (a : list A) i v :
  0 <= i < len a -> wr a i v = Ok (<[Z.to_nat i := v]> a).
Proof.
  intros [H0 H1]. unfold wr.
  destruct (Z.leb_spec 0 i); [|lia]. destruct (Z.ltb_spec i (len a)); [|lia].
  reflexivity.
Qed.

Lemma wr_err {A} (a : list A) i v : ~ (0 <= i < len a) -> wr a i v = Err OutOfBounds.
Proof.
  intros H. unfold wr.
  destruct (Z.leb_spec 0 i); destruct (Z.ltb_spec i (len a)); simpl; try reflexivity. lia.
Qed.

Lemma wr_inv {A} (a a' : list A) i v :
  wr a i v = Ok a' -> 0 <= i < len a /\ a' = <[Z.to_nat i := v]> a.
Proof.
  unfold wr. destruct (Z.leb_spec 0 i); destruct (Z.ltb_spec i (len a)); simpl;
    try discriminate.
  intros [= <-]. split; [lia|reflexivity].
Qed.

Lemma wr_len {A} (a a' : list A) i v : wr a i v = Ok a' -> len a' = len a.
Proof.
  intros H. apply wr_inv in H as [_ ->]. unfold len. rewrite length_insert. reflexivity.
Qed.

Lemma rd_wr_same {A} (a a' : list A) i v : wr a i v = Ok a' -> rd a' i = Ok v.
Proof.
  intros H. apply wr_inv in H as [[H0 H1] ->]. unfold rd, len in *.
  destruct (Z.leb_spec 0 i); [|lia].
  rewrite list_lookup_insert_eq by lia. reflexivity.
Qed.

Lemma rd_wr_other {A} (a a' : list A) i j v :
  wr a i v = Ok a' -> i <> j -> rd a' j = rd a j.
Proof.
  intros H Hne. apply wr_inv in H as [[H0 H1] ->]. unfold rd.
  destruct (Z.leb_spec 0 j); [|reflexivity].
  rewrite list_lookup_insert_ne by lia. reflexivity.
Qed.

(** ** Loops *)

Lemma for_loop_inv {St} (I : Z -> St -> Prop) (body : Z -> St -> res St) k :
  forall j st,
    I j st ->
    (forall i s, j <= i < j + Z.of_nat k -> I i s ->
                 exists s', body i s = Ok s' /\ I (i + 1) s') ->
    exists st', for_loop k j body st = Ok st' /\ I (j + Z.of_nat k) st'.
Proof.
  induction k as [|k IH]; intros j st HI Hstep; simpl.
  - exists st. split; [reflexivity|]. replace (j + Z.of_nat 0) with j by lia. exact HI.
  - destruct (Hstep j st) as (s1 & Hb & HI1); [lia|exact HI|].
    rewrite Hb.
    destruct (IH (j + 1) s1 HI1) as (st' & Hl & HI').
    { intros i s Hi. apply Hstep. lia. }
    exists st'. split; [exact Hl|].
    replace (j + Z.of_nat (S k)) with (j + 1 + Z.of_nat k) by lia. exact HI'.
Qed.

Lemma for_range_inv {St} (I : Z -> St -> Prop) lo hi (body : Z -> St -> res St) st :
  lo <= hi ->
  I lo st ->
  (forall i s, lo <= i < hi -> I i s -> exists s', body i s = Ok s' /\ I (i + 1) s') ->
  exists st', for_range lo hi body st = Ok st' /\ I hi st'.
Proof.
  intros Hle HI Hstep. unfold for_range.
  destruct (for_loop_inv I body (Z.to_nat (hi - lo)) lo st HI) as (st' & H1 & H2).
  { intros i s Hi. apply Hstep. lia. }
  exists st'. split; [exact H1|].
  replace (lo + Z.of_nat (Z.to_nat (hi - lo))) with hi in H2 by lia. exact H2.
Qed.

Lemma for_loop_snoc {St} (body : Z -> St -> res St) k :
  forall j st,
    for_loop (S k) j body st =
    (st' <- for_loop k j body st ;; body (j + Z.of_nat k) st').
Proof.
  induction k as [|k IH]; intros j st.
  - simpl. replace (j + Z.of_nat 0) with j by lia. destruct (body j st); reflexivity.
  - change (for_loop (S (S k)) j body st)
      with (match body j st with
            | Ok st' => for_loop (S k) (j + 1) body st'
            | Err e => Err e
            end).
    simpl for_loop at 2.
    destruct (body j st) as [s1|e]; [|reflexivity].
    rewrite IH. replace (j + 1 + Z.of_nat k) with (j + Z.of_nat (S k)) by lia.
    reflexivity.
Qed.

Lemma for_range_last {St} lo hi (body : Z -> St -> res St) st :
  lo < hi ->
  for_range lo hi body st = (st' <- for_range lo (hi - 1) body st ;; body (hi - 1) st').
Proof.
  intros Hlt. unfold for_range.
  replace (Z.to_nat (hi - lo)) with (S (Z.to_nat (hi - 1 - lo))) by lia.
  rewrite for_loop_snoc.
  replace (lo + Z.of_nat (Z.to_nat (hi - 1 - lo))) with (hi - 1) by lia.
  reflexivity.
Qed.

(** *** Arithmetic of the hash family *)

Lemma C_COM_value : C_COM = 154885210.
Proof. vm_compute. reflexivity. Qed.

Lemma C_COM_pow : C_COM = B_COM ^ L mod M_COM.
Proof. vm_compute. reflexivity. Qed.

Lemma id_cases (id : Z) :
  0 <= id < DV ->
  id = 0 \/ id = 1 \/ id = 2 \/ id = 3 \/ id = 4 \/ id = 5 \/ id = 6 \/ id = 7.
Proof. unfold DV. lia. Qed.

Ltac each_id H :=
  apply id_cases in H;
  destruct H as [-> | [-> | [-> | [-> | [-> | [-> | [-> | ->]]]]]]].

Lemma C_DIV_pow id : 0 <= id < DV -> C_DIV id = B_DIV id ^ L mod M_DIV.
Proof. intros H. each_id H; vm_compute; reflexivity. Qed.

Lemma C_DIV_range id : 0 <= id < DV -> 0 <= C_DIV id < M_DIV.
Proof. intros H. each_id H; vm_compute; split; congruence. Qed.

Lemma B_DIV_range id : 0 <= id < DV -> 257 <= B_DIV id <= 293.
Proof. intros H. each_id H; vm_compute; split; congruence. Qed.

Lemma shingle_poly_unfold B s i :
  shingle_poly B s i =
  byte_at s i * B ^ 4 + byte_at s (i + 1) * B ^ 3 + byte_at s (i + 2) * B ^ 2
  + byte_at s (i + 3) * B + byte_at s (i + 4).
Proof.
  unfold shingle_poly. change (seqZ 0 L) with [0; 1; 2; 3; 4].
  cbn [fmap list_fmap foldr]. change (L - 1 - 0) with 4. change (L - 1 - 1) with 3.
  change (L - 1 - 2) with 2. change (L - 1 - 3) with 1. change (L - 1 - 4) with 0.
  replace (i + 0) with i by lia. ring.
Qed.

Lemma mod_shift (M x y q : Z) : x = y + q * M -> x mod M = y mod M.
Proof. intros ->. apply Z_mod_plus_full. Qed.

Lemma byte_at_range s i : bytes s -> 0 <= byte_at s i < 256.
Proof.
  intros Hs. unfold byte_at. destruct (s !! Z.to_nat i) as [b|] eqn:E; simpl; [|lia].
  unfold bytes in Hs. rewrite Forall_lookup in Hs. exact (Hs _ _ E).
Qed.

Lemma rd_byte_at s i : 0 <= i < len s -> rd s i = Ok (byte_at s i).
Proof.
  intros H. destruct (rd_ok s i H) as [v Hv]. rewrite Hv.
  apply rd_inv in Hv as [_ Hv]. unfold byte_at. rewrite Hv. reflexivity.
Qed.

Lemma com_roll_nowrap h s0 sL :
  0 <= h < M_COM -> 0 <= s0 < 256 -> 0 <= sL < 256 ->
  com_roll h s0 sL = ((h + M_COM) * B_COM - C_COM * s0 + sL) mod M_COM.
Proof.
  intros Hh H0 HL. unfold com_roll. rewrite C_COM_value. unfold M_COM, B_COM in *.
  rewrite (wrap64_small (h + _)) by lia.
  rewrite (wrap64_small ((h + _) * _)) by lia.
  rewrite (wrap64_small (_ * s0)) by lia.
  rewrite (wrap64_small (_ - _)) by lia.
  rewrite (wrap64_small (_ + sL)) by lia.
  reflexivity.
Qed.

Lemma div_roll_nowrap id h s0 sL :
  0 <= id < DV -> 0 <= h < 256 -> 0 <= s0 < 256 -> 0 <= sL < 256 ->
  div_roll id h s0 sL = (256 * M_DIV + sL + h * B_DIV id - C_DIV id * s0) mod M_DIV.
Proof.
  intros Hid Hh H0 HL. unfold div_roll.
  pose proof (C_DIV_range id Hid) as HC. pose proof (B_DIV_range id Hid) as HB.
  unfold M_DIV in *.
  rewrite (wrap64_small (256 * _)) by lia.
  rewrite (wrap64_small (_ + sL)) by lia.
  rewrite (wrap64_small (h * _)) by nia.
  rewrite (wrap64_small (C_DIV id * _)) by nia.
  rewrite (wrap64_small (_ + _ + _)) by nia.
  rewrite (wrap64_small (_ - _)) by nia.
  reflexivity.
Qed.

Lemma horner_step_nowrap B M h b :
  0 <= B < 2 ^ 16 -> 0 <= h < 2 ^ 32 -> 0 <= b < 256 ->
  horner_step B M h b = (h * B + b) mod M.
Proof.
  intros HB Hh Hb. unfold horner_step.
  rewrite (wrap64_small (h * B)) by nia.
  rewrite (wrap64_small (_ + b)) by nia.
  reflexivity.
Qed.

(** The roll of the common hash, started from the from-scratch value of
    shingle [i], is the from-scratch value of shingle [i+1]. *)
Lemma com_roll_scratch s i :
  bytes s -> 0 <= i ->
  com_roll (com_scratch s i) (byte_at s i) (byte_at s (i + L)) = com_scratch s (i + 1).
Proof.
  intros Hs Hi.
  rewrite com_roll_nowrap;
    [| apply Z.mod_pos_bound; reflexivity | apply byte_at_range, Hs
     | apply byte_at_range, Hs].
  unfold com_scratch. rewrite !shingle_poly_unfold.
  replace (i + 1 + 1) with (i + 2) by lia. replace (i + 1 + 2) with (i + 3) by lia.
  replace (i + 1 + 3) with (i + 4) by lia. replace (i + 1 + 4) with (i + L) by (unfold L; lia).
  rewrite C_COM_pow. change L with 5.
  set (a := byte_at s i). set (b := byte_at s (i + 1)). set (c := byte_at s (i + 2)).
  set (d := byte_at s (i + 3)). set (e := byte_at s (i + 4)). set (f := byte_at s (i + 5)).
  set (P := a * B_COM ^ 4 + b * B_COM ^ 3 + c * B_COM ^ 2 + d * B_COM + e).
  rewrite (Z.mod_eq P M_COM) by (unfold M_COM; lia).
  rewrite (Z.mod_eq (B_COM ^ 5) M_COM) by (unfold M_COM; lia).
  apply mod_shift with (q := B_COM - P / M_COM * B_COM + B_COM ^ 5 / M_COM * a).
  unfold P. ring.
Qed.

(** The same for each diversified hash. *)
Lemma div_roll_scratch id s i :
  0 <= id < DV -> bytes s -> 0 <= i ->
  div_roll id (div_scratch id s i) (byte_at s i) (byte_at s (i + L))
  = div_scratch id s (i + 1).
Proof.
  intros Hid Hs Hi.
  rewrite div_roll_nowrap;
    [| exact Hid
     | pose proof (Z.mod_pos_bound (shingle_poly (B_DIV id) s i) M_DIV eq_refl) as Hb;
       unfold div_scratch, M_DIV in *; lia
     | apply byte_at_range, Hs | apply byte_at_range, Hs].
  unfold div_scratch. rewrite !shingle_poly_unfold.
  replace (i + 1 + 1) with (i + 2) by lia. replace (i + 1 + 2) with (i + 3) by lia.
  replace (i + 1 + 3) with (i + 4) by lia. replace (i + 1 + 4) with (i + L) by (unfold L; lia).
  rewrite (C_DIV_pow id Hid). change L with 5.
  set (B := B_DIV id).
  set (a := byte_at s i). set (b := byte_at s (i + 1)). set (c := byte_at s (i + 2)).
  set (d := byte_at s (i + 3)). set (e := byte_at s (i + 4)). set (f := byte_at s (i + 5)).
  set (P := a * B ^ 4 + b * B ^ 3 + c * B ^ 2 + d * B + e).
  rewrite (Z.mod_eq P M_DIV) by (unfold M_DIV; lia).
  rewrite (Z.mod_eq (B ^ 5) M_DIV) by (unfold M_DIV; lia).
  apply mod_shift with (q := 256 - P / M_DIV * B + B ^ 5 / M_DIV * a).
  unfold P. ring.
Qed.

(** *** What [update_div_hashes] does to the array *)

Ltac zc :=
  unfold BUF_CTR_LEN, COM_CTR_LEN, DIV_CTR_LEN, MAP_SIZE, LC, DV, L, LP, BATCH_SIZE,
    M_COM, M_DIV, B_COM in *; lia.

Ltac ok_step H := let x := fresh "x" in
  apply bind_ok in H; destruct H as (x & ? & H).

Lemma update_div_hashes_spec div hash hash1 s sp :
  0 <= sp -> sp + L < len s ->
  0 <= hash -> hash + DV <= hash1 -> hash1 + DV <= len div ->
  exists div',
    Scatter.update_div_hashes div hash hash1 s sp = Ok div' /\
    len div' = len div /\
    (forall id h, 0 <= id < DV -> rd div (hash + id) = Ok h ->
       let v := wrap8 (div_roll id h (byte_at s sp) (byte_at s (sp + L))) in
       rd div' (hash + id) = Ok v /\ rd div' (hash1 + id) = Ok v) /\
    (forall k, ~ (hash <= k < hash + DV) -> ~ (hash1 <= k < hash1 + DV) ->
       rd div' k = rd div k).
Proof.
  intros Hsp HspL Hh Hh1 Hlen. unfold Scatter.update_div_hashes.
  pose (I := fun (id : Z) (d : list Z) =>
    len d = len div /\
    (forall id' h, 0 <= id' < id -> rd div (hash + id') = Ok h ->
       let v := wrap8 (div_roll id' h (byte_at s sp) (byte_at s (sp + L))) in
       rd d (hash + id') = Ok v /\ rd d (hash1 + id') = Ok v) /\
    (forall k, ~ (hash <= k < hash + id) -> ~ (hash1 <= k < hash1 + id) ->
       rd d k = rd div k)).
  destruct (for_range_inv I 0 DV
    (fun id div_hash =>
      sL <- rd s (sp + L) ;;
      h <- rd div_hash (hash + id) ;;
      s0 <- rd s (sp + 0) ;;
      let v := wrap8 (div_roll id h s0 sL) in
      div_hash <- wr div_hash (hash + id) v ;;
      wr div_hash (hash1 + id) v) div) as (d' & Hrun & HI).
  - zc.
  - unfold I. split; [reflexivity|]. split; [intros; lia|]. intros. reflexivity.
  - intros id d Hid (Hl & Hdone & Hframe).
    rewrite (rd_byte_at s (sp + L)) by zc. cbn [bind].
    destruct (rd_ok d (hash + id)) as [h Hrd]; [zc|].
    rewrite Hrd. cbn [bind].
    replace (sp + 0) with sp by lia.
    rewrite (rd_byte_at s sp) by zc. cbn [bind].
    set (v := wrap8 (div_roll id h (byte_at s sp) (byte_at s (sp + L)))).
    cbv zeta.
    rewrite (wr_ok d (hash + id) v) by zc. cbn [bind].
    set (d1 := <[Z.to_nat (hash + id) := v]> d).
    assert (Hw1 : wr d (hash + id) v = Ok d1) by (apply wr_ok; zc).
    assert (Hl1 : len d1 = len d) by (eapply wr_len; exact Hw1).
    rewrite (wr_ok d1 (hash1 + id) v) by zc.
    set (d2 := <[Z.to_nat (hash1 + id) := v]> d1).
    assert (Hw2 : wr d1 (hash1 + id) v = Ok d2) by (apply wr_ok; zc).
    exists d2. split; [reflexivity|]. unfold I.
    split; [rewrite (wr_len _ _ _ _ Hw2); lia|]. split.
    + intros id' h' Hid' Hrd'.
      destruct (Z.eq_dec id' id) as [->|Hne].
      * assert (h' = h) as ->.
        { rewrite <- (Hframe (hash + id)) in Hrd' by zc. congruence. }
        fold v. cbv zeta. split.
        -- rewrite (rd_wr_other _ _ _ _ _ Hw2) by zc.
           exact (rd_wr_same _ _ _ _ Hw1).
        -- exact (rd_wr_same _ _ _ _ Hw2).
      * destruct (Hdone id' h' ltac:(lia) Hrd') as [Ha Hb]. cbv zeta. split.
        -- rewrite (rd_wr_other _ _ _ _ _ Hw2) by zc.
           rewrite (rd_wr_other _ _ _ _ _ Hw1) by lia. exact Ha.
        -- rewrite (rd_wr_other _ _ _ _ _ Hw2) by lia.
           rewrite (rd_wr_other _ _ _ _ _ Hw1) by zc. exact Hb.
    + intros k Hk Hk1.
      rewrite (rd_wr_other _ _ _ _ _ Hw2) by lia.
      rewrite (rd_wr_other _ _ _ _ _ Hw1) by lia.
      apply Hframe; lia.
  - exists d'. destruct HI as (Hl & Hdone & Hframe).
    split; [exact Hrun|]. split; [exact Hl|]. split.
    + intros id h Hid Hrd. apply Hdone; assumption.
    + intros k Hk Hk1. apply Hframe; assumption.
Qed.

(** *** The first shingle: Horner's rule *)

Lemma acc_loop_spec (f : Z -> Z -> Z) (a s : list Z) (k n : Z) :
  0 <= k < len a -> 0 <= n <= len s -> rd a k = Ok 0 ->
  exists a',
    for_range 0 n (fun j a => h <- rd a k ;; b <- rd s j ;; wr a k (f h b)) a = Ok a' /\
    len a' = len a /\
    rd a' k = Ok (acc_pre f s (Z.to_nat n)) /\
    (forall k', k' <> k -> rd a' k' = rd a k').
Proof.
  intros Hk Hn H0.
  pose (I := fun (j : Z) (d : list Z) =>
    len d = len a /\ rd d k = Ok (acc_pre f s (Z.to_nat j)) /\
    (forall k', k' <> k -> rd d k' = rd a k')).
  destruct (for_range_inv I 0 n
    (fun j a => h <- rd a k ;; b <- rd s j ;; wr a k (f h b)) a) as (a' & Hrun & HI).
  - lia.
  - unfold I. split; [reflexivity|]. split; [exact H0|]. intros; reflexivity.
  - intros j d Hj (Hl & Hacc & Hframe).
    rewrite Hacc. cbn [bind]. rewrite (rd_byte_at s j) by lia. cbn [bind].
    set (v := f (acc_pre f s (Z.to_nat j)) (byte_at s j)).
    assert (Hw : wr d k v = Ok (<[Z.to_nat k := v]> d)) by (apply wr_ok; lia).
    rewrite Hw. eexists. split; [reflexivity|]. unfold I.
    split; [rewrite (wr_len _ _ _ _ Hw); exact Hl|]. split.
    + rewrite (rd_wr_same _ _ _ _ Hw).
      replace (Z.to_nat (j + 1)) with (S (Z.to_nat j)) by lia.
      cbn [acc_pre]. rewrite Z2Nat.id by lia. reflexivity.
    + intros k' Hk'. rewrite (rd_wr_other _ _ _ _ _ Hw) by congruence.
      apply Hframe. exact Hk'.
  - exists a'. destruct HI as (Hl & Hacc & Hframe). auto.
Qed.

Lemma horner_mod (M B x b : Z) : (x mod M * B + b) mod M = (x * B + b) mod M.
Proof.
  rewrite <- (Zplus_mod_idemp_l (x mod M * B)).
  rewrite Zmult_mod_idemp_l. rewrite Zplus_mod_idemp_l. reflexivity.
Qed.

Lemma horner5 (B M a b c d e : Z) :
  ((((((0 * B + a) mod M * B + b) mod M * B + c) mod M * B + d) mod M) * B + e) mod M
  = (a * B ^ 4 + b * B ^ 3 + c * B ^ 2 + d * B + e) mod M.
Proof.
  rewrite (horner_mod M B (0 * B + a) b).
  rewrite (horner_mod M B ((0 * B + a) * B + b) c).
  rewrite (horner_mod M B (((0 * B + a) * B + b) * B + c) d).
  rewrite (horner_mod M B ((((0 * B + a) * B + b) * B + c) * B + d) e).
  apply (f_equal (fun x => x mod M)). ring.
Qed.

Lemma com_first_shingle s :
  bytes s -> acc_pre (horner_step B_COM M_COM) s (Z.to_nat L) = com_scratch s 0.
Proof.
  intros Hs. change (Z.to_nat L) with 5%nat. cbn [acc_pre].
  change (Z.of_nat 0) with 0. change (Z.of_nat 1) with 1. change (Z.of_nat 2) with 2.
  change (Z.of_nat 3) with 3. change (Z.of_nat 4) with 4.
  pose proof (byte_at_range s 0 Hs). pose proof (byte_at_range s 1 Hs).
  pose proof (byte_at_range s 2 Hs). pose proof (byte_at_range s 3 Hs).
  pose proof (byte_at_range s 4 Hs).
  assert (HM : forall x, 0 <= x mod M_COM < 2 ^ 32).
  { intros x. pose proof (Z.mod_pos_bound x M_COM eq_refl). unfold M_COM in *. lia. }
  rewrite (horner_step_nowrap _ _ 0) by (unfold B_COM; lia).
  do 4 (rewrite horner_step_nowrap by (try apply HM; unfold B_COM; lia)).
  unfold com_scratch. rewrite shingle_poly_unfold. apply horner5.
Qed.

Lemma div_first_shingle id s :
  0 <= id < DV -> bytes s ->
  acc_pre (fun h b => wrap8 (horner_step (B_DIV id) M_DIV h b)) s (Z.to_nat L)
  = div_scratch id s 0.
Proof.
  intros Hid Hs. change (Z.to_nat L) with 5%nat. cbn [acc_pre].
  change (Z.of_nat 0) with 0. change (Z.of_nat 1) with 1. change (Z.of_nat 2) with 2.
  change (Z.of_nat 3) with 3. change (Z.of_nat 4) with 4.
  pose proof (byte_at_range s 0 Hs). pose proof (byte_at_range s 1 Hs).
  pose proof (byte_at_range s 2 Hs). pose proof (byte_at_range s 3 Hs).
  pose proof (byte_at_range s 4 Hs). pose proof (B_DIV_range id Hid) as HB.
  assert (HM : forall x, 0 <= x mod M_DIV < 2 ^ 8).
  { intros x. pose proof (Z.mod_pos_bound x M_DIV eq_refl). unfold M_DIV in *. lia. }
  assert (HM' : forall x, 0 <= x mod M_DIV < 2 ^ 32).
  { intros x. pose proof (HM x). lia. }
  rewrite (horner_step_nowrap _ _ 0) by lia.
  rewrite (wrap8_small (_ mod M_DIV)) by apply HM.
  do 4 (rewrite horner_step_nowrap
          by first [ apply HM'
                   | match goal with
                     | |- 0 <= wrap8 ?y < _ => pose proof (wrap8_range y); lia
                     end
                   | lia ];
        rewrite (wrap8_small (_ mod M_DIV)) by apply HM).
  unfold div_scratch. rewrite shingle_poly_unfold. apply horner5.
Qed.

(** *** The four loops of [hash_batch] *)

Lemma div_scratch_range id s i : 0 <= div_scratch id s i < M_DIV.
Proof. unfold div_scratch. apply Z.mod_pos_bound. reflexivity. Qed.

Lemma com_scratch_range s i : 0 <= com_scratch s i < M_COM.
Proof. unfold com_scratch. apply Z.mod_pos_bound. reflexivity. Qed.

Lemma div_first_spec s div :
  bytes s -> L <= len s -> 2 * DV <= len div ->
  exists div',
    div_first s div = Ok div' /\ len div' = len div /\
    (forall id, 0 <= id < DV ->
       rd div' id = Ok (div_scratch id s 0) /\
       rd div' (DV + id) = Ok (div_scratch id s 0)).
Proof.
  intros Hs HL Hlen. unfold div_first.
  pose (I := fun (id : Z) (d : list Z) =>
    len d = len div /\
    (forall id', 0 <= id' < id ->
       rd d id' = Ok (div_scratch id' s 0) /\
       rd d (DV + id') = Ok (div_scratch id' s 0))).
  match goal with
  | |- exists r, for_range 0 DV ?body div = Ok r /\ _ =>
      destruct (for_range_inv I 0 DV body div) as (d' & Hrun & HI)
  end.
  - zc.
  - unfold I. split; [reflexivity|]. intros; lia.
  - intros id d Hid (Hl & Hdone).
    assert (Hw1 : wr d id 0 = Ok (<[Z.to_nat id := 0]> d)) by (apply wr_ok; zc).
    rewrite Hw1. cbn [bind]. set (d1 := <[Z.to_nat id := 0]> d) in *.
    destruct (acc_loop_spec (fun h b => wrap8 (horner_step (B_DIV id) M_DIV h b))
                d1 s id L) as (d2 & Hacc & Hl2 & Hv2 & Hf2).
    { rewrite (wr_len _ _ _ _ Hw1). zc. }
    { zc. }
    { exact (rd_wr_same _ _ _ _ Hw1). }
    cbv beta in Hacc. rewrite Hacc. cbn [bind].
    rewrite Hv2. cbn [bind]. rewrite (div_first_shingle id s Hid Hs) in *.
    assert (Hw3 : wr d2 (DV + id) (div_scratch id s 0)
                  = Ok (<[Z.to_nat (DV + id) := div_scratch id s 0]> d2)).
    { apply wr_ok. rewrite Hl2, (wr_len _ _ _ _ Hw1). zc. }
    rewrite Hw3. eexists. split; [reflexivity|]. unfold I. split.
    + rewrite (wr_len _ _ _ _ Hw3), Hl2, (wr_len _ _ _ _ Hw1). exact Hl.
    + intros id' Hid'. destruct (Z.eq_dec id' id) as [->|Hne].
      * split.
        -- rewrite (rd_wr_other _ _ _ _ _ Hw3) by zc. exact Hv2.
        -- exact (rd_wr_same _ _ _ _ Hw3).
      * destruct (Hdone id' ltac:(lia)) as [Ha Hb]. split.
        -- rewrite (rd_wr_other _ _ _ _ _ Hw3) by zc.
           rewrite Hf2 by lia. rewrite (rd_wr_other _ _ _ _ _ Hw1) by lia. exact Ha.
        -- rewrite (rd_wr_other _ _ _ _ _ Hw3) by lia.
           rewrite Hf2 by zc. rewrite (rd_wr_other _ _ _ _ _ Hw1) by zc. exact Hb.
  - exists d'. destruct HI as (Hl & Hdone). auto.
Qed.

Lemma div_following_spec s hc div :
  bytes s -> 1 <= hc -> (hc + 1) * DV < 2 ^ 32 ->
  hc + L <= len s + 1 -> (hc + 1) * DV <= len div ->
  (forall id, 0 <= id < DV ->
     rd div id = Ok (div_scratch id s 0) /\ rd div (DV + id) = Ok (div_scratch id s 0)) ->
  exists div',
    div_following_with Scatter.update_div_hashes s hc div = Ok div' /\
    len div' = len div /\
    (forall j id, 0 <= j < hc -> 0 <= id < DV ->
       rd div' (j * DV + id) = Ok (div_scratch id s j)) /\
    (forall id, 0 <= id < DV ->
       rd div' (hc * DV + id) = Ok (div_scratch id s (hc - 1))).
Proof.
  intros Hs Hhc H32 HlenS HlenD Hfirst. unfold div_following_with.
  pose (I := fun (j : Z) (d : list Z) =>
    len d = len div /\
    (forall i id, 0 <= i < j -> 0 <= id < DV ->
       rd d (i * DV + id) = Ok (div_scratch id s i)) /\
    (forall id, 0 <= id < DV ->
       rd d (j * DV + id) = Ok (div_scratch id s (j - 1)))).
  match goal with
  | |- exists r, for_range 1 hc ?body div = Ok r /\ _ =>
      destruct (for_range_inv I 1 hc body div) as (d' & Hrun & HI)
  end.
  - lia.
  - unfold I. split; [reflexivity|]. split.
    + intros i id Hi Hid. assert (i = 0) as -> by lia.
      replace (0 * DV + id) with id by lia. apply Hfirst, Hid.
    + intros id Hid. replace (1 * DV + id) with (DV + id) by lia.
      change (1 - 1) with 0. apply Hfirst, Hid.
  - intros j d Hj (Hl & Hlow & Hseed).
    rewrite (wrap32_small (j + 1)) by zc.
    rewrite (wrap32_small (j * DV)) by zc.
    rewrite (wrap32_small ((j + 1) * DV)) by zc.
    destruct (update_div_hashes_spec d (j * DV) ((j + 1) * DV) s (j - 1))
      as (d1 & Hupd & Hl1 & Hval & Hframe); try zc.
    exists d1. split; [exact Hupd|]. unfold I.
    assert (Hnew : forall id, 0 <= id < DV ->
              rd d1 (j * DV + id) = Ok (div_scratch id s j) /\
              rd d1 ((j + 1) * DV + id) = Ok (div_scratch id s j)).
    { intros id Hid. specialize (Hval id _ Hid (Hseed id Hid)). cbv zeta in Hval.
      rewrite (div_roll_scratch id s (j - 1) Hid Hs) in Hval by lia.
      replace (j - 1 + 1) with j in Hval by lia.
      rewrite wrap8_small in Hval
        by (pose proof (div_scratch_range id s j); unfold M_DIV in *; lia).
      exact Hval. }
    split; [lia|]. split.
    + intros i id Hi Hid. destruct (Z.eq_dec i j) as [->|Hne].
      * apply Hnew, Hid.
      * rewrite Hframe by zc. apply Hlow; [lia|exact Hid].
    + intros id Hid. replace (j + 1 - 1) with j by lia. apply Hnew, Hid.
  - exists d'. destruct HI as (Hl & Hlow & Hseed). auto.
Qed.

Lemma com_first_spec s com :
  bytes s -> L <= len s -> 1 <= len com ->
  exists com',
    com_first s com = Ok com' /\ len com' = len com /\
    rd com' 0 = Ok (com_scratch s 0).
Proof.
  intros Hs HL Hlen. unfold com_first.
  assert (Hw : wr com 0 0 = Ok (<[Z.to_nat 0 := 0]> com)) by (apply wr_ok; lia).
  rewrite Hw. cbn [bind].
  destruct (acc_loop_spec (horner_step B_COM M_COM) (<[Z.to_nat 0 := 0]> com) s 0 L)
    as (c2 & Hacc & Hl2 & Hv2 & _).
  { rewrite (wr_len _ _ _ _ Hw). lia. }
  { zc. }
  { exact (rd_wr_same _ _ _ _ Hw). }
  exists c2. split; [exact Hacc|]. split.
  - rewrite Hl2. exact (wr_len _ _ _ _ Hw).
  - rewrite Hv2, (com_first_shingle s Hs). reflexivity.
Qed.

Lemma com_following_spec s hc com :
  bytes s -> 0 <= hc -> hc + L < 2 ^ 32 ->
  hc + L <= len s -> hc + 1 <= len com ->
  rd com 0 = Ok (com_scratch s 0) ->
  exists com',
    com_following s hc com = Ok com' /\ len com' = len com /\
    (forall j, 0 <= j <= hc -> rd com' j = Ok (com_scratch s j)).
Proof.
  intros Hs Hhc H32 HlenS HlenC Hfirst. unfold com_following.
  pose (I := fun (j : Z) (d : list Z) =>
    len d = len com /\
    (forall i, 0 <= i <= j -> rd d i = Ok (com_scratch s i))).
  match goal with
  | |- exists r, for_range 0 hc ?body com = Ok r /\ _ =>
      destruct (for_range_inv I 0 hc body com) as (d' & Hrun & HI)
  end.
  - lia.
  - unfold I. split; [reflexivity|]. intros i Hi. assert (i = 0) as -> by lia.
    exact Hfirst.
  - intros j d Hj (Hl & Hlow).
    rewrite (Hlow j) by lia. cbn [bind].
    rewrite (rd_byte_at s j) by zc. cbn [bind].
    rewrite (wrap32_small (j + L)) by zc.
    rewrite (rd_byte_at s (j + L)) by zc. cbn [bind].
    rewrite (wrap32_small (j + 1)) by zc.
    rewrite (com_roll_scratch s j Hs) by lia.
    assert (Hw : wr d (j + 1) (com_scratch s (j + 1))
                 = Ok (<[Z.to_nat (j + 1) := com_scratch s (j + 1)]> d))
      by (apply wr_ok; lia).
    rewrite Hw. eexists. split; [reflexivity|]. unfold I.
    split; [rewrite (wr_len _ _ _ _ Hw); exact Hl|].
    intros i Hi. destruct (Z.eq_dec i (j + 1)) as [->|Hne].
    + exact (rd_wr_same _ _ _ _ Hw).
    + rewrite (rd_wr_other _ _ _ _ _ Hw) by lia. apply Hlow. lia.
  - exists d'. destruct HI as (Hl & Hlow). auto.
Qed.

(** *** [hash_batch] as a whole *)

Lemma hash_batch_spec s hc com div :
  bytes s -> 1 <= hc -> (hc + 1) * DV < 2 ^ 32 -> room s hc com div ->
  exists com' div',
    Scatter.hash_batch s hc com div = Ok (com', div') /\
    len com' = len com /\ len div' = len div /\
    hashed s hc com' div'.
Proof.
  intros Hs Hhc H32 (HrS & HrC & HrD).
  unfold Scatter.hash_batch, hash_batch_with.
  destruct (div_first_spec s div Hs) as (d1 & Hd1 & Hl1 & Hv1); [zc | zc |].
  rewrite Hd1. cbn [bind].
  destruct (div_following_spec s hc d1 Hs Hhc H32) as (d2 & Hd2 & Hl2 & Hv2 & Hs2);
    [zc | zc | exact Hv1 |].
  rewrite Hd2. cbn [bind].
  destruct (com_first_spec s com Hs) as (c1 & Hc1 & Hlc1 & Hvc1); [zc | zc |].
  rewrite Hc1. cbn [bind].
  destruct (com_following_spec s hc c1 Hs) as (c2 & Hc2 & Hlc2 & Hvc2);
    [zc | zc | zc | zc | exact Hvc1 |].
  rewrite Hc2. cbn [bind].
  exists c2, d2. split; [reflexivity|]. split; [lia|]. split; [lia|].
  unfold hashed. auto.
Qed.

(** gather's [update_div_hashes] and [hash_batch] compute what scatter's do. *)

Lemma for_loop_ext {St} (f g : Z -> St -> res St) k :
  (forall j st, f j st = g j st) ->
  forall j st, for_loop k j f st = for_loop k j g st.
Proof.
  intros Hfg. induction k as [|k IH]; intros j st; simpl; [reflexivity|].
  rewrite Hfg. destruct (g j st); [apply IH | reflexivity].
Qed.

Lemma for_range_ext {St} (f g : Z -> St -> res St) lo hi st :
  (forall j st, f j st = g j st) -> for_range lo hi f st = for_range lo hi g st.
Proof. intros Hfg. unfold for_range. apply for_loop_ext, Hfg. Qed.

Lemma gather_update_div_hashes div hash hash1 s sp :
  Gather.update_div_hashes div hash hash1 s sp
  = Scatter.update_div_hashes div hash hash1 s sp.
Proof.
  unfold Gather.update_div_hashes, Scatter.update_div_hashes.
  destruct (rd s (sp + L)) as [sL|e] eqn:E; cbn [bind].
  - apply for_range_ext. intros id d. reflexivity.
  - pose proof (rd_is_err _ _ _ E) as ->.
    unfold for_range. change (Z.to_nat (DV - 0)) with 8%nat. reflexivity.
Qed.

Lemma gather_hash_batch s hc com div :
  Gather.hash_batch s hc com div = Scatter.hash_batch s hc com div.
Proof.
  unfold Gather.hash_batch, Scatter.hash_batch, hash_batch_with.
  destruct (div_first s div) as [d1|e]; cbn [bind]; [|reflexivity].
  unfold div_following_with.
  rewrite (for_range_ext _
    (fun j d => Scatter.update_div_hashes d (wrap32 (j * DV))
                  (wrap32 (wrap32 (j + 1) * DV)) s (j - 1)));
    [reflexivity|].
  intros j d. apply gather_update_div_hashes.
Qed.

(** ** The co-filter map *)

Lemma clear_bit_spec v id i :
  0 <= id < 8 ->
  Z.testbit (wrap8 (Z.land v (Z.lnot (Z.shiftl 1 id)))) i
  = (i <? 8) && Z.testbit v i && negb (i =? id).
Proof.
  intros Hid. unfold wrap8.
  destruct (Z.ltb_spec i 0).
  - rewrite Z.testbit_neg_r by lia. rewrite (Z.testbit_neg_r v) by lia.
    destruct (i <? 8); reflexivity.
  - rewrite Z.testbit_mod_pow2 by lia.
    rewrite Z.land_spec, Z.lnot_spec by lia.
    rewrite Z.shiftl_1_l, Z.pow2_bits_eqb by lia.
    rewrite (Z.eqb_sym id i). apply andb_assoc.
Qed.

Lemma test_bit_zero v id :
  0 <= id -> Z.testbit v id = false -> Z.land v (Z.shiftl 1 id) = 0.
Proof.
  intros Hid Hb. apply Z.bits_inj'. intros i Hi.
  rewrite Z.land_spec, Z.shiftl_1_l, Z.pow2_bits_eqb, Z.bits_0 by lia.
  destruct (Z.eqb_spec id i) as [->|]; [rewrite Hb|]; auto using andb_false_r.
Qed.

Lemma map_rd_ok m a : 0 <= a < MAP_SIZE -> map_rd m a = Ok (m a).
Proof.
  intros H. unfold map_rd.
  destruct (Z.leb_spec 0 a); [|lia]. destruct (Z.ltb_spec a MAP_SIZE); [|lia].
  reflexivity.
Qed.

Lemma map_wr_ok m a v :
  0 <= a < MAP_SIZE -> map_wr m a v = Ok (fun x => if x =? a then v else m x).
Proof.
  intros H. unfold map_wr.
  destruct (Z.leb_spec 0 a); [|lia]. destruct (Z.ltb_spec a MAP_SIZE); [|lia].
  reflexivity.
Qed.

Lemma below_refl m : below m m.
Proof. intros a i H. exact H. Qed.

Lemma below_trans m1 m2 m3 : below m1 m2 -> below m2 m3 -> below m1 m3.
Proof. intros H12 H23 a i H. apply H12, H23, H. Qed.

Lemma below_marked m' m a id : below m' m -> marked m a id -> marked m' a id.
Proof. intros Hb Hm. apply Hb, Hm. Qed.

(** The sum [com + div] of two hashes in range is an address of the map and
    does not wrap. *)
Lemma address_in_map c d :
  0 <= c < M_COM -> 0 <= d < M_DIV ->
  wrap64 (c + d) = c + d /\ 0 <= c + d < MAP_SIZE.
Proof.
  intros Hc Hd. unfold MAP_SIZE. split; [|lia].
  apply wrap64_small. unfold M_COM, M_DIV in *. lia.
Qed.

(** In a hashed batch every entry is in range. *)
Lemma hashed_com_range s hc com div j :
  hashed s hc com div -> 0 <= j <= hc ->
  exists c, rd com j = Ok c /\ 0 <= c < M_COM.
Proof.
  intros (Hc & _ & _) Hj. eexists. split; [apply Hc, Hj|apply com_scratch_range].
Qed.

Lemma hashed_div_range s hc com div k :
  hashed s hc com div -> 0 <= k < (hc + 1) * DV ->
  exists d, rd div k = Ok d /\ 0 <= d < M_DIV.
Proof.
  intros (_ & Hd & Hseed) Hk.
  assert (Hk' : k = k / DV * DV + k mod DV).
  { rewrite Z.mul_comm. apply Z.div_mod. unfold DV. lia. }
  assert (Hm : 0 <= k mod DV < DV) by (apply Z.mod_pos_bound; reflexivity).
  assert (Hq : 0 <= k / DV <= hc).
  { split; [apply Z.div_pos; zc|]. apply Z.lt_succ_r.
    apply Z.div_lt_upper_bound; zc. }
  rewrite Hk'. destruct (Z.eq_dec (k / DV) hc) as [E|E].
  - rewrite E. eexists. split; [apply Hseed, Hm|apply div_scratch_range].
  - eexists. split; [apply Hd; [lia|exact Hm]|apply div_scratch_range].
Qed.

Lemma for_range_empty {St} lo hi (body : Z -> St -> res St) st :
  hi <= lo -> for_range lo hi body st = Ok st.
Proof.
  intros H. unfold for_range. replace (Z.to_nat (hi - lo)) with 0%nat by lia.
  reflexivity.
Qed.

Lemma addr_in_map s i id : wrap64 (addr s i id) = addr s i id /\ 0 <= addr s i id < MAP_SIZE.
Proof.
  unfold addr. apply address_in_map; [apply com_scratch_range|apply div_scratch_range].
Qed.

(** *** scatter: clearing the bits of one shingle, of one batch, of all batches *)

Lemma clear_bits_spec s hc com div j m :
  hashed s hc com div -> 0 <= j < hc -> (hc + 1) * DV < 2 ^ 32 ->
  exists m',
    Scatter.clear_bits com div j m = Ok m' /\ below m' m /\
    (forall id, 0 <= id < DV -> marked m' (addr s j id) id).
Proof.
  intros (Hc & Hd & _) Hj H32. unfold Scatter.clear_bits.
  pose (I := fun (id : Z) (mm : bytemap) =>
    below mm m /\ forall id', 0 <= id' < id -> marked mm (addr s j id') id').
  match goal with
  | |- exists r, for_range 0 DV ?body m = Ok r /\ _ =>
      destruct (for_range_inv I 0 DV body m) as (m' & Hrun & HI)
  end.
  - zc.
  - unfold I. split; [apply below_refl|]. intros; lia.
  - intros id mm Hid (Hbelow & Hdone).
    rewrite (Hc j) by lia. cbn [bind].
    rewrite (wrap32_small (j * DV)) by zc.
    rewrite (wrap32_small (j * DV + id)) by zc.
    rewrite (Hd j id) by lia. cbn [bind]. cbv zeta.
    fold (addr s j id). destruct (addr_in_map s j id) as [-> Hin].
    rewrite (map_rd_ok _ _ Hin). cbn [bind]. rewrite (map_wr_ok _ _ _ Hin).
    eexists. split; [reflexivity|]. unfold I.
    assert (Hstep : below (fun x => if x =? addr s j id
                                    then wrap8 (Z.land (mm (addr s j id))
                                                  (Z.lnot (Z.shiftl 1 id)))
                                    else mm x) mm).
    { intros a i Hb. cbv beta. destruct (Z.eqb_spec a (addr s j id)) as [->|]; [|exact Hb].
      rewrite clear_bit_spec by zc. rewrite Hb.
      rewrite andb_false_r. reflexivity. }
    split; [eapply below_trans; [exact Hstep|exact Hbelow]|].
    intros id' Hid'. destruct (Z.eq_dec id' id) as [->|Hne].
    + unfold marked. rewrite Z.eqb_refl. rewrite clear_bit_spec by zc.
      rewrite Z.eqb_refl. apply andb_false_r.
    + eapply below_marked; [exact Hstep|]. apply Hdone. lia.
  - exists m'. destruct HI as (Hbelow & Hdone). auto.
Qed.

Lemma consume_spec s hc com div j0 m :
  hashed s hc com div -> 0 <= j0 -> (hc + 1) * DV < 2 ^ 32 ->
  exists m',
    Scatter.worker3_consume j0 hc com div m = Ok m' /\ below m' m /\
    (forall j id, j0 <= j < hc -> 0 <= id < DV -> marked m' (addr s j id) id).
Proof.
  intros Hh Hj0 H32. unfold Scatter.worker3_consume.
  destruct (Z.le_gt_cases j0 hc) as [Hle|Hgt].
  - pose (I := fun (j : Z) (mm : bytemap) =>
      below mm m /\
      forall i id, j0 <= i < j -> 0 <= id < DV -> marked mm (addr s i id) id).
    match goal with
    | |- exists r, for_range j0 hc ?body m = Ok r /\ _ =>
        destruct (for_range_inv I j0 hc body m) as (m' & Hrun & HI)
    end.
    + exact Hle.
    + unfold I. split; [apply below_refl|]. intros; lia.
    + intros j mm Hj (Hbelow & Hdone).
      destruct (clear_bits_spec s hc com div j mm Hh) as (m1 & Hcb & Hb1 & Hm1);
        [lia|exact H32|].
      exists m1. split; [exact Hcb|]. unfold I.
      split; [eapply below_trans; eassumption|].
      intros i id Hi Hid. destruct (Z.eq_dec i j) as [->|Hne].
      * apply Hm1, Hid.
      * eapply below_marked; [exact Hb1|]. apply Hdone; [lia|exact Hid].
    + exists m'. destruct HI as (Hbelow & Hdone). auto.
  - rewrite for_range_empty by lia. exists m.
    split; [reflexivity|]. split; [apply below_refl|]. intros; lia.
Qed.

Lemma scatter_batch_spec j0 b m :
  ok_batch b -> 0 <= j0 ->
  exists m',
    scatter_batch j0 b m = Ok m' /\ below m' m /\
    (forall j id, j0 <= j < b_size b -> 0 <= id < DV ->
       marked m' (addr (b_buf b) j id) id).
Proof.
  intros (Hs & Hhc & H32 & Hroom) Hj0. unfold scatter_batch.
  destruct (hash_batch_spec _ _ _ _ Hs Hhc H32 Hroom) as (com & div & Hhb & _ & _ & Hh).
  rewrite Hhb. cbn [bind fst snd].
  apply (consume_spec _ _ _ _ _ _ Hh Hj0 H32).
Qed.

(** The shingles that a run of scatter marks: in the first batch from
    [first_batch_j0] on, in the others all. *)
Lemma scatter_run_spec bs :
  forall j0 m,
    Forall ok_batch bs -> 0 <= j0 ->
    exists m',
      scatter_run j0 bs m = Ok m' /\ below m' m /\
      (forall (k : nat) b j id,
         bs !! k = Some b ->
         (if Nat.eqb k 0 then j0 else 0) <= j < b_size b -> 0 <= id < DV ->
         marked m' (addr (b_buf b) j id) id).
Proof.
  induction bs as [|b bs IH]; intros j0 m Hok Hj0.
  - exists m. split; [reflexivity|]. split; [apply below_refl|].
    intros k b j id Hk. rewrite lookup_nil in Hk. discriminate.
  - apply Forall_cons in Hok as [Hb Hbs]. cbn [scatter_run].
    destruct (scatter_batch_spec j0 b m Hb Hj0) as (m1 & H1 & Hb1 & Hm1).
    rewrite H1. cbn [bind].
    destruct (IH 0 m1 Hbs ltac:(lia)) as (m2 & H2 & Hb2 & Hm2).
    exists m2. split; [exact H2|]. split; [eapply below_trans; eassumption|].
    intros k b' j id Hk Hj Hid. destruct k as [|k].
    + cbn in Hk. injection Hk as <-. cbn in Hj.
      eapply below_marked; [exact Hb2|]. apply Hm1; assumption.
    + cbn in Hk. cbn in Hj. apply (Hm2 k b' j id Hk); [|exact Hid].
      destruct (Nat.eqb k 0); lia.
Qed.

(** *** gather: aggregated hashes, [check_hash], [check_batch] *)

Lemma aggregate_spec s hc com div j :
  hashed s hc com div -> 0 <= j < hc -> (hc + 1) * DV < 2 ^ 32 ->
  exists hash,
    Gather.aggregate (Ptr com 0) (Ptr div 0) j = Ok hash /\
    (forall id, 0 <= id < DV -> rd hash id = Ok (addr s j id)).
Proof.
  intros (Hc & Hd & _) Hj H32. unfold Gather.aggregate.
  pose (I := fun (id : Z) (h : list Z) =>
    len h = DV /\ forall id', 0 <= id' < id -> rd h id' = Ok (addr s j id')).
  match goal with
  | |- exists r, for_range 0 DV ?body ?h0 = Ok r /\ _ =>
      destruct (for_range_inv I 0 DV body h0) as (h' & Hrun & HI)
  end.
  - zc.
  - unfold I. split; [reflexivity|]. intros; lia.
  - intros id h Hid (Hl & Hdone). unfold ptr_rd. cbn [arr off].
    replace (0 + j) with j by lia. rewrite (Hc j) by lia. cbn [bind].
    rewrite (wrap32_small (j * DV)) by zc.
    rewrite (wrap32_small (j * DV + id)) by zc.
    replace (0 + (j * DV + id)) with (j * DV + id) by lia.
    rewrite (Hd j id) by lia. cbn [bind].
    fold (addr s j id). destruct (addr_in_map s j id) as [-> _].
    assert (Hw : wr h id (addr s j id) = Ok (<[Z.to_nat id := addr s j id]> h))
      by (apply wr_ok; lia).
    rewrite Hw. eexists. split; [reflexivity|]. unfold I.
    split; [rewrite (wr_len _ _ _ _ Hw); exact Hl|].
    intros id' Hid'. destruct (Z.eq_dec id' id) as [->|Hne].
    + exact (rd_wr_same _ _ _ _ Hw).
    + rewrite (rd_wr_other _ _ _ _ _ Hw) by lia. apply Hdone. lia.
  - exists h'. destruct HI as (_ & Hdone). auto.
Qed.

Lemma check_hash_total m hash (a : Z -> Z) :
  (forall id, 0 <= id < DV -> rd hash id = Ok (a id) /\ 0 <= a id < MAP_SIZE) ->
  exists w, Gather.check_hash m hash = Ok w /\ 0 <= w < 256.
Proof.
  intros Hh. unfold Gather.check_hash.
  pose (I := fun (id : Z) (w : Z) => 0 <= w < 256).
  match goal with
  | |- exists r, for_range 0 DV ?body 0 = Ok r /\ _ =>
      destruct (for_range_inv I 0 DV body 0) as (w & Hrun & HI)
  end.
  - zc.
  - unfold I. lia.
  - intros id w Hid Hw. destruct (Hh id Hid) as [Hrd Hin].
    rewrite Hrd. cbn [bind]. rewrite (map_rd_ok _ _ Hin). cbn [bind].
    eexists. split; [reflexivity|]. unfold I. apply wrap8_range.
  - exists w. auto.
Qed.

Lemma check_hash_zero m hash (a : Z -> Z) :
  (forall id, 0 <= id < DV ->
     rd hash id = Ok (a id) /\ 0 <= a id < MAP_SIZE /\ marked m (a id) id) ->
  Gather.check_hash m hash = Ok 0.
Proof.
  intros Hh. unfold Gather.check_hash.
  pose (I := fun (id : Z) (w : Z) => w = 0).
  match goal with
  | |- for_range 0 DV ?body 0 = _ =>
      destruct (for_range_inv I 0 DV body 0) as (w & Hrun & HI)
  end.
  - zc.
  - reflexivity.
  - intros id w Hid ->. destruct (Hh id Hid) as (Hrd & Hin & Hm).
    rewrite Hrd. cbn [bind]. rewrite (map_rd_ok _ _ Hin). cbn [bind].
    eexists. split; [reflexivity|]. unfold I.
    rewrite (test_bit_zero _ _ (proj1 Hid) Hm). reflexivity.
  - rewrite Hrun, HI. reflexivity.
Qed.

(** A marked shingle gets verdict [0]. *)
Lemma verdict_marked s hc com div j m :
  hashed s hc com div -> 0 <= j < hc -> (hc + 1) * DV < 2 ^ 32 ->
  (forall id, 0 <= id < DV -> marked m (addr s j id) id) ->
  verdict m (Ptr com 0) (Ptr div 0) j = Ok 0.
Proof.
  intros Hh Hj H32 Hm. unfold verdict.
  destruct (aggregate_spec s hc com div j Hh Hj H32) as (hash & Hagg & Hv).
  rewrite Hagg. cbn [bind]. apply (check_hash_zero m hash (addr s j)).
  intros id Hid. split; [apply Hv, Hid|]. split; [apply addr_in_map|apply Hm, Hid].
Qed.

Lemma check_batch_body m cp dp j st :
  (hash <- Gather.aggregate cp dp j ;;
   w <- Gather.check_hash m hash ;;
   Ok (Gather.run_update st w))
  = (w <- verdict m cp dp j ;; Ok (Gather.run_update st w)).
Proof. unfold verdict. destruct (Gather.aggregate cp dp j); reflexivity. Qed.

(** [check_batch] folds [run_update] over the verdicts of its shingles. *)
Lemma check_batch_fold m cp dp hc st (ws : list Z) :
  len ws = hc ->
  (forall j, 0 <= j < hc -> verdict m cp dp j = Ok (byte_at ws j)) ->
  Gather.check_batch m hc cp dp st = Ok (fold_left Gather.run_update ws st).
Proof.
  intros Hlen Hv. unfold Gather.check_batch.
  pose (I := fun (j : Z) (st' : Gather.run_state) =>
    st' = fold_left Gather.run_update (take (Z.to_nat j) ws) st).
  match goal with
  | |- for_range 0 hc ?body st = _ =>
      destruct (for_range_inv I 0 hc body st) as (st' & Hrun & HI)
  end.
  - unfold len in Hlen. lia.
  - reflexivity.
  - intros j s' Hj ->. rewrite check_batch_body, (Hv j Hj). cbn [bind].
    eexists. split; [reflexivity|]. unfold I.
    replace (Z.to_nat (j + 1)) with (S (Z.to_nat j)) by lia.
    assert (Hlk : ws !! Z.to_nat j = Some (byte_at ws j)).
    { unfold byte_at. destruct (ws !! Z.to_nat j) eqn:E; [reflexivity|].
      apply lookup_ge_None in E. unfold len in Hlen. lia. }
    rewrite (take_S_r _ _ _ Hlk), fold_left_app. reflexivity.
  - rewrite Hrun, HI. f_equal. f_equal. apply take_ge. unfold len in Hlen. lia.
Qed.

(** *** The run detector *)

Lemma run_update_step st w :
  0 <= Gather.count st -> 0 <= Gather.residue st ->
  Gather.count st + 1 < 2 ^ 64 -> Gather.residue st + 1 < 2 ^ 64 ->
  let c' := if w =? 0 then Gather.count st + 1 else 0 in
  Gather.run_update st w =
  Gather.RunState c'
    (if LP - L <? c' then Gather.residue st + 1 else Gather.residue st)
    (Z.max (Gather.max_count st) c').
Proof.
  intros Hc Hr Hc1 Hr1. unfold Gather.run_update. cbv zeta.
  rewrite (wrap64_small (Gather.count st + 1)) by lia.
  rewrite (wrap64_small (Gather.residue st + 1)) by lia.
  rewrite (wrap64_small (LP - L)) by zc.
  f_equal. destruct (Z.ltb_spec (Gather.max_count st)
                       (if w =? 0 then Gather.count st + 1 else 0)); lia.
Qed.

Lemma last_cons {A} (a d : A) l : List.last (a :: l) d = List.last l a.
Proof.
  revert a d. induction l as [|b l IH]; intros a d; [reflexivity|].
  change (List.last (a :: b :: l) d) with (List.last (b :: l) d).
  rewrite !IH. reflexivity.
Qed.

Lemma detector_counts ws :
  forall st,
    0 <= Gather.count st -> 0 <= Gather.residue st ->
    Gather.count st + len ws < 2 ^ 64 -> Gather.residue st + len ws < 2 ^ 64 ->
    let st' := fold_left Gather.run_update ws st in
    let cs := counts (Gather.count st) ws in
    Gather.count st' = List.last cs (Gather.count st) /\
    Gather.residue st'
      = Gather.residue st + len (List.filter (fun c => LP - L <? c) cs) /\
    Gather.max_count st <= Gather.max_count st' /\
    (forall c, In c cs -> c <= Gather.max_count st') /\
    (Gather.max_count st' = Gather.max_count st \/ In (Gather.max_count st') cs).
Proof.
  induction ws as [|w ws IH]; intros st Hc Hr Hcn Hrn; cbv zeta.
  - cbn. unfold len. cbn. repeat split; try lia.
  - assert (Hl : len (w :: ws) = len ws + 1) by (unfold len; cbn [length]; lia).
    pose proof (len_nonneg ws) as Hl0.
    cbn [fold_left counts]. cbv zeta.
    rewrite run_update_step by lia. cbv zeta.
    set (c' := if w =? 0 then Gather.count st + 1 else 0).
    assert (Hc' : 0 <= c' <= Gather.count st + 1) by (unfold c'; destruct (w =? 0); lia).
    set (st1 := Gather.RunState c'
                  (if LP - L <? c' then Gather.residue st + 1 else Gather.residue st)
                  (Z.max (Gather.max_count st) c')).
    destruct (IH st1) as (H1 & H2 & H3 & H4 & H5).
    { cbn. lia. }
    { cbn. destruct (LP - L <? c'); lia. }
    { cbn. lia. }
    { cbn. destruct (LP - L <? c'); lia. }
    cbn [Gather.count Gather.residue Gather.max_count st1] in H1, H2, H3, H4, H5.
    fold st1. split; [rewrite last_cons; exact H1|]. split.
    { rewrite H2. cbn [List.filter]. destruct (LP - L <? c').
      - unfold len. cbn [length]. lia.
      - lia. }
    split; [lia|]. split.
    { intros c [<-|Hin]; [lia|]. apply H4, Hin. }
    destruct H5 as [H5|H5].
    + rewrite H5. destruct (Z.max_spec (Gather.max_count st) c') as [[_ ->]|[_ ->]].
      * right. left. reflexivity.
      * left. reflexivity.
    + right. right. exact H5.
Qed.

Lemma counts_app ws1 ws2 c :
  counts c (ws1 ++ ws2) = counts c ws1 ++ counts (List.last (counts c ws1) c) ws2.
Proof.
  revert c. induction ws1 as [|w ws1 IH]; intros c; [reflexivity|].
  cbn [app counts]. cbv zeta. rewrite IH, last_cons. reflexivity.
Qed.

(** *** Round trip: every marked shingle survives *)

Lemma run_update_pass st k :
  wf_state st -> 0 <= k ->
  Gather.count st + k + 1 < 2 ^ 64 -> Gather.residue st + k + 1 < 2 ^ 64 ->
  Gather.run_update (pass_n st k) 0 = pass_n st (k + 1).
Proof.
  intros ((Hc & Hm) & Hr) Hk Hcn Hrn.
  rewrite run_update_step; unfold pass_n; cbn [Gather.count Gather.residue Gather.max_count];
    try zc.
  change (0 =? 0) with true. cbv iota zeta.
  f_equal; [lia| |lia].
  destruct (Z.ltb_spec (LP - L) (Gather.count st + k + 1)); zc.
Qed.

Lemma pass_n_0 st : wf_state st -> pass_n st 0 = st.
Proof.
  intros ((Hc & Hm) & Hr). destruct st as [c r mx]. unfold pass_n.
  cbn in *. f_equal; lia.
Qed.

Lemma pass_n_wf st k : wf_state st -> 0 <= k -> wf_state (pass_n st k).
Proof. intros ((Hc & Hm) & Hr) Hk. unfold wf_state, pass_n. cbn. zc. Qed.

Lemma pass_n_add st k1 k2 :
  wf_state st -> 0 <= k1 -> 0 <= k2 -> pass_n (pass_n st k1) k2 = pass_n st (k1 + k2).
Proof.
  intros ((Hc & Hm) & Hr) H1 H2. unfold pass_n. cbn. f_equal; zc.
Qed.

Lemma check_batch_all_pass s hc com div m st :
  hashed s hc com div -> 0 <= hc -> (hc + 1) * DV < 2 ^ 32 ->
  (forall j id, 0 <= j < hc -> 0 <= id < DV -> marked m (addr s j id) id) ->
  wf_state st ->
  Gather.count st + hc < 2 ^ 64 -> Gather.residue st + hc < 2 ^ 64 ->
  Gather.check_batch m hc (Ptr com 0) (Ptr div 0) st = Ok (pass_n st hc).
Proof.
  intros Hh Hhc H32 Hm Hwf Hcn Hrn. unfold Gather.check_batch.
  pose (I := fun (j : Z) (st' : Gather.run_state) => st' = pass_n st j).
  match goal with
  | |- for_range 0 hc ?body st = _ =>
      destruct (for_range_inv I 0 hc body st) as (st' & Hrun & HI)
  end.
  - exact Hhc.
  - unfold I. symmetry. apply pass_n_0, Hwf.
  - intros j s' Hj ->. rewrite check_batch_body.
    rewrite (verdict_marked s hc com div j m Hh Hj H32) by (intros; apply Hm; lia).
    cbn [bind]. eexists. split; [reflexivity|]. unfold I.
    apply run_update_pass; [exact Hwf|lia|lia|lia].
  - rewrite Hrun, HI. reflexivity.
Qed.

Lemma shingle_count_cons b bs : shingle_count (b :: bs) = b_size b + shingle_count bs.
Proof. reflexivity. Qed.

Lemma shingle_count_nonneg bs : Forall ok_batch bs -> 0 <= shingle_count bs.
Proof.
  induction 1 as [|b bs (_ & Hb & _) _ IH]; [reflexivity|].
  rewrite shingle_count_cons. lia.
Qed.

Lemma gather_run_all_pass m bs :
  forall st,
    Forall ok_batch bs ->
    (forall b j id, In b bs -> 0 <= j < b_size b -> 0 <= id < DV ->
       marked m (addr (b_buf b) j id) id) ->
    wf_state st ->
    Gather.count st + shingle_count bs < 2 ^ 64 ->
    Gather.residue st + shingle_count bs < 2 ^ 64 ->
    gather_run m false bs st = Ok (pass_n st (shingle_count bs)).
Proof.
  induction bs as [|b bs IH]; intros st Hok Hm Hwf Hcn Hrn.
  - cbn. f_equal. symmetry. apply pass_n_0, Hwf.
  - apply Forall_cons in Hok as [Hb Hbs].
    pose proof (shingle_count_nonneg bs Hbs) as Hn.
    rewrite shingle_count_cons in *.
    destruct Hb as (Hs & Hhc & H32 & Hroom).
    cbn [gather_run]. unfold gather_batch. rewrite gather_hash_batch.
    destruct (hash_batch_spec _ _ _ _ Hs Hhc H32 Hroom) as (com & div & Hhb & _ & _ & Hh).
    rewrite Hhb. cbn [bind fst snd]. unfold Gather.worker3_consume.
    rewrite (check_batch_all_pass (b_buf b) (b_size b) com div m st Hh); try lia;
      [|intros j id Hj Hid; apply Hm; [left; reflexivity|exact Hj|exact Hid]|exact Hwf].
    cbn [bind]. rewrite IH.
    + rewrite pass_n_add by (try exact Hwf; lia). reflexivity.
    + exact Hbs.
    + intros b' j id Hin. apply Hm. right. exact Hin.
    + apply pass_n_wf; [exact Hwf|lia].
    + unfold pass_n. cbn. lia.
    + destruct Hwf as ((Hc & Hmx) & Hr). unfold pass_n. cbn. zc.
Qed.

(** ** The storage [hash_batch] needs *)

Lemma oob_rd {A} (a : list A) i : oob_only (rd a i).
Proof. intros e H. exact (rd_is_err _ _ _ H). Qed.

Lemma oob_wr {A} (a : list A) i v : oob_only (wr a i v).
Proof.
  intros e. unfold wr. destruct ((0 <=? i) && (i <? len a)); congruence.
Qed.

Lemma oob_ok {A} (a : A) : oob_only (Ok a).
Proof. intros e H. discriminate. Qed.

Lemma oob_bind {A B} (m : res A) (k : A -> res B) :
  oob_only m -> (forall a, oob_only (k a)) -> oob_only (bind m k).
Proof.
  intros Hm Hk e. destruct m as [a|e']; cbn [bind].
  - apply Hk.
  - intros [= <-]. apply Hm. reflexivity.
Qed.

Lemma oob_for_loop {St} (body : Z -> St -> res St) k :
  (forall j st, oob_only (body j st)) ->
  forall j st, oob_only (for_loop k j body st).
Proof.
  intros Hb. induction k as [|k IH]; intros j st; cbn [for_loop].
  - apply oob_ok.
  - intros e. destruct (body j st) as [st'|e'] eqn:E.
    + apply IH.
    + intros [= <-]. exact (Hb j st e' E).
Qed.

Lemma oob_for_range {St} lo hi (body : Z -> St -> res St) st :
  (forall j st, oob_only (body j st)) -> oob_only (for_range lo hi body st).
Proof. intros Hb. unfold for_range. apply oob_for_loop, Hb. Qed.

Ltac oob :=
  repeat first
    [ apply oob_rd | apply oob_wr | apply oob_ok
    | (apply oob_for_range; intros)
    | (apply oob_bind; [|intros]) ].

Lemma oob_update_div_hashes d hash hash1 s sp :
  oob_only (Scatter.update_div_hashes d hash hash1 s sp).
Proof. unfold Scatter.update_div_hashes. oob. Qed.

Lemma oob_hash_batch s hc com div : oob_only (Scatter.hash_batch s hc com div).
Proof.
  unfold Scatter.hash_batch, hash_batch_with, div_first, div_following_with,
    com_first, com_following.
  oob; try apply oob_update_div_hashes.
Qed.

Lemma for_loop_preserves {St} (P : St -> Prop) (body : Z -> St -> res St) k :
  (forall j st st', body j st = Ok st' -> P st -> P st') ->
  forall j st r, for_loop k j body st = Ok r -> P st -> P r.
Proof.
  intros Hb. induction k as [|k IH]; intros j st r; cbn [for_loop].
  - intros [= <-] HP. exact HP.
  - destruct (body j st) as [st'|e] eqn:E; [|discriminate].
    intros Hr HP. apply (IH _ _ _ Hr). exact (Hb _ _ _ E HP).
Qed.

Lemma for_range_preserves {St} (P : St -> Prop) lo hi (body : Z -> St -> res St) :
  (forall j st st', body j st = Ok st' -> P st -> P st') ->
  forall st r, for_range lo hi body st = Ok r -> P st -> P r.
Proof. intros Hb st r. unfold for_range. apply for_loop_preserves, Hb. Qed.

Lemma for_range_ok_last {St} lo hi (body : Z -> St -> res St) st r :
  lo < hi -> for_range lo hi body st = Ok r ->
  exists st', for_range lo (hi - 1) body st = Ok st' /\ body (hi - 1) st' = Ok r.
Proof.
  intros Hlt H. rewrite for_range_last in H by exact Hlt.
  apply bind_ok in H. exact H.
Qed.

Lemma update_div_hashes_len d hash hash1 s sp d' :
  Scatter.update_div_hashes d hash hash1 s sp = Ok d' -> len d' = len d.
Proof.
  unfold Scatter.update_div_hashes. intros H.
  apply (for_range_preserves (fun x => len x = len d) _ _ _) with (st := d) (r := d')
    in H; [exact H| |reflexivity].
  intros j st st' Hb HP. cbv beta in Hb.
  ok_step Hb. ok_step Hb. ok_step Hb. cbv zeta in Hb. ok_step Hb.
  rewrite (wr_len _ _ _ _ Hb).
  match goal with Hw : wr st _ _ = Ok _ |- _ => rewrite (wr_len _ _ _ _ Hw) end.
  exact HP.
Qed.

Lemma acc_loop_len (f : Z -> Z -> Z) (a s : list Z) k lo hi a' :
  for_range lo hi (fun j a => h <- rd a k ;; b <- rd s j ;; wr a k (f h b)) a = Ok a' ->
  len a' = len a.
Proof.
  intros H.
  apply (for_range_preserves (fun x => len x = len a) _ _ _) with (st := a) (r := a')
    in H; [exact H| |reflexivity].
  intros j st st' Hb HP. cbv beta in Hb. ok_step Hb. ok_step Hb.
  rewrite (wr_len _ _ _ _ Hb). exact HP.
Qed.

Lemma div_first_len s d d' : div_first s d = Ok d' -> len d' = len d.
Proof.
  unfold div_first. intros H.
  apply (for_range_preserves (fun x => len x = len d) _ _ _) with (st := d) (r := d')
    in H; [exact H| |reflexivity].
  intros id st st' Hb HP. cbv beta in Hb.
  ok_step Hb. ok_step Hb. ok_step Hb.
  rewrite (wr_len _ _ _ _ Hb).
  match goal with Ha : for_range 0 L _ _ = Ok _ |- _ =>
    rewrite (acc_loop_len (fun h b => wrap8 (horner_step (B_DIV id) M_DIV h b))
               _ _ _ _ _ _ Ha) end.
  match goal with Hw : wr st _ _ = Ok _ |- _ => rewrite (wr_len _ _ _ _ Hw) end.
  exact HP.
Qed.

Lemma div_following_len s hc d d' :
  div_following_with Scatter.update_div_hashes s hc d = Ok d' -> len d' = len d.
Proof.
  unfold div_following_with. intros H.
  apply (for_range_preserves (fun x => len x = len d) _ _ _) with (st := d) (r := d')
    in H; [exact H| |reflexivity].
  intros j st st' Hb HP. cbv beta in Hb.
  rewrite (update_div_hashes_len _ _ _ _ _ _ Hb). exact HP.
Qed.

Lemma com_first_len s c c' : com_first s c = Ok c' -> len c' = len c.
Proof.
  unfold com_first. intros H. ok_step H.
  rewrite (acc_loop_len (horner_step B_COM M_COM) _ _ _ _ _ _ H).
  match goal with Hw : wr c _ _ = Ok _ |- _ => exact (wr_len _ _ _ _ Hw) end.
Qed.

Lemma com_following_len s hc c c' : com_following s hc c = Ok c' -> len c' = len c.
Proof.
  unfold com_following. intros H.
  apply (for_range_preserves (fun x => len x = len c) _ _ _) with (st := c) (r := c')
    in H; [exact H| |reflexivity].
  intros j st st' Hb HP. cbv beta in Hb. ok_step Hb. ok_step Hb. ok_step Hb.
  rewrite (wr_len _ _ _ _ Hb). exact HP.
Qed.

(** The last round of [div_first] writes [div_hash[DV + DV - 1]]. *)
Lemma div_first_needs s d d' : div_first s d = Ok d' -> 2 * DV <= len d.
Proof.
  intros H. pose proof H as Hd. unfold div_first in H.
  apply for_range_ok_last in H; [|zc]. destruct H as (st & Hpre & Hlast).
  assert (Hl : len st = len d).
  { apply (for_range_preserves (fun x => len x = len d) _ _ _) with (st := d) (r := st)
      in Hpre; [exact Hpre| |reflexivity].
    intros id x x' Hb HP. cbv beta in Hb. ok_step Hb. ok_step Hb. ok_step Hb.
    rewrite (wr_len _ _ _ _ Hb).
    match goal with Ha : for_range 0 L _ _ = Ok _ |- _ =>
      rewrite (acc_loop_len (fun h b => wrap8 (horner_step (B_DIV id) M_DIV h b))
                 _ _ _ _ _ _ Ha) end.
    match goal with Hw : wr x _ _ = Ok _ |- _ => rewrite (wr_len _ _ _ _ Hw) end.
    exact HP. }
  cbv beta in Hlast. ok_step Hlast. ok_step Hlast. ok_step Hlast.
  apply wr_inv in Hlast as [Hin _].
  match goal with Ha : for_range 0 L _ _ = Ok _ |- _ =>
    rewrite (acc_loop_len (fun h b => wrap8 (horner_step (B_DIV (DV - 1)) M_DIV h b))
               _ _ _ _ _ _ Ha) in Hin end.
  match goal with Hw : wr st _ _ = Ok _ |- _ => rewrite (wr_len _ _ _ _ Hw) in Hin end.
  zc.
Qed.

(** The last round of [update_div_hashes] writes [hash1[DV - 1]]. *)
Lemma update_div_hashes_needs d hash hash1 s sp d' :
  Scatter.update_div_hashes d hash hash1 s sp = Ok d' -> hash1 + DV <= len d.
Proof.
  intros H. unfold Scatter.update_div_hashes in H.
  apply for_range_ok_last in H; [|zc]. destruct H as (st & Hpre & Hlast).
  assert (Hl : len st = len d).
  { change (for_range 0 (DV - 1)
              (fun id div_hash =>
                 sL <- rd s (sp + L) ;;
                 h <- rd div_hash (hash + id) ;;
                 s0 <- rd s (sp + 0) ;;
                 let v := wrap8 (div_roll id h s0 sL) in
                 div_hash <- wr div_hash (hash + id) v ;;
                 wr div_hash (hash1 + id) v) d = Ok st) in Hpre.
    apply (for_range_preserves (fun x => len x = len d) _ _ _) with (st := d) (r := st)
      in Hpre; [exact Hpre| |reflexivity].
    intros id x x' Hb HP. cbv beta in Hb.
    ok_step Hb. ok_step Hb. ok_step Hb. cbv zeta in Hb. ok_step Hb.
    rewrite (wr_len _ _ _ _ Hb).
    match goal with Hw : wr x _ _ = Ok _ |- _ => rewrite (wr_len _ _ _ _ Hw) end.
    exact HP. }
  cbv beta in Hlast. ok_step Hlast. ok_step Hlast. ok_step Hlast.
  cbv zeta in Hlast. ok_step Hlast.
  apply wr_inv in Hlast as [Hin _].
  match goal with Hw : wr st _ _ = Ok _ |- _ => rewrite (wr_len _ _ _ _ Hw) in Hin end.
  zc.
Qed.

(** [hash_batch] returns only if the arrays have room for
    [s[hash_count - 1 + L]], [com_hash[hash_count]] and
    [div_hash[hash_count * DV + DV - 1]]. *)
Lemma hash_batch_needs_room s hc com div r :
  1 <= hc -> (hc + 1) * DV < 2 ^ 32 ->
  Scatter.hash_batch s hc com div = Ok r -> room s hc com div.
Proof.
  intros Hhc H32 H. unfold Scatter.hash_batch, hash_batch_with in H.
  apply bind_ok in H as (d1 & Hd1 & H).
  apply bind_ok in H as (d2 & Hd2 & H).
  apply bind_ok in H as (c1 & Hc1 & H).
  apply bind_ok in H as (c2 & Hc2 & _).
  pose proof (com_first_len _ _ _ Hc1) as Hlc1.
  pose proof (div_first_len _ _ _ Hd1) as Hld1.
  unfold com_following in Hc2.
  apply for_range_ok_last in Hc2; [|lia]. destruct Hc2 as (c & Hpre & Hlast).
  fold (com_following s (hc - 1) c1) in Hpre.
  pose proof (com_following_len _ _ _ _ Hpre) as Hlc.
  cbv beta in Hlast. ok_step Hlast. ok_step Hlast. ok_step Hlast.
  apply wr_inv in Hlast as [Hcom _].
  match goal with Hr : rd s (wrap32 _) = Ok _ |- _ => apply rd_inv in Hr as [Hbuf _] end.
  rewrite wrap32_small in Hcom by zc. rewrite wrap32_small in Hbuf by zc.
  unfold room. split; [zc|]. split; [lia|].
  destruct (Z.eq_dec hc 1) as [->|Hne].
  - pose proof (div_first_needs _ _ _ Hd1). zc.
  - unfold div_following_with in Hd2.
    apply for_range_ok_last in Hd2; [|lia]. destruct Hd2 as (d & Hpre2 & Hlast2).
    fold (div_following_with Scatter.update_div_hashes s (hc - 1) d1) in Hpre2.
    pose proof (div_following_len _ _ _ _ Hpre2) as Hld.
    cbv beta in Hlast2. apply update_div_hashes_needs in Hlast2.
    rewrite (wrap32_small (hc - 1 + 1)) in Hlast2 by zc.
    rewrite wrap32_small in Hlast2 by zc. zc.
Qed.

(** With the containers as declared, a full batch has no room. *)
Lemma hash_batch_full_container s com div :
  len s = BUF_CTR_LEN -> len com = COM_CTR_LEN -> len div = DIV_CTR_LEN ->
  Scatter.hash_batch s BATCH_SIZE com div = Err OutOfBounds.
Proof.
  intros Hs Hc Hd.
  destruct (Scatter.hash_batch s BATCH_SIZE com div) as [r|e] eqn:E.
  - apply hash_batch_needs_room in E; [|zc|zc].
    exfalso. destruct E as (H1 & _). zc.
  - rewrite (oob_hash_batch _ _ _ _ _ E). reflexivity.
Qed.

(** ** The byte permutation *)

Lemma trues_bounds (a : list bool) : 0 <= trues a <= len a.
Proof.
  induction a as [|b a IH]; [unfold len; cbn; lia|].
  unfold len in *. cbn [trues length]. destruct b; lia.
Qed.

Lemma trues_insert (a : list bool) :
  forall n, a !! n = Some false -> trues (<[n := true]> a) = trues a + 1.
Proof.
  induction a as [|b a IH]; intros n Hn; [rewrite lookup_nil in Hn; discriminate|].
  destruct n as [|n]; cbn in Hn.
  - injection Hn as ->. cbn. lia.
  - cbn [trues]. change (<[S n := true]> (b :: a)) with (b :: <[n := true]> a).
    cbn [trues]. rewrite (IH n Hn). lia.
Qed.

Lemma trues_free (a : list bool) :
  trues a < len a -> exists n, a !! n = Some false.
Proof.
  induction a as [|b a IH]; intros H; [unfold len in H; cbn in H; lia|].
  destruct b.
  - destruct IH as [n Hn].
    { unfold len in *. cbn [trues length] in H. lia. }
    exists (S n). exact Hn.
  - exists 0%nat. reflexivity.
Qed.

Lemma trues_full (a : list bool) :
  trues a = len a -> forall n b, a !! n = Some b -> b = true.
Proof.
  induction a as [|c a IH]; intros H n b Hn; [rewrite lookup_nil in Hn; discriminate|].
  pose proof (trues_bounds a) as Hb.
  unfold len in *. cbn [trues length] in H.
  destruct c; [|lia].
  destruct n as [|n]; cbn in Hn; [congruence|].
  apply (IH ltac:(lia) n b Hn).
Qed.

Lemma trues_replicate n : trues (replicate n false) = 0.
Proof. induction n as [|n IH]; [reflexivity|]. cbn. rewrite IH. reflexivity. Qed.

Lemma probe_spec fuel :
  forall (a : list bool) rand k,
    len a = 256 -> 0 <= rand < 256 ->
    0 <= k < Z.of_nat fuel -> rd a ((rand + k) mod 256) = Ok false ->
    exists r, probe fuel a rand = Ok r /\ 0 <= r < 256 /\ rd a r = Ok false.
Proof.
  induction fuel as [|fuel IH]; intros a rand k Hl Hr Hk Hfree; [lia|].
  cbn [probe]. destruct (rd_ok a rand ltac:(lia)) as [t Ht]. rewrite Ht. cbn [bind].
  destruct t.
  - assert (k <> 0).
    { intros ->. rewrite Z.add_0_r, Z.mod_small in Hfree by lia. congruence. }
    apply (IH a (wrap8 (rand + 1)) (k - 1) Hl); [apply wrap8_range|lia|].
    unfold wrap8. change (2 ^ 8) with 256.
    rewrite Zplus_mod_idemp_l. replace (rand + 1 + (k - 1)) with (rand + k) by lia.
    exact Hfree.
  - exists rand. auto.
Qed.

Lemma probe_finds (a : list bool) rand :
  len a = 256 -> 0 <= rand < 256 -> trues a < 256 ->
  exists r, probe 256 a rand = Ok r /\ 0 <= r < 256 /\ rd a r = Ok false.
Proof.
  intros Hl Hr Ht. destruct (trues_free a ltac:(lia)) as [n Hn].
  pose proof (lookup_lt_Some _ _ _ Hn) as Hlt. unfold len in Hl.
  apply (probe_spec 256 a rand ((Z.of_nat n - rand) mod 256)); [exact Hl|exact Hr| |].
  - pose proof (Z.mod_pos_bound (Z.of_nat n - rand) 256 eq_refl). lia.
  - rewrite Zplus_mod_idemp_r. replace (rand + (Z.of_nat n - rand)) with (Z.of_nat n) by lia.
    rewrite Z.mod_small by lia. unfold rd.
    destruct (Z.leb_spec 0 (Z.of_nat n)); [|lia]. rewrite Nat2Z.id, Hn. reflexivity.
Qed.

Lemma rcp_fill_spec (draw : Z -> Z) (p : list Z) :
  len p = 256 ->
  exists ap, rcp_fill draw p = Ok ap /\ rcp_inv 256 ap.
Proof.
  intros Hp. unfold rcp_fill.
  apply (for_range_inv rcp_inv); [lia| |].
  - unfold rcp_inv. split; [reflexivity|]. split; [exact Hp|].
    split; [apply (trues_replicate 256)|]. split; [intros; lia|]. split; [intros; lia|].
    intros x Hx. apply rd_inv in Hx as [_ Hx].
    apply lookup_replicate in Hx as [Hx _]. discriminate.
  - intros j [a q] Hj (Hla & Hlq & Ht & Hran & Hinj & Hsur).
    destruct (probe_finds a (wrap8 (draw j)) Hla (wrap8_range _) ltac:(lia))
      as (r & Hprobe & Hr & Hfree).
    rewrite Hprobe. cbn [bind].
    assert (Hwa : wr a r true = Ok (<[Z.to_nat r := true]> a)) by (apply wr_ok; lia).
    rewrite Hwa. cbn [bind].
    assert (Hwq : wr q j r = Ok (<[Z.to_nat j := r]> q)) by (apply wr_ok; lia).
    rewrite Hwq. cbn [bind].
    eexists. split; [reflexivity|]. unfold rcp_inv.
    split; [rewrite (wr_len _ _ _ _ Hwa); exact Hla|].
    split; [rewrite (wr_len _ _ _ _ Hwq); exact Hlq|].
    split.
    { rewrite trues_insert; [lia|]. apply rd_inv in Hfree as [_ Hfree]. exact Hfree. }
    assert (Hold : forall i x, 0 <= i < j -> rd q i = Ok x -> x <> r).
    { intros i x Hi Hx ->. destruct (Hran i Hi) as (y & Hy & _ & Hay).
      rewrite Hx in Hy. injection Hy as <-. congruence. }
    split.
    { intros i Hi. destruct (Z.eq_dec i j) as [->|Hne].
      - exists r. split; [exact (rd_wr_same _ _ _ _ Hwq)|]. split; [exact Hr|].
        exact (rd_wr_same _ _ _ _ Hwa).
      - destruct (Hran i ltac:(lia)) as (x & Hx & Hxr & Hax).
        exists x. split; [rewrite (rd_wr_other _ _ _ _ _ Hwq) by lia; exact Hx|].
        split; [exact Hxr|].
        rewrite (rd_wr_other _ _ _ _ _ Hwa); [exact Hax|].
        intros E. exact (Hold i x ltac:(lia) Hx (eq_sym E)). }
    split.
    { intros i i' x Hi Hi' Hx Hx'.
      destruct (Z.eq_dec i j) as [->|Hne]; destruct (Z.eq_dec i' j) as [->|Hne'];
        [reflexivity| | |].
      - rewrite (rd_wr_same _ _ _ _ Hwq) in Hx. injection Hx as <-.
        rewrite (rd_wr_other _ _ _ _ _ Hwq) in Hx' by lia.
        exfalso. exact (Hold i' r ltac:(lia) Hx' eq_refl).
      - rewrite (rd_wr_same _ _ _ _ Hwq) in Hx'. injection Hx' as <-.
        rewrite (rd_wr_other _ _ _ _ _ Hwq) in Hx by lia.
        exfalso. exact (Hold i r ltac:(lia) Hx eq_refl).
      - rewrite (rd_wr_other _ _ _ _ _ Hwq) in Hx by lia.
        rewrite (rd_wr_other _ _ _ _ _ Hwq) in Hx' by lia.
        apply (Hinj i i' x); [lia|lia|exact Hx|exact Hx']. }
    intros x Hx. destruct (Z.eq_dec x r) as [->|Hne].
    + exists j. split; [lia|]. exact (rd_wr_same _ _ _ _ Hwq).
    + rewrite (rd_wr_other _ _ _ _ _ Hwa) in Hx by congruence.
      destruct (Hsur x Hx) as (i & Hi & Hqi). exists i. split; [lia|].
      rewrite (rd_wr_other _ _ _ _ _ Hwq) by lia. exact Hqi.
Qed.

Lemma rcp_inv_bijection a p : rcp_inv 256 (a, p) -> bijection256 p.
Proof.
  intros (Hla & Hlp & Ht & Hran & Hinj & Hsur). unfold bijection256.
  split; [exact Hlp|]. split.
  { intros i Hi. destruct (Hran i Hi) as (x & Hx & Hxr & _). eauto. }
  split; [exact Hinj|].
  intros x Hx. apply Hsur.
  destruct (rd_ok a x ltac:(lia)) as [b Hb]. rewrite Hb. f_equal.
  apply rd_inv in Hb as [_ Hb]. apply (trues_full a ltac:(lia) _ _ Hb).
Qed.

(** The test loop finds no duplicate in a bijection. *)
Lemma rcp_test_ok p : bijection256 p -> rcp_test p = Ok tt.
Proof.
  intros (Hl & Hran & Hinj & _). unfold rcp_test.
  match goal with
  | |- for_range 0 256 ?body tt = _ =>
      destruct (for_range_inv (fun _ _ => True) 0 256 body tt) as ([] & Hrun & _)
  end; [lia|exact I| |exact Hrun].
  intros j [] Hj _. exists tt. split; [|exact I].
  match goal with
  | |- for_range (j + 1) 256 ?body tt = _ =>
      destruct (for_range_inv (fun _ _ => True) (j + 1) 256 body tt) as ([] & Hrun & _)
  end; [lia|exact I| |exact Hrun].
  intros i [] Hi _. exists tt. split; [|exact I].
  destruct (Hran j ltac:(lia)) as (x & Hx & _).
  destruct (Hran i ltac:(lia)) as (y & Hy & _).
  rewrite Hx, Hy. cbn [bind].
  destruct (Z.eqb_spec x y) as [->|]; [|reflexivity].
  exfalso. assert (j = i) by (apply (Hinj j i y); [lia|lia|exact Hx|exact Hy]). lia.
Qed.

Lemma rcp_generator_spec (draw : Z -> Z) (p : list Z) :
  len p = 256 ->
  exists p', rcp_generator draw p = Ok p' /\ bijection256 p'.
Proof.
  intros Hp. unfold rcp_generator.
  destruct (rcp_fill_spec draw p Hp) as ([a q] & Hfill & Hinv).
  rewrite Hfill. cbn [bind snd].
  pose proof (rcp_inv_bijection a q Hinv) as Hbij.
  rewrite (rcp_test_ok q Hbij). cbn [bind].
  exists q. auto.
Qed.

(** ** Batch bookkeeping *)

Lemma quot_rem_batch n :
  0 <= n -> n = n / BATCH_SIZE * BATCH_SIZE + n mod BATCH_SIZE /\
            0 <= n mod BATCH_SIZE < BATCH_SIZE /\ 0 <= n / BATCH_SIZE <= n.
Proof.
  intros Hn.
  pose proof (Z.div_mod n BATCH_SIZE ltac:(unfold BATCH_SIZE; lia)) as Hdm.
  pose proof (Z.mod_pos_bound n BATCH_SIZE eq_refl) as Hm.
  pose proof (Z.div_pos n BATCH_SIZE Hn eq_refl) as Hq.
  split; [lia|]. split; [exact Hm|]. split; [exact Hq|].
  unfold BATCH_SIZE in *. nia.
Qed.

Lemma main_batch_count_spec n :
  0 <= n < 2 ^ 32 ->
  main_batch_count n
  = n / BATCH_SIZE + (if n mod BATCH_SIZE =? 0 then 0 else 1).
Proof.
  intros Hn. destruct (quot_rem_batch n ltac:(lia)) as (Hdm & Hm & Hq).
  unfold main_batch_count. cbv zeta.
  rewrite (wrap32_small (n / BATCH_SIZE)) by lia.
  rewrite (wrap32_small (n / BATCH_SIZE * BATCH_SIZE)) by zc.
  replace (n - n / BATCH_SIZE * BATCH_SIZE) with (n mod BATCH_SIZE) by lia.
  rewrite (wrap64_small (n mod BATCH_SIZE)) by zc.
  destruct (Z.ltb_spec 0 (n mod BATCH_SIZE)); destruct (Z.eqb_spec (n mod BATCH_SIZE) 0);
    try lia.
  - apply wrap32_small. zc.
Qed.

Lemma ceil_div_batch n :
  0 <= n ->
  ceil_div n BATCH_SIZE = n / BATCH_SIZE + (if n mod BATCH_SIZE =? 0 then 0 else 1).
Proof.
  intros Hn. destruct (quot_rem_batch n Hn) as (Hdm & Hm & Hq).
  unfold ceil_div. symmetry.
  destruct (Z.eqb_spec (n mod BATCH_SIZE) 0) as [E|E].
  - apply (Z.div_unique _ _ _ (BATCH_SIZE - 1)); zc.
  - apply (Z.div_unique _ _ _ (n mod BATCH_SIZE - 1)); zc.
Qed.

Lemma worker_plan_spec n :
  0 < n < 2 ^ 32 ->
  let pl := worker_plan n in
  1 <= batch_count pl < 2 ^ 32 - 1 /\
  0 < last_batch_size pl <= BATCH_SIZE /\
  batch_count pl = main_batch_count n /\
  first_batch_size pl
    = (if batch_count pl =? 1 then last_batch_size pl else BATCH_SIZE) /\
  (batch_count pl - 1) * BATCH_SIZE + last_batch_size pl = n.
Proof.
  intros Hn. destruct (quot_rem_batch n ltac:(lia)) as (Hdm & Hm & Hq).
  rewrite main_batch_count_spec by lia.
  unfold worker_plan. cbv zeta.
  rewrite (wrap32_small (n / BATCH_SIZE)) by lia.
  rewrite (wrap32_small (n / BATCH_SIZE * BATCH_SIZE)) by zc.
  replace (n - n / BATCH_SIZE * BATCH_SIZE) with (n mod BATCH_SIZE) by lia.
  rewrite (wrap64_small (n mod BATCH_SIZE)) by zc.
  rewrite (wrap32_small (n mod BATCH_SIZE)) by zc.
  assert (Hq' : n / BATCH_SIZE < 2 ^ 32 - 2).
  { apply Z.div_lt_upper_bound; zc. }
  destruct (Z.ltb_spec 0 (n mod BATCH_SIZE)); destruct (Z.eqb_spec (n mod BATCH_SIZE) 0);
    try lia; cbn [batch_count last_batch_size first_batch_size].
  - rewrite (wrap32_small (n / BATCH_SIZE + 1)) by lia.
    repeat split; try lia.
  - assert (1 <= n / BATCH_SIZE) by (unfold BATCH_SIZE in *; nia).
    repeat split; try lia; zc.
Qed.

Lemma worker_loop_spec {St} (process : Z -> Z -> St -> res St) (pl : plan) (k : nat) :
  forall batch_id st,
    1 <= batch_id -> batch_id + Z.of_nat k = batch_count pl ->
    batch_count pl < 2 ^ 32 - 1 ->
    worker_loop (S k) process pl batch_id
                (if batch_id =? batch_count pl then last_batch_size pl else BATCH_SIZE) st
    = fold_batches process batch_id
                   (replicate k BATCH_SIZE ++ [last_batch_size pl]) st.
Proof.
  induction k as [|k IH]; intros batch_id st Hid Hk Hbc.
  - assert (batch_id = batch_count pl) as -> by lia.
    rewrite Z.eqb_refl. cbn [worker_loop replicate app fold_batches].
    rewrite Z.eqb_refl. destruct (process _ _ st); reflexivity.
  - destruct (Z.eqb_spec batch_id (batch_count pl)) as [E|E]; [lia|].
    cbn [replicate app fold_batches].
    change (worker_loop (S (S k)) process pl batch_id BATCH_SIZE st)
      with (st' <- process batch_id BATCH_SIZE st ;;
            if batch_id =? batch_count pl then Ok st'
            else
              let batch_id' := wrap32 (batch_id + 1) in
              let batch_size := if batch_id' =? batch_count pl
                                then last_batch_size pl else BATCH_SIZE in
              worker_loop (S k) process pl batch_id' batch_size st').
    destruct (process batch_id BATCH_SIZE st) as [st'|e]; cbn [bind]; [|reflexivity].
    destruct (Z.eqb_spec batch_id (batch_count pl)); [lia|]. cbv zeta.
    rewrite (wrap32_small (batch_id + 1)) by lia.
    apply IH; lia.
Qed.

(** A worker handles the batches of its plan in order. *)
Lemma run_worker_spec {St} (process : Z -> Z -> St -> res St) n st :
  0 < n < 2 ^ 32 ->
  run_worker process n st = fold_batches process 1 (plan_sizes (worker_plan n)) st.
Proof.
  intros Hn. destruct (worker_plan_spec n Hn) as (Hbc & Hlast & _ & Hfirst & _).
  unfold run_worker, plan_sizes. cbv zeta. rewrite Hfirst.
  replace (Z.to_nat (batch_count (worker_plan n)))
    with (S (Z.to_nat (batch_count (worker_plan n) - 1))) by lia.
  replace (if batch_count (worker_plan n) =? 1 then _ else _)
    with (if 1 =? batch_count (worker_plan n)
          then last_batch_size (worker_plan n) else BATCH_SIZE)
    by (rewrite Z.eqb_sym; reflexivity).
  apply worker_loop_spec; lia.
Qed.

Lemma plan_sizes_sum n :
  0 < n < 2 ^ 32 -> foldr Z.add 0 (plan_sizes (worker_plan n)) = n.
Proof.
  intros Hn. destruct (worker_plan_spec n Hn) as (Hbc & _ & _ & _ & Hsum).
  unfold plan_sizes.
  set (pl := worker_plan n) in *.
  assert (Hrep : forall k, foldr Z.add 0 (replicate k BATCH_SIZE ++ [last_batch_size pl])
                           = Z.of_nat k * BATCH_SIZE + last_batch_size pl).
  { induction k as [|k IH]; [cbn; lia|].
    cbn [replicate app foldr]. rewrite IH. lia. }
  rewrite Hrep. rewrite Z2Nat.id by lia. exact Hsum.
Qed.

(** *** gather's worker1 and worker3 over the batches *)

Lemma fold_reads file_length sizes :
  forall batch_id pos,
    Forall (fun size => 0 <= size) sizes ->
    pos + foldr Z.add 0 sizes <= file_length ->
    fold_batches (fun batch_id batch_size pos =>
                    if pos + batch_size <=? file_length then Ok (pos + batch_size)
                    else Err (ExitCode (Gather.short_read_code batch_id)))
                 batch_id sizes pos
    = Ok (pos + foldr Z.add 0 sizes).
Proof.
  induction sizes as [|size sizes IH]; intros batch_id pos Hpos Hfit.
  - cbn. f_equal. lia.
  - apply Forall_cons in Hpos as [Hsize Hpos]. cbn [foldr] in Hfit.
    assert (0 <= foldr Z.add 0 sizes).
    { clear -Hpos. induction Hpos; cbn; lia. }
    cbn [fold_batches foldr].
    destruct (Z.leb_spec (pos + size) file_length); [|lia]. cbn [bind].
    rewrite IH by (try exact Hpos; lia). f_equal. lia.
Qed.

Lemma plan_sizes_nonneg n :
  0 < n < 2 ^ 32 -> Forall (fun size => 0 <= size) (plan_sizes (worker_plan n)).
Proof.
  intros Hn. destruct (worker_plan_spec n Hn) as (_ & Hlast & _).
  unfold plan_sizes. apply Forall_app. split.
  - apply Forall_replicate. unfold BATCH_SIZE. lia.
  - apply Forall_cons. split; [lia|apply Forall_nil; exact I].
Qed.

Lemma N_of_small NS' : L <= NS' < 2 ^ 32 -> Gather.N_of NS' = NS' - L + 1.
Proof.
  intros H. unfold Gather.N_of.
  rewrite (wrap64_small (NS' - L)) by zc. apply wrap64_small. zc.
Qed.

(** worker1 reads [N = NS - L + 1] bytes from position [ns] on. *)
Lemma worker1_reads_spec NS' file_length :
  L <= NS' < 2 ^ 32 -> ns + NS' <= file_length ->
  Gather.worker1_reads NS' file_length = Ok (ns + (NS' - L + 1)).
Proof.
  intros HNS Hfile. unfold Gather.worker1_reads.
  rewrite (wrap64_small (ns + NS')) by (unfold ns; zc).
  destruct (Z.ltb_spec file_length (ns + NS')); [lia|].
  rewrite N_of_small by exact HNS.
  assert (Hn : 0 < NS' - L + 1 < 2 ^ 32) by zc.
  rewrite run_worker_spec by exact Hn.
  rewrite fold_reads.
  - rewrite plan_sizes_sum by exact Hn. reflexivity.
  - apply plan_sizes_nonneg, Hn.
  - rewrite plan_sizes_sum by exact Hn. zc.
Qed.

Lemma fold_hash_counts sizes :
  forall batch_id counts,
    fold_batches (fun (batch_id batch_size : Z) (st : bool * list Z) =>
                    let '(skip_first_carry, counts) := st in
                    if skip_first_carry : bool
                    then Ok (false, counts ++ [wrap32 (batch_size - LC)])
                    else Ok (false, counts ++ [batch_size]))
                 batch_id sizes (false, counts)
    = Ok (false, counts ++ sizes).
Proof.
  induction sizes as [|size sizes IH]; intros batch_id counts.
  - cbn. rewrite app_nil_r. reflexivity.
  - cbn [fold_batches bind]. rewrite IH. rewrite <- app_assoc. reflexivity.
Qed.

(** worker3 passes [N - LC] shingles to [check_batch] in all. *)
Lemma worker3_hash_counts_spec NS' :
  L <= NS' < 2 ^ 32 -> 2 <= main_batch_count (Gather.N_of NS') ->
  exists counts,
    Gather.worker3_hash_counts NS' = Ok (false, counts) /\
    foldr Z.add 0 counts = Gather.N_of NS' - LC.
Proof.
  intros HNS Hbc. unfold Gather.worker3_hash_counts.
  rewrite N_of_small in * by exact HNS.
  assert (Hn : 0 < NS' - L + 1 < 2 ^ 32) by zc.
  rewrite run_worker_spec by exact Hn.
  pose proof (plan_sizes_sum _ Hn) as Hsum.
  destruct (worker_plan_spec _ Hn) as (_ & _ & Hmain & _ & _).
  rewrite <- Hmain in Hbc. unfold plan_sizes in *.
  set (pl := worker_plan (NS' - L + 1)) in *.
  replace (Z.to_nat (batch_count pl - 1)) with (S (Z.to_nat (batch_count pl - 2))) in *
    by lia.
  cbn [replicate app fold_batches bind foldr] in *.
  rewrite fold_hash_counts. eexists. split; [reflexivity|].
  cbn [app foldr]. rewrite (wrap32_small (BATCH_SIZE - LC)) by zc. lia.
Qed.

(** ** [main] before the workers *)

Lemma scatter_main_exit n ok :
  snd (Scatter.main_start n ok) = Err (ExitCode 10) <-> main_batch_count n < 3.
Proof.
  unfold Scatter.main_start. cbv zeta.
  destruct (Z.ltb_spec (main_batch_count n) 3); cbn [snd].
  - split; [intros _; assumption|reflexivity].
  - destruct ok; cbn [negb snd]; split; (discriminate || lia).
Qed.

Lemma gather_main_exit n ok :
  snd (Gather.main_start n ok) = Err (ExitCode 10) <-> main_batch_count n < 3.
Proof.
  unfold Gather.main_start. cbv zeta.
  destruct (Z.ltb_spec (main_batch_count n) 3); cbn [snd].
  - split; [intros _; assumption|reflexivity].
  - destruct ok; cbn [negb snd]; split; (discriminate || lia).
Qed.

Lemma scatter_main_exit_first n ok :
  snd (Scatter.main_start n ok) = Err (ExitCode 10) -> fst (Scatter.main_start n ok) = [].
Proof.
  unfold Scatter.main_start. cbv zeta.
  destruct (main_batch_count n <? 3); [reflexivity|].
  destruct ok; cbn; discriminate.
Qed.

Lemma gather_main_exit_first n ok :
  snd (Gather.main_start n ok) = Err (ExitCode 10) -> fst (Gather.main_start n ok) = [].
Proof.
  unfold Gather.main_start. cbv zeta.
  destruct (main_batch_count n <? 3); [reflexivity|].
  destruct ok; cbn; discriminate.
Qed.

(** * The claims *)

Lemma shingle_addr s r s' t id :
  shingle s r = shingle s' t -> addr s r id = addr s' t id.
Proof.
  unfold shingle. change (seqZ 0 L) with [0; 1; 2; 3; 4]. cbn [fmap list_fmap].
  rewrite !Z.add_0_r. intros [= H0 H1 H2 H3 H4].
  unfold addr, com_scratch, div_scratch. rewrite !shingle_poly_unfold.
  rewrite H0, H1, H2, H3, H4. reflexivity.
Qed.

Lemma Ok_inj {A} (a b : A) : Ok a = Ok b -> a = b.
Proof. intros H. injection H as H. exact H. Qed.

Lemma demo_batch_ok : ok_batch demo_batch.
Proof.
  unfold ok_batch, room, demo_batch. cbn [b_buf b_size b_com b_div].
  split; [unfold bytes, demo_buf; repeat (apply Forall_cons; split; [cbv beta; lia|]); apply Forall_nil; exact I|].
  vm_compute. repeat split; congruence.
Qed.

Lemma demo_test_ok : ok_batch demo_test.
Proof.
  unfold ok_batch, room, demo_test. cbn [b_buf b_size b_com b_div].
  split; [unfold bytes; repeat (apply Forall_cons; split; [cbv beta; lia|]); apply Forall_nil; exact I|].
  vm_compute. repeat split; congruence.
Qed.

(** C1: Filter soundness (the claim fails on the code, in the first
    container of gather). Start from the all-ones map and let scatter hash
    and consume any sequence of reference batches (its first batch from
    [first_batch_j0 = j0] on, the others entirely). In a container that is
    not the first of the run, worker3 of gather calls
    [check_batch(batch_size, com_ctr, div_ctr)], and for every test shingle
    whose [L] shuffled bytes equal those of a consumed reference shingle the
    aggregation and [check_hash] succeed and [check_hash] returns 0. In its
    first container worker3 calls
    [check_batch(batch_size - LC, com_ctr + LC, div_ctr + LC)], and there
    the claim fails: after scatter has consumed the shingles [LC .. 9] of
    the ten-shingle batch [demo_batch], gather on the same batch finds every
    one of these six shingles marked in all eight co-filters and yet returns
    the verdicts 255, 255, 127, 255, 255, 255, so none of them survives;
    with the pointer [div_ctr + LC * DV] all six would. *)
Theorem filter_soundness_but_first_container
        (j0 : Z) (refs : list batch) (t : batch) (pos : Z) :
  0 <= j0 -> Forall ok_batch refs -> ok_batch t -> 0 <= pos < b_size t ->
  (exists (k : nat) b r,
     refs !! k = Some b /\
     (if Nat.eqb k 0 then j0 else 0) <= r < b_size b /\
     shingle (b_buf b) r = shingle (b_buf t) pos) ->
  (exists m com div hash,
     scatter_run j0 refs map_init = Ok m /\
     Gather.hash_batch (b_buf t) (b_size t) (b_com t) (b_div t) = Ok (com, div) /\
     (forall st,
        Gather.worker3_consume m false (b_size t) com div st
        = Gather.check_batch m (b_size t) (Ptr com 0) (Ptr div 0) st) /\
     Gather.aggregate (Ptr com 0) (Ptr div 0) pos = Ok hash /\
     Gather.check_hash m hash = Ok 0) /\
  (exists m com div,
     scatter_run LC [demo_batch] map_init = Ok m /\
     Gather.hash_batch (b_buf demo_batch) (b_size demo_batch)
                       (b_com demo_batch) (b_div demo_batch) = Ok (com, div) /\
     (forall j id, LC <= j < 10 -> 0 <= id < DV ->
        marked m (addr (b_buf demo_batch) j id) id) /\
     Gather.worker3_consume m true 10 com div Gather.run_init
     = Gather.check_batch m (10 - LC) (ptr_add (Ptr com 0) LC)
                          (ptr_add (Ptr div 0) LC) Gather.run_init /\
     verdict m (ptr_add (Ptr com 0) LC) (ptr_add (Ptr div 0) LC) <$> [0; 1; 2; 3; 4; 5]
     = Ok <$> [255; 255; 127; 255; 255; 255] /\
     Gather.worker3_consume m true 10 com div Gather.run_init
     = Ok (Gather.RunState 0 0 0) /\
     Gather.check_batch m (10 - LC) (ptr_add (Ptr com 0) LC)
                        (ptr_add (Ptr div 0) (LC * DV)) Gather.run_init
     = Ok (Gather.RunState 6 1 6)).
Proof.
  intros Hj0 Hrefs (Hs & Hhc & H32 & Hroom) Hpos (k & b & r & Hk & Hr & Hsame).
  split.
  - destruct (scatter_run_spec refs j0 map_init Hrefs Hj0) as (m & Hrun & _ & Hmarked).
    destruct (hash_batch_spec _ _ _ _ Hs Hhc H32 Hroom) as (com & div & Hhb & _ & _ & Hh).
    destruct (aggregate_spec _ _ _ _ pos Hh Hpos H32) as (hash & Hagg & Hv).
    exists m, com, div, hash.
    split; [exact Hrun|]. split; [rewrite gather_hash_batch; exact Hhb|].
    split; [reflexivity|]. split; [exact Hagg|].
    apply (check_hash_zero m hash (addr (b_buf t) pos)).
    intros id Hid. split; [apply Hv, Hid|]. split; [apply addr_in_map|].
    rewrite <- (shingle_addr _ _ _ _ id Hsame).
    apply (Hmarked k b r id Hk Hr Hid).
  - assert (Hdemo : Forall ok_batch [demo_batch])
      by (apply Forall_cons; split; [exact demo_batch_ok|apply Forall_nil; exact I]).
    destruct (scatter_run_spec [demo_batch] LC map_init Hdemo ltac:(unfold LC, L; lia))
      as (m & Hrun & _ & Hmarked).
    assert (Hm : m = demo_map_from LC).
    { apply Ok_inj. rewrite <- Hrun. vm_compute. reflexivity. }
    exists m, (fst demo_hashes), (snd demo_hashes).
    split; [exact Hrun|]. split; [vm_compute; reflexivity|]. split.
    { intros j id Hj Hid. apply (Hmarked 0%nat demo_batch j id eq_refl); [|exact Hid].
      cbn [Nat.eqb b_size demo_batch]. lia. }
    subst m. split; [reflexivity|]. split; [vm_compute; reflexivity|].
    split; vm_compute; reflexivity.
Qed.

Lemma filter_soundness_but_first_container_witness :
  (exists m com div hash,
     scatter_run LC [demo_batch] map_init = Ok m /\
     Gather.hash_batch (b_buf demo_test) (b_size demo_test)
                       (b_com demo_test) (b_div demo_test) = Ok (com, div) /\
     (forall st,
        Gather.worker3_consume m false (b_size demo_test) com div st
        = Gather.check_batch m (b_size demo_test) (Ptr com 0) (Ptr div 0) st) /\
     Gather.aggregate (Ptr com 0) (Ptr div 0) 2 = Ok hash /\
     Gather.check_hash m hash = Ok 0) /\
  (exists m com div,
     scatter_run LC [demo_batch] map_init = Ok m /\
     Gather.hash_batch (b_buf demo_batch) (b_size demo_batch)
                       (b_com demo_batch) (b_div demo_batch) = Ok (com, div) /\
     (forall j id, LC <= j < 10 -> 0 <= id < DV ->
        marked m (addr (b_buf demo_batch) j id) id) /\
     Gather.worker3_consume m true 10 com div Gather.run_init
     = Gather.check_batch m (10 - LC) (ptr_add (Ptr com 0) LC)
                          (ptr_add (Ptr div 0) LC) Gather.run_init /\
     verdict m (ptr_add (Ptr com 0) LC) (ptr_add (Ptr div 0) LC) <$> [0; 1; 2; 3; 4; 5]
     = Ok <$> [255; 255; 127; 255; 255; 255] /\
     Gather.worker3_consume m true 10 com div Gather.run_init
     = Ok (Gather.RunState 0 0 0) /\
     Gather.check_batch m (10 - LC) (ptr_add (Ptr com 0) LC)
                        (ptr_add (Ptr div 0) (LC * DV)) Gather.run_init
     = Ok (Gather.RunState 6 1 6)).
Proof.
  apply (filter_soundness_but_first_container LC [demo_batch] demo_test 2).
  - unfold LC, L. lia.
  - apply Forall_cons. split; [exact demo_batch_ok|apply Forall_nil; exact I].
  - exact demo_test_ok.
  - vm_compute. split; congruence.
  - exists 0%nat, demo_batch, 4. split; [reflexivity|].
    split; [vm_compute; split; congruence|reflexivity].
Defined.

(** C2: Rolling-hash consistency. For every byte string [s] of length at
    least [L+1] and every valid offset [i], the update of [hash_batch] applied
    to the from-scratch common hash of shingle [i] is the from-scratch common
    hash of shingle [i+1], and the update of [update_div_hashes] does the same
    for every diversified hash; and [hash_batch], in scatter and in gather,
    stores exactly these from-scratch values. *)
Theorem rolling_hash_consistency (s : list Z) (i : Z) :
  bytes s -> L + 1 <= len s -> 0 <= i < len s - L ->
  com_roll (com_scratch s i) (byte_at s i) (byte_at s (i + L)) = com_scratch s (i + 1) /\
  (forall id, 0 <= id < DV ->
     div_roll id (div_scratch id s i) (byte_at s i) (byte_at s (i + L))
     = div_scratch id s (i + 1)) /\
  (forall com div,
     room s (len s - L) com div -> (len s - L + 1) * DV < 2 ^ 32 ->
     exists com' div',
       Scatter.hash_batch s (len s - L) com div = Ok (com', div') /\
       Gather.hash_batch s (len s - L) com div = Ok (com', div') /\
       rd com' (i + 1) = Ok (com_scratch s (i + 1)) /\
       (i + 1 < len s - L -> forall id, 0 <= id < DV ->
          rd div' ((i + 1) * DV + id) = Ok (div_scratch id s (i + 1)))).
Proof.
  intros Hs Hlen Hi. split; [apply com_roll_scratch; [exact Hs|lia]|].
  split; [intros id Hid; apply div_roll_scratch; [exact Hid|exact Hs|lia]|].
  intros com div Hroom H32.
  destruct (hash_batch_spec s (len s - L) com div Hs ltac:(lia) H32 Hroom)
    as (com' & div' & Hhb & _ & _ & Hc & Hd & _).
  exists com', div'. split; [exact Hhb|]. split; [rewrite gather_hash_batch; exact Hhb|].
  split; [apply Hc; lia|]. intros Hi' id Hid. apply Hd; [lia|exact Hid].
Qed.

Lemma demo_buf_bytes : bytes demo_buf.
Proof.
  unfold bytes, demo_buf. repeat (apply Forall_cons; split; [cbv beta; lia|]). apply Forall_nil. exact I.
Qed.

Lemma rolling_hash_consistency_witness :
  com_roll (com_scratch demo_buf 3) (byte_at demo_buf 3) (byte_at demo_buf (3 + L))
  = com_scratch demo_buf (3 + 1) /\
  (forall id, 0 <= id < DV ->
     div_roll id (div_scratch id demo_buf 3) (byte_at demo_buf 3) (byte_at demo_buf (3 + L))
     = div_scratch id demo_buf (3 + 1)) /\
  (forall com div,
     room demo_buf (len demo_buf - L) com div -> (len demo_buf - L + 1) * DV < 2 ^ 32 ->
     exists com' div',
       Scatter.hash_batch demo_buf (len demo_buf - L) com div = Ok (com', div') /\
       Gather.hash_batch demo_buf (len demo_buf - L) com div = Ok (com', div') /\
       rd com' (3 + 1) = Ok (com_scratch demo_buf (3 + 1)) /\
       (3 + 1 < len demo_buf - L -> forall id, 0 <= id < DV ->
          rd div' ((3 + 1) * DV + id) = Ok (div_scratch id demo_buf (3 + 1)))).
Proof.
  apply (rolling_hash_consistency demo_buf 3).
  - exact demo_buf_bytes.
  - vm_compute. congruence.
  - vm_compute. split; congruence.
Defined.

(** C3: Address range. Every common hash that [hash_batch] produces lies in
    [[0, M_COM)] and every diversified hash in [[0, M_DIV)]; hence the sum of
    any such pair does not wrap and lies in [[0, M_COM + M_DIV)], the size of
    the map, so that neither scatter's bit-clear nor gather's aggregation and
    [check_hash] leave the map, whatever the map holds. *)
Theorem address_range (s : list Z) (hc : Z) (com div : list Z) :
  bytes s -> 1 <= hc -> (hc + 1) * DV < 2 ^ 32 -> room s hc com div ->
  exists com' div',
    Scatter.hash_batch s hc com div = Ok (com', div') /\
    Gather.hash_batch s hc com div = Ok (com', div') /\
    (forall j, 0 <= j <= hc -> exists c, rd com' j = Ok c /\ 0 <= c < M_COM) /\
    (forall k, 0 <= k < (hc + 1) * DV -> exists d, rd div' k = Ok d /\ 0 <= d < M_DIV) /\
    (forall j k c d,
       0 <= j <= hc -> 0 <= k < (hc + 1) * DV -> rd com' j = Ok c -> rd div' k = Ok d ->
       wrap64 (c + d) = c + d /\ 0 <= c + d < M_COM + M_DIV) /\
    (forall j m, 0 <= j < hc -> exists m', Scatter.clear_bits com' div' j m = Ok m') /\
    (forall j m, 0 <= j < hc -> exists w, verdict m (Ptr com' 0) (Ptr div' 0) j = Ok w).
Proof.
  intros Hs Hhc H32 Hroom.
  destruct (hash_batch_spec s hc com div Hs Hhc H32 Hroom)
    as (com' & div' & Hhb & _ & _ & Hh).
  exists com', div'. split; [exact Hhb|]. split; [rewrite gather_hash_batch; exact Hhb|].
  split; [intros j Hj; exact (hashed_com_range _ _ _ _ j Hh Hj)|].
  split; [intros k Hk; exact (hashed_div_range _ _ _ _ k Hh Hk)|].
  split.
  { intros j k c d Hj Hk Hc Hd.
    destruct (hashed_com_range _ _ _ _ j Hh Hj) as (c' & Hc' & Hcr).
    destruct (hashed_div_range _ _ _ _ k Hh Hk) as (d' & Hd' & Hdr).
    assert (c' = c) as -> by congruence. assert (d' = d) as -> by congruence.
    exact (address_in_map c d Hcr Hdr). }
  split.
  { intros j m Hj. destruct (clear_bits_spec s hc com' div' j m Hh Hj H32) as (m' & Hm' & _).
    exists m'. exact Hm'. }
  intros j m Hj. unfold verdict.
  destruct (aggregate_spec s hc com' div' j Hh Hj H32) as (hash & Hagg & Hv).
  rewrite Hagg. cbn [bind].
  destruct (check_hash_total m hash (addr s j)) as (w & Hw & _).
  { intros id Hid. split; [apply Hv, Hid|apply addr_in_map]. }
  exists w. exact Hw.
Qed.

Lemma address_range_witness :
  exists com' div',
    Scatter.hash_batch demo_buf 10 (replicate 11 0) (replicate 88 0) = Ok (com', div') /\
    Gather.hash_batch demo_buf 10 (replicate 11 0) (replicate 88 0) = Ok (com', div') /\
    (forall j, 0 <= j <= 10 -> exists c, rd com' j = Ok c /\ 0 <= c < M_COM) /\
    (forall k, 0 <= k < (10 + 1) * DV -> exists d, rd div' k = Ok d /\ 0 <= d < M_DIV) /\
    (forall j k c d,
       0 <= j <= 10 -> 0 <= k < (10 + 1) * DV -> rd com' j = Ok c -> rd div' k = Ok d ->
       wrap64 (c + d) = c + d /\ 0 <= c + d < M_COM + M_DIV) /\
    (forall j m, 0 <= j < 10 -> exists m', Scatter.clear_bits com' div' j m = Ok m') /\
    (forall j m, 0 <= j < 10 -> exists w, verdict m (Ptr com' 0) (Ptr div' 0) j = Ok w).
Proof.
  apply (address_range demo_buf 10 (replicate 11 0) (replicate 88 0)).
  - exact demo_buf_bytes.
  - lia.
  - vm_compute. reflexivity.
  - vm_compute. repeat split; congruence.
Defined.

(** C4: Run detector. Over the shingles of two consecutive [check_batch]
    calls, taken in order, [count] goes up by one when [check_hash] returns 0
    and back to 0 otherwise ([counts] lists its values); [residue] grows by
    the number of shingles after which [count > LP - L]; [max_count] ends as
    the maximum of its old value and every value [count] took; and the second
    call continues from the [count] the first one left, so a run may span the
    batch boundary. *)
Theorem run_detector (m : bytemap) (cp1 dp1 cp2 dp2 : ptr) (hc1 hc2 : Z)
        (ws1 ws2 : list Z) (st : Gather.run_state) :
  len ws1 = hc1 -> len ws2 = hc2 ->
  (forall (j : nat) w, ws1 !! j = Some w -> verdict m cp1 dp1 (Z.of_nat j) = Ok w) ->
  (forall (j : nat) w, ws2 !! j = Some w -> verdict m cp2 dp2 (Z.of_nat j) = Ok w) ->
  0 <= Gather.count st -> 0 <= Gather.residue st ->
  Gather.count st + hc1 + hc2 < 2 ^ 64 -> Gather.residue st + hc1 + hc2 < 2 ^ 64 ->
  exists st1 st2,
    Gather.check_batch m hc1 cp1 dp1 st = Ok st1 /\
    Gather.check_batch m hc2 cp2 dp2 st1 = Ok st2 /\
    let cs := counts (Gather.count st) (ws1 ++ ws2) in
    Gather.count st2 = List.last cs (Gather.count st) /\
    Gather.residue st2
      = Gather.residue st + len (List.filter (fun c => LP - L <? c) cs) /\
    Gather.max_count st <= Gather.max_count st2 /\
    (forall c, In c cs -> c <= Gather.max_count st2) /\
    (Gather.max_count st2 = Gather.max_count st \/ In (Gather.max_count st2) cs).
Proof.
  intros Hl1 Hl2 Hv1 Hv2 Hc Hr Hcn Hrn.
  assert (Hat : forall (ws : list Z) hc cp dp,
            len ws = hc ->
            (forall (j : nat) w, ws !! j = Some w -> verdict m cp dp (Z.of_nat j) = Ok w) ->
            forall j, 0 <= j < hc -> verdict m cp dp j = Ok (byte_at ws j)).
  { intros ws hc cp dp Hl Hv j Hj. rewrite <- (Z2Nat.id j) at 1 by lia.
    apply Hv. unfold byte_at. destruct (ws !! Z.to_nat j) eqn:E; [reflexivity|].
    apply lookup_ge_None in E. unfold len in Hl. lia. }
  exists (fold_left Gather.run_update ws1 st),
         (fold_left Gather.run_update (ws1 ++ ws2) st).
  split; [apply check_batch_fold; [exact Hl1|exact (Hat ws1 hc1 cp1 dp1 Hl1 Hv1)]|].
  split.
  { rewrite fold_left_app.
    apply check_batch_fold; [exact Hl2|exact (Hat ws2 hc2 cp2 dp2 Hl2 Hv2)]. }
  assert (Hlen : len (ws1 ++ ws2) = hc1 + hc2).
  { unfold len in *. rewrite length_app. lia. }
  apply detector_counts; rewrite ?Hlen; lia.
Qed.

Lemma run_detector_witness :
  exists st1 st2,
    Gather.check_batch demo_map 6 (Ptr (fst demo_hashes) 0) (Ptr (snd demo_hashes) 0)
                       Gather.run_init = Ok st1 /\
    Gather.check_batch demo_map 4 (ptr_add (Ptr (fst demo_hashes) 0) 6)
                       (ptr_add (Ptr (snd demo_hashes) 0) (6 * DV)) st1 = Ok st2 /\
    let cs := counts (Gather.count Gather.run_init)
                     ([255; 255; 0; 0; 0; 0] ++ [0; 0; 0; 0]) in
    Gather.count st2 = List.last cs (Gather.count Gather.run_init) /\
    Gather.residue st2
      = Gather.residue Gather.run_init + len (List.filter (fun c => LP - L <? c) cs) /\
    Gather.max_count Gather.run_init <= Gather.max_count st2 /\
    (forall c, In c cs -> c <= Gather.max_count st2) /\
    (Gather.max_count st2 = Gather.max_count Gather.run_init \/ In (Gather.max_count st2) cs).
Proof.
  apply (run_detector demo_map).
  - reflexivity.
  - reflexivity.
  - intros j w H. do 6 (destruct j as [|j]; [injection H as <-; vm_compute; reflexivity|]).
    discriminate H.
  - intros j w H. do 4 (destruct j as [|j]; [injection H as <-; vm_compute; reflexivity|]).
    discriminate H.
  - vm_compute. congruence.
  - vm_compute. congruence.
  - vm_compute. reflexivity.
  - vm_compute. reflexivity.
Defined.

(** C5: What gather reads and checks (the claim fails on the code). With a
    master file of at least [ns + NS] bytes, worker1 starts at byte [ns] and
    stops at byte [ns + NS - (L - 1)]: it reads [N = NS - L + 1] bytes, not
    [NS], and never the last [L - 1] bytes of the test stream; and worker3
    passes [N - LC] shingles to [check_batch], not [N]. *)
Theorem gather_reads_short (file_length : Z) :
  ns + NS <= file_length ->
  Gather.worker1_reads NS file_length = Ok (ns + NS - (L - 1)) /\
  ns + NS - (L - 1) < ns + NS /\
  exists counts,
    Gather.worker3_hash_counts NS = Ok (false, counts) /\
    foldr Z.add 0 counts = Gather.N - LC /\
    Gather.N - LC < Gather.N.
Proof.
  intros Hfile. split.
  { rewrite worker1_reads_spec; [f_equal; lia|vm_compute; split; congruence|exact Hfile]. }
  split; [unfold L; lia|].
  destruct (worker3_hash_counts_spec NS) as (counts & Hrun & Hsum).
  { vm_compute. split; congruence. }
  { vm_compute. congruence. }
  exists counts. split; [exact Hrun|]. split; [exact Hsum|]. unfold LC, L. lia.
Qed.

Lemma gather_reads_short_witness :
  Gather.worker1_reads NS master_file_length = Ok (ns + NS - (L - 1)) /\
  ns + NS - (L - 1) < ns + NS /\
  exists counts,
    Gather.worker3_hash_counts NS = Ok (false, counts) /\
    foldr Z.add 0 counts = Gather.N - LC /\
    Gather.N - LC < Gather.N.
Proof.
  apply (gather_reads_short master_file_length).
  vm_compute. congruence.
Defined.

(** C6 (as the code has it): Round trip. Let scatter hash and consume a
    sequence of batches from the all-ones map, every shingle of every batch,
    and let gather then hash the same batches and run [check_batch] over them
    from [count = residue = max_count = 0]. Every shingle survives: [count] and
    [max_count] end at [n], the number of shingles, and
    [residue = max 0 (n - (LP - L))], since a shingle is counted only once the
    run is longer than [LP - L]; so [residue >= n - (LP - L)]. *)
Theorem roundtrip_residue (bs : list batch) :
  Forall ok_batch bs -> shingle_count bs < 2 ^ 64 ->
  exists st,
    roundtrip bs = Ok st /\
    Gather.count st = shingle_count bs /\
    Gather.max_count st = shingle_count bs /\
    Gather.residue st = Z.max 0 (shingle_count bs - (LP - L)) /\
    Gather.residue st >= shingle_count bs - (LP - L).
Proof.
  intros Hok Hn. pose proof (shingle_count_nonneg bs Hok) as Hn0.
  unfold roundtrip.
  destruct (scatter_run_spec bs 0 map_init Hok ltac:(lia)) as (m & Hrun & _ & Hmarked).
  rewrite Hrun. cbn [bind].
  rewrite (gather_run_all_pass m bs Gather.run_init Hok).
  - eexists. split; [reflexivity|]. unfold pass_n, Gather.run_init. cbn. zc.
  - intros b j id Hin Hj Hid. apply list_elem_of_In in Hin.
    apply list_elem_of_lookup in Hin as [k Hk].
    apply (Hmarked k b j id Hk); [destruct (Nat.eqb k 0); lia|exact Hid].
  - unfold wf_state, Gather.run_init. cbn. lia.
  - cbn. lia.
  - cbn. lia.
Qed.

Lemma roundtrip_residue_witness :
  exists st,
    roundtrip [demo_batch; demo_batch] = Ok st /\
    Gather.count st = shingle_count [demo_batch; demo_batch] /\
    Gather.max_count st = shingle_count [demo_batch; demo_batch] /\
    Gather.residue st = Z.max 0 (shingle_count [demo_batch; demo_batch] - (LP - L)) /\
    Gather.residue st >= shingle_count [demo_batch; demo_batch] - (LP - L).
Proof.
  apply (roundtrip_residue [demo_batch; demo_batch]).
  - repeat (apply Forall_cons; split; [exact demo_batch_ok|]). apply Forall_nil. exact I.
  - vm_compute. reflexivity.
Defined.

(** C6 as stated fails: ten shingles scattered and then gathered again give
    [residue = 5], which is less than [10 - LC = 6]. *)
Lemma roundtrip_residue_counterexample :
  exists st,
    roundtrip [demo_batch] = Ok st /\
    ~ (Gather.residue st >= shingle_count [demo_batch] - LC).
Proof.
  exists (Gather.RunState 10 5 10). split; [vm_compute; reflexivity|].
  vm_compute. intros H. apply H. reflexivity.
Qed.

(** With the first-batch handling of the two programs the same ten shingles
    leave no surviving shingle at all: gather advances the diversified-hash
    pointer by [LC] entries where the hashes of shingle [LC] start [LC * DV]
    entries in. With the pointer at [LC * DV] the six shingles that scatter
    marked all survive. *)
Remark roundtrip_first_batch :
  roundtrip_first [demo_batch] = Ok (Gather.RunState 0 0 0) /\
  Gather.worker3_consume (demo_map_from LC) true 10 (fst demo_hashes) (snd demo_hashes)
                 Gather.run_init = Ok (Gather.RunState 0 0 0) /\
  Gather.check_batch (demo_map_from LC) (wrap32 (10 - LC))
                     (ptr_add (Ptr (fst demo_hashes) 0) LC)
                     (ptr_add (Ptr (snd demo_hashes) 0) (LC * DV))
                     Gather.run_init = Ok (Gather.RunState 6 1 6).
Proof. vm_compute. repeat split; reflexivity. Qed.

(** C7: Bounds of [hash_batch] on a full batch (the claim fails on the
    code). With the containers as declared, [BATCH_SIZE + LC] bytes,
    [BATCH_SIZE] common and [BATCH_SIZE * DV] diversified hashes, the call
    with [hash_count = BATCH_SIZE] leaves its arrays whatever they hold, in
    scatter and in gather: it returns only when there is room for
    [s[hash_count - 1 + L]], [com_hash[hash_count]] and
    [div_hash[hash_count * DV + DV - 1]], and each of the three is one
    element, or [DV] elements, past the end. *)
Theorem hash_batch_full_batch_overflow (s com div : list Z) :
  len s = BUF_CTR_LEN -> len com = COM_CTR_LEN -> len div = DIV_CTR_LEN ->
  Scatter.hash_batch s BATCH_SIZE com div = Err OutOfBounds /\
  Gather.hash_batch s BATCH_SIZE com div = Err OutOfBounds /\
  len s <= BATCH_SIZE - 1 + L /\
  len com <= BATCH_SIZE /\
  len div <= BATCH_SIZE * DV /\
  (forall s' com' div' r,
     Scatter.hash_batch s' BATCH_SIZE com' div' = Ok r ->
     BATCH_SIZE - 1 + L < len s' /\ BATCH_SIZE < len com' /\
     BATCH_SIZE * DV + DV - 1 < len div').
Proof.
  intros Hs Hc Hd.
  pose proof (hash_batch_full_container s com div Hs Hc Hd) as Hov.
  split; [exact Hov|]. split; [rewrite gather_hash_batch; exact Hov|].
  split; [zc|]. split; [zc|]. split; [zc|].
  intros s' com' div' r Hr.
  apply hash_batch_needs_room in Hr; [|zc|zc].
  destruct Hr as (H1 & H2 & H3). zc.
Qed.

Lemma hash_batch_full_batch_overflow_witness :
  Scatter.hash_batch (replicate (Z.to_nat BUF_CTR_LEN) 0) BATCH_SIZE
                     (replicate (Z.to_nat COM_CTR_LEN) 0)
                     (replicate (Z.to_nat DIV_CTR_LEN) 0) = Err OutOfBounds.
Proof.
  refine (proj1 (hash_batch_full_batch_overflow
                   (replicate (Z.to_nat BUF_CTR_LEN) 0)
                   (replicate (Z.to_nat COM_CTR_LEN) 0)
                   (replicate (Z.to_nat DIV_CTR_LEN) 0) _ _ _)).
  - unfold len. rewrite length_replicate. apply Z2Nat.id. vm_compute. congruence.
  - unfold len. rewrite length_replicate. apply Z2Nat.id. vm_compute. congruence.
  - unfold len. rewrite length_replicate. apply Z2Nat.id. vm_compute. congruence.
Defined.

(** C8: Permutation. For every sequence of draws and every array [p] of 256
    entries, [rcp_generator] ends (each probing loop finds a free slot within
    256 steps) and returns [p] as a bijection on [[0,256)]: every entry is in
    range, no two entries are equal and every value occurs. The test loop
    passes, so the run neither exits with code 25 nor runs out of steps. *)
Theorem rcp_generator_bijection (draw : Z -> Z) (p : list Z) :
  len p = 256 ->
  exists p',
    rcp_generator draw p = Ok p' /\
    bijection256 p' /\
    rcp_test p' = Ok tt /\
    rcp_generator draw p <> Err (ExitCode 25) /\
    rcp_generator draw p <> Err OutOfFuel.
Proof.
  intros Hp. destruct (rcp_generator_spec draw p Hp) as (p' & Hgen & Hbij).
  exists p'. split; [exact Hgen|]. split; [exact Hbij|].
  split; [exact (rcp_test_ok p' Hbij)|]. rewrite Hgen. split; discriminate.
Qed.

Lemma rcp_generator_bijection_witness :
  exists p',
    rcp_generator demo_draw (replicate 256 0) = Ok p' /\
    bijection256 p' /\
    rcp_test p' = Ok tt /\
    rcp_generator demo_draw (replicate 256 0) <> Err (ExitCode 25) /\
    rcp_generator demo_draw (replicate 256 0) <> Err OutOfFuel.
Proof.
  apply (rcp_generator_bijection demo_draw (replicate 256 0)).
  reflexivity.
Defined.

(** C9: Bias of the diversified roll. For every co-filter [id], every byte
    [b <= 255] and every hash [h] in [[0, M_DIV)], with
    [C_DIV[id] = B_DIV[id]^L mod M_DIV]: [256 * M_DIV > C_DIV[id] * b], the
    expression [256*M_DIV + s[L] + h * B_DIV[id] - C_DIV[id] * b] is
    nonnegative, and the 64-bit computation of [update_div_hashes] is that
    expression modulo [M_DIV]: nothing wraps. *)
Theorem div_bias_bound (id b h sL : Z) :
  0 <= id < DV -> 0 <= b <= 255 -> 0 <= h < M_DIV -> 0 <= sL <= 255 ->
  C_DIV id = B_DIV id ^ L mod M_DIV /\
  256 * M_DIV > C_DIV id * b /\
  0 <= 256 * M_DIV + sL + h * B_DIV id - C_DIV id * b /\
  div_roll id h b sL = (256 * M_DIV + sL + h * B_DIV id - C_DIV id * b) mod M_DIV.
Proof.
  intros Hid Hb Hh HsL.
  pose proof (C_DIV_range id Hid) as HC. pose proof (B_DIV_range id Hid) as HB.
  split; [exact (C_DIV_pow id Hid)|].
  split; [unfold M_DIV in *; nia|].
  split; [unfold M_DIV in *; nia|].
  apply div_roll_nowrap; [exact Hid|unfold M_DIV in *; lia|lia|lia].
Qed.

Lemma div_bias_bound_witness :
  C_DIV 6 = B_DIV 6 ^ L mod M_DIV /\
  256 * M_DIV > C_DIV 6 * 255 /\
  0 <= 256 * M_DIV + 0 + 0 * B_DIV 6 - C_DIV 6 * 255 /\
  div_roll 6 0 255 0 = (256 * M_DIV + 0 + 0 * B_DIV 6 - C_DIV 6 * 255) mod M_DIV.
Proof.
  apply (div_bias_bound 6 255 0 0); vm_compute; split; congruence.
Defined.

(** C10: Batch count and its configuration error. For a total shingle count
    [n] that fits 32 bits, as [ns] and [N = NS - L + 1] do, [main] computes
    [batch_count = ceil(n / BATCH_SIZE)], the quotient plus one exactly when
    the remainder is not zero; and both programs exit with code 10 if and only
    if [batch_count < 3], and then before the map is allocated or anything
    else is done. *)
Theorem batch_count_config_error (n : Z) (malloc_ok : bool) :
  0 <= n < 2 ^ 32 ->
  main_batch_count n = ceil_div n BATCH_SIZE /\
  main_batch_count n = n / BATCH_SIZE + (if n mod BATCH_SIZE =? 0 then 0 else 1) /\
  (snd (Scatter.main_start n malloc_ok) = Err (ExitCode 10) <-> main_batch_count n < 3) /\
  (snd (Gather.main_start n malloc_ok) = Err (ExitCode 10) <-> main_batch_count n < 3) /\
  (snd (Scatter.main_start n malloc_ok) = Err (ExitCode 10) ->
   fst (Scatter.main_start n malloc_ok) = []) /\
  (snd (Gather.main_start n malloc_ok) = Err (ExitCode 10) ->
   fst (Gather.main_start n malloc_ok) = []) /\
  0 <= Scatter.n < 2 ^ 32 /\ 0 <= Gather.N < 2 ^ 32.
Proof.
  intros Hn.
  split; [rewrite ceil_div_batch by lia; apply main_batch_count_spec, Hn|].
  split; [apply main_batch_count_spec, Hn|].
  split; [apply scatter_main_exit|]. split; [apply gather_main_exit|].
  split; [apply scatter_main_exit_first|]. split; [apply gather_main_exit_first|].
  vm_compute. repeat split; congruence.
Qed.

Lemma batch_count_config_error_witness :
  main_batch_count (2 * BATCH_SIZE) = ceil_div (2 * BATCH_SIZE) BATCH_SIZE /\
  main_batch_count (2 * BATCH_SIZE)
  = 2 * BATCH_SIZE / BATCH_SIZE + (if (2 * BATCH_SIZE) mod BATCH_SIZE =? 0 then 0 else 1) /\
  (snd (Scatter.main_start (2 * BATCH_SIZE) true) = Err (ExitCode 10)
   <-> main_batch_count (2 * BATCH_SIZE) < 3) /\
  (snd (Gather.main_start (2 * BATCH_SIZE) true) = Err (ExitCode 10)
   <-> main_batch_count (2 * BATCH_SIZE) < 3) /\
  (snd (Scatter.main_start (2 * BATCH_SIZE) true) = Err (ExitCode 10) ->
   fst (Scatter.main_start (2 * BATCH_SIZE) true) = []) /\
  (snd (Gather.main_start (2 * BATCH_SIZE) true) = Err (ExitCode 10) ->
   fst (Gather.main_start (2 * BATCH_SIZE) true) = []) /\
  0 <= Scatter.n < 2 ^ 32 /\ 0 <= Gather.N < 2 ^ 32.
Proof.
  apply (batch_count_config_error (2 * BATCH_SIZE) true).
  vm_compute. split; congruence.
Defined.

(** * Further properties of the code *)

(** ** [hash_batch] *)

(** X1: gather's [update_div_hashes], which reads [s[L]] once before its
    loop, and scatter's, which reads it in every round, return the same on
    every input, failures included; so do the two [hash_batch]. *)
Theorem hash_batch_same_in_both (s : list Z) (hc : Z) (com div : list Z) :
  Gather.hash_batch s hc com div = Scatter.hash_batch s hc com div /\
  (forall d hash hash1 sp,
     Gather.update_div_hashes d hash hash1 s sp
     = Scatter.update_div_hashes d hash hash1 s sp).
Proof.
  split; [apply gather_hash_batch|]. intros. apply gather_update_div_hashes.
Qed.

(** X2: for a byte buffer, [hash_batch] returns if and only if the arrays
    hold [hash_count + L] bytes, [hash_count + 1] common hashes and
    [(hash_count + 1) * DV] diversified hashes; otherwise it leaves an array.
    When it returns, the arrays keep their lengths. With the containers as
    declared, every batch shorter than [BATCH_SIZE] has that room. *)
Theorem hash_batch_returns_iff_room (s : list Z) (hc : Z) (com div : list Z) :
  bytes s -> 1 <= hc -> (hc + 1) * DV < 2 ^ 32 ->
  ((exists r, Scatter.hash_batch s hc com div = Ok r) <-> room s hc com div) /\
  (~ room s hc com div -> Scatter.hash_batch s hc com div = Err OutOfBounds) /\
  (forall com' div', Scatter.hash_batch s hc com div = Ok (com', div') ->
     len com' = len com /\ len div' = len div) /\
  (len s = BUF_CTR_LEN -> len com = COM_CTR_LEN -> len div = DIV_CTR_LEN ->
   hc < BATCH_SIZE -> room s hc com div).
Proof.
  intros Hs Hhc H32. split; [split|].
  - intros [r Hr]. exact (hash_batch_needs_room _ _ _ _ _ Hhc H32 Hr).
  - intros Hroom.
    destruct (hash_batch_spec s hc com div Hs Hhc H32 Hroom) as (c & d & H & _).
    exists (c, d). exact H.
  - split.
    { intros Hno. destruct (Scatter.hash_batch s hc com div) as [r|e] eqn:E.
      - exfalso. apply Hno. exact (hash_batch_needs_room _ _ _ _ _ Hhc H32 E).
      - rewrite (oob_hash_batch _ _ _ _ _ E). reflexivity. }
    split.
    { intros com' div' H.
      pose proof (hash_batch_needs_room _ _ _ _ _ Hhc H32 H) as Hroom.
      destruct (hash_batch_spec s hc com div Hs Hhc H32 Hroom)
        as (c & d & H' & Hlc & Hld & _).
      rewrite H in H'. injection H' as -> ->. split; assumption. }
    intros Hls Hlc Hld Hlt. unfold room. zc.
Qed.

Lemma hash_batch_returns_iff_room_witness :
  ((exists r, Scatter.hash_batch demo_buf 10 (replicate 11 0) (replicate 88 0) = Ok r)
   <-> room demo_buf 10 (replicate 11 0) (replicate 88 0)) /\
  (~ room demo_buf 10 (replicate 11 0) (replicate 88 0) ->
   Scatter.hash_batch demo_buf 10 (replicate 11 0) (replicate 88 0) = Err OutOfBounds) /\
  (forall com' div',
     Scatter.hash_batch demo_buf 10 (replicate 11 0) (replicate 88 0) = Ok (com', div') ->
     len com' = len (replicate 11 0) /\ len div' = len (replicate 88 0)) /\
  (len demo_buf = BUF_CTR_LEN -> len (replicate 11 0) = COM_CTR_LEN ->
   len (replicate 88 0) = DIV_CTR_LEN ->
   10 < BATCH_SIZE -> room demo_buf 10 (replicate 11 0) (replicate 88 0)).
Proof.
  apply (hash_batch_returns_iff_room demo_buf 10 (replicate 11 0) (replicate 88 0)).
  - exact demo_buf_bytes.
  - lia.
  - vm_compute. reflexivity.
Defined.

(** ** Batch bookkeeping of the workers *)

Lemma fold_batches_total {St} (process : Z -> Z -> St -> res St) sizes :
  (forall batch_id size st, exists st', process batch_id size st = Ok st') ->
  forall batch_id st, exists st', fold_batches process batch_id sizes st = Ok st'.
Proof.
  intros Hp. induction sizes as [|size sizes IH]; intros batch_id st; cbn [fold_batches].
  - eauto.
  - destruct (Hp batch_id size st) as [st1 H1]. rewrite H1. cbn [bind]. apply IH.
Qed.

Lemma plan_sizes_lookup n (k : nat) size :
  0 < n < 2 ^ 32 ->
  plan_sizes (worker_plan n) !! k = Some size ->
  0 < size <= BATCH_SIZE /\
  (Z.of_nat k + 1 < batch_count (worker_plan n) -> size = BATCH_SIZE) /\
  (Z.of_nat k + 1 = batch_count (worker_plan n) -> size = last_batch_size (worker_plan n)).
Proof.
  intros Hn Hk. destruct (worker_plan_spec n Hn) as (Hbc & Hlast & _).
  unfold plan_sizes in Hk. set (pl := worker_plan n) in *.
  assert (Hlen : length (replicate (Z.to_nat (batch_count pl - 1)) BATCH_SIZE)
                 = Z.to_nat (batch_count pl - 1)) by apply length_replicate.
  destruct (Nat.lt_ge_cases k (Z.to_nat (batch_count pl - 1))) as [Hlt|Hge].
  - rewrite lookup_app_l in Hk by lia.
    apply lookup_replicate in Hk as [-> _]. unfold BATCH_SIZE. lia.
  - rewrite lookup_app_r in Hk by lia. rewrite Hlen in Hk.
    destruct (k - Z.to_nat (batch_count pl - 1))%nat as [|k'] eqn:E;
      [|destruct k'; discriminate Hk].
    injection Hk as <-. split; [exact Hlast|]. split; [lia|reflexivity].
Qed.

(** X3: the batch bookkeeping that every worker repeats. For a total [n] that
    fits 32 bits, a worker handles the batches [1, 2, ..., batch_count] in
    order, as many as [main] counted; every batch but the last has
    [BATCH_SIZE] elements, the last has between 1 and [BATCH_SIZE], and the
    sizes add up to [n]; a worker whose batches all succeed returns after its
    last batch. *)
Theorem worker_batches {St : Type} (process : Z -> Z -> St -> res St) (n : Z) (st : St) :
  0 < n < 2 ^ 32 ->
  run_worker process n st = fold_batches process 1 (plan_sizes (worker_plan n)) st /\
  len (plan_sizes (worker_plan n)) = main_batch_count n /\
  foldr Z.add 0 (plan_sizes (worker_plan n)) = n /\
  (forall (k : nat) size,
     plan_sizes (worker_plan n) !! k = Some size ->
     0 < size <= BATCH_SIZE /\
     (Z.of_nat k + 1 < main_batch_count n -> size = BATCH_SIZE)) /\
  ((forall batch_id size st0, exists st', process batch_id size st0 = Ok st') ->
   exists st', run_worker process n st = Ok st').
Proof.
  intros Hn. destruct (worker_plan_spec n Hn) as (Hbc & Hlast & Hmain & _).
  split; [apply run_worker_spec, Hn|].
  split.
  { rewrite <- Hmain. unfold plan_sizes, len.
    rewrite length_app, length_replicate. cbn [length]. lia. }
  split; [apply plan_sizes_sum, Hn|]. split.
  { intros k size Hk. destruct (plan_sizes_lookup n k size Hn Hk) as (H1 & H2 & _).
    split; [exact H1|]. rewrite <- Hmain. exact H2. }
  intros Hp. rewrite run_worker_spec by exact Hn. apply fold_batches_total, Hp.
Qed.

Lemma worker_batches_witness :
  run_worker (fun (_ size pos : Z) => Ok (pos + size)) Gather.N 0
  = fold_batches (fun (_ size pos : Z) => Ok (pos + size)) 1
                 (plan_sizes (worker_plan Gather.N)) 0 /\
  len (plan_sizes (worker_plan Gather.N)) = main_batch_count Gather.N /\
  foldr Z.add 0 (plan_sizes (worker_plan Gather.N)) = Gather.N /\
  (forall (k : nat) size,
     plan_sizes (worker_plan Gather.N) !! k = Some size ->
     0 < size <= BATCH_SIZE /\
     (Z.of_nat k + 1 < main_batch_count Gather.N -> size = BATCH_SIZE)) /\
  ((forall batch_id size st0,
      exists st', (fun (_ size pos : Z) => Ok (pos + size)) batch_id size st0 = Ok st') ->
   exists st', run_worker (fun (_ size pos : Z) => Ok (pos + size)) Gather.N 0 = Ok st').
Proof.
  apply (worker_batches (fun (_ size pos : Z) => Ok (pos + size)) Gather.N 0).
  vm_compute. split; congruence.
Defined.

(** ** The run detector *)

Lemma detector_inv_fold ws :
  forall st,
    detector_inv st ->
    Gather.count st + len ws < 2 ^ 64 -> Gather.residue st + len ws < 2 ^ 64 ->
    let st' := fold_left Gather.run_update ws st in
    detector_inv st' /\
    Gather.max_count st <= Gather.max_count st' /\
    Gather.residue st <= Gather.residue st' <= Gather.residue st + len ws /\
    Gather.count st' <= Gather.count st + len ws.
Proof.
  induction ws as [|w ws IH]; intros st Hinv Hcn Hrn; cbv zeta.
  - cbn [fold_left]. unfold len. cbn [length]. repeat split; try apply Hinv; lia.
  - assert (Hl : len (w :: ws) = len ws + 1) by (unfold len; cbn [length]; lia).
    pose proof (len_nonneg ws) as Hl0.
    destruct Hinv as ((Hc & Hm) & Hr & Hiff).
    cbn [fold_left]. rewrite run_update_step by lia. cbv zeta.
    set (c' := if w =? 0 then Gather.count st + 1 else 0).
    assert (Hc' : 0 <= c' <= Gather.count st + 1) by (unfold c'; destruct (w =? 0); lia).
    set (st1 := Gather.RunState c'
                  (if LP - L <? c' then Gather.residue st + 1 else Gather.residue st)
                  (Z.max (Gather.max_count st) c')).
    destruct (IH st1) as (H1 & H2 & H3 & H4).
    { unfold detector_inv, st1. cbn [Gather.count Gather.residue Gather.max_count].
      destruct (Z.ltb_spec (LP - L) c'); lia. }
    { cbn. lia. }
    { cbn. destruct (LP - L <? c'); lia. }
    cbn [Gather.count Gather.residue Gather.max_count st1] in H2, H3, H4.
    split; [exact H1|]. split; [lia|]. split; [|lia].
    destruct (LP - L <? c'); lia.
Qed.

(** X4: what [check_batch] keeps. From a state with [count <= max_count] and
    [residue > 0] exactly when [max_count > LP - L], as the initial state is,
    a call over [hash_count] shingles returns such a state again; [max_count]
    and [residue] never go down, [residue] grows by at most [hash_count], and
    so does [count]. Hence a positive [residue] is always reported together
    with a [max_count] above [LP - L], and the other way round. *)
Theorem check_batch_keeps_invariant (m : bytemap) (cp dp : ptr) (hc : Z)
        (ws : list Z) (st : Gather.run_state) :
  len ws = hc ->
  (forall (j : nat) w, ws !! j = Some w -> verdict m cp dp (Z.of_nat j) = Ok w) ->
  detector_inv st ->
  Gather.count st + hc < 2 ^ 64 -> Gather.residue st + hc < 2 ^ 64 ->
  detector_inv Gather.run_init /\
  exists st',
    Gather.check_batch m hc cp dp st = Ok st' /\
    detector_inv st' /\
    Gather.max_count st <= Gather.max_count st' /\
    Gather.residue st <= Gather.residue st' <= Gather.residue st + hc /\
    Gather.count st' <= Gather.count st + hc.
Proof.
  intros Hl Hv Hinv Hcn Hrn. split.
  { unfold detector_inv, Gather.run_init. cbn. zc. }
  exists (fold_left Gather.run_update ws st). split.
  - apply check_batch_fold; [exact Hl|].
    intros j Hj. rewrite <- (Z2Nat.id j) at 1 by lia.
    apply Hv. unfold byte_at. destruct (ws !! Z.to_nat j) eqn:E; [reflexivity|].
    apply lookup_ge_None in E. unfold len in Hl. lia.
  - rewrite <- Hl. apply detector_inv_fold; rewrite ?Hl; assumption.
Qed.

Lemma check_batch_keeps_invariant_witness :
  detector_inv Gather.run_init /\
  exists st',
    Gather.check_batch demo_map 6 (Ptr (fst demo_hashes) 0) (Ptr (snd demo_hashes) 0)
                       Gather.run_init = Ok st' /\
    detector_inv st' /\
    Gather.max_count Gather.run_init <= Gather.max_count st' /\
    Gather.residue Gather.run_init <= Gather.residue st'
      <= Gather.residue Gather.run_init + 6 /\
    Gather.count st' <= Gather.count Gather.run_init + 6.
Proof.
  apply (check_batch_keeps_invariant demo_map _ _ 6 [255; 255; 0; 0; 0; 0]).
  - reflexivity.
  - intros j w H. do 6 (destruct j as [|j]; [injection H as <-; vm_compute; reflexivity|]).
    discriminate H.
  - unfold detector_inv, Gather.run_init. cbn. unfold LP, L. lia.
  - vm_compute. reflexivity.
  - vm_compute. reflexivity.
Defined.

(** ** What scatter leaves in the map, bit by bit *)

Lemma marked_init a id : 0 <= id < DV -> ~ marked map_init a id.
Proof.
  intros Hid. unfold marked, map_init.
  assert (Hc : id = 0 \/ id = 1 \/ id = 2 \/ id = 3 \/ id = 4 \/ id = 5 \/ id = 6 \/ id = 7)
    by zc.
  destruct Hc as [->|[->|[->|[->|[->|[->|[->| ->]]]]]]]; cbn; discriminate.
Qed.

Lemma bytemap_ok_init : bytemap_ok map_init.
Proof. intros a. unfold map_init. lia. Qed.

Lemma byte_high_bit v i : 0 <= v < 256 -> 8 <= i -> Z.testbit v i = false.
Proof.
  intros Hv Hi. rewrite <- (Z.mod_small v (2 ^ 8)) by lia.
  rewrite Z.testbit_mod_pow2 by lia.
  destruct (Z.ltb_spec i 8); [lia|reflexivity].
Qed.

(** Two bytes with the same bits [0..7] are equal. *)
Lemma byte_eq v w :
  0 <= v < 256 -> 0 <= w < 256 ->
  (forall i, 0 <= i < DV -> (Z.testbit v i = false <-> Z.testbit w i = false)) ->
  v = w.
Proof.
  intros Hv Hw Hb. apply Z.bits_inj'. intros i Hi.
  destruct (Z.lt_ge_cases i 8) as [Hlt|Hge].
  - specialize (Hb i ltac:(zc)).
    destruct (Z.testbit v i), (Z.testbit w i); try reflexivity.
    + apply (proj2 Hb). reflexivity.
    + symmetry. apply (proj1 Hb). reflexivity.
  - rewrite !byte_high_bit by lia. reflexivity.
Qed.

Lemma clear_bits_exact s hc com div j m :
  hashed s hc com div -> 0 <= j < hc -> (hc + 1) * DV < 2 ^ 32 ->
  bytemap_ok m ->
  exists m',
    Scatter.clear_bits com div j m = Ok m' /\ bytemap_ok m' /\
    (forall a id, 0 <= id < DV ->
       (marked m' a id <-> marked m a id \/ addr s j id = a)).
Proof.
  intros (Hc & Hd & _) Hj H32 Hm. unfold Scatter.clear_bits.
  pose (I := fun (id : Z) (mm : bytemap) =>
    bytemap_ok mm /\
    forall a i, 0 <= i < DV ->
      (marked mm a i <-> marked m a i \/ (i < id /\ addr s j i = a))).
  match goal with
  | |- exists r, for_range 0 DV ?body m = Ok r /\ _ =>
      destruct (for_range_inv I 0 DV body m) as (m' & Hrun & HI)
  end.
  - zc.
  - unfold I. split; [exact Hm|]. intros a i Hi. split; [auto|].
    intros [H|[H _]]; [exact H|lia].
  - intros id mm Hid (Hok & Hdone).
    rewrite (Hc j) by lia. cbn [bind].
    rewrite (wrap32_small (j * DV)) by zc.
    rewrite (wrap32_small (j * DV + id)) by zc.
    rewrite (Hd j id) by lia. cbn [bind]. cbv zeta.
    fold (addr s j id). destruct (addr_in_map s j id) as [-> Hin].
    rewrite (map_rd_ok _ _ Hin). cbn [bind]. rewrite (map_wr_ok _ _ _ Hin).
    eexists. split; [reflexivity|]. unfold I. split.
    + intros a. cbv beta. destruct (a =? addr s j id); [apply wrap8_range|apply Hok].
    + intros a i Hi. specialize (Hdone a i Hi). unfold marked in *. cbv beta.
      destruct (Z.eqb_spec a (addr s j id)) as [->|Hne].
      * rewrite clear_bit_spec by zc.
        destruct (Z.ltb_spec i 8); [|zc].
        destruct (Z.eqb_spec i id) as [->|Hni].
        -- rewrite andb_false_r. split; [intros _; right; split; [lia|reflexivity]|reflexivity].
        -- rewrite andb_true_l, andb_true_r. rewrite Hdone.
           split; (intros [H'|[H1 H2]]; [left; exact H'|right; split; [lia|exact H2]]).
      * rewrite Hdone.
        split; (intros [H'|[H1 H2]]; [left; exact H'|right; split; [|exact H2]]); [lia|].
        destruct (Z.eq_dec i id) as [->|]; [congruence|lia].
  - exists m'. destruct HI as (Hok & Hdone). split; [exact Hrun|]. split; [exact Hok|].
    intros a id Hid. rewrite (Hdone a id Hid).
    split; (intros [H'|H']; [left; exact H'|right]); [apply H'|split; [lia|exact H']].
Qed.

Lemma consume_exact s hc com div j0 m :
  hashed s hc com div -> 0 <= j0 -> (hc + 1) * DV < 2 ^ 32 ->
  bytemap_ok m ->
  exists m',
    Scatter.worker3_consume j0 hc com div m = Ok m' /\ bytemap_ok m' /\
    (forall a id, 0 <= id < DV ->
       (marked m' a id <-> marked m a id \/ hit s j0 hc a id)).
Proof.
  intros Hh Hj0 H32 Hm. unfold Scatter.worker3_consume.
  destruct (Z.le_gt_cases j0 hc) as [Hle|Hgt].
  - pose (I := fun (j : Z) (mm : bytemap) =>
      bytemap_ok mm /\
      forall a id, 0 <= id < DV ->
        (marked mm a id <-> marked m a id \/ hit s j0 j a id)).
    match goal with
    | |- exists r, for_range j0 hc ?body m = Ok r /\ _ =>
        destruct (for_range_inv I j0 hc body m) as (m' & Hrun & HI)
    end.
    + exact Hle.
    + unfold I. split; [exact Hm|]. intros a id Hid. split; [auto|].
      intros [H|(j & Hj & _)]; [exact H|lia].
    + intros j mm Hj (Hok & Hdone).
      destruct (clear_bits_exact s hc com div j mm Hh) as (m1 & Hcb & Hok1 & Hm1);
        [lia|exact H32|exact Hok|].
      exists m1. split; [exact Hcb|]. unfold I. split; [exact Hok1|].
      intros a id Hid. rewrite (Hm1 a id Hid), (Hdone a id Hid). unfold hit. split.
      * intros [[H|(i & Hi & Ha)]|Ha]; [left; exact H|right..].
        -- exists i. split; [lia|exact Ha].
        -- exists j. split; [lia|exact Ha].
      * intros [H|(i & Hi & Ha)]; [left; left; exact H|].
        destruct (Z.eq_dec i j) as [->|Hne]; [right; exact Ha|].
        left. right. exists i. split; [lia|exact Ha].
    + exists m'. destruct HI as (Hok & Hdone). auto.
  - rewrite for_range_empty by lia. exists m.
    split; [reflexivity|]. split; [exact Hm|]. intros a id Hid. split; [auto|].
    intros [H|(j & Hj & _)]; [exact H|lia].
Qed.

Lemma scatter_batch_exact j0 b m :
  ok_batch b -> 0 <= j0 -> bytemap_ok m ->
  exists m',
    scatter_batch j0 b m = Ok m' /\ bytemap_ok m' /\
    (forall a id, 0 <= id < DV ->
       (marked m' a id <-> marked m a id \/ hit (b_buf b) j0 (b_size b) a id)).
Proof.
  intros (Hs & Hhc & H32 & Hroom) Hj0 Hm. unfold scatter_batch.
  destruct (hash_batch_spec _ _ _ _ Hs Hhc H32 Hroom) as (com & div & Hhb & _ & _ & Hh).
  rewrite Hhb. cbn [bind fst snd].
  apply (consume_exact _ _ _ _ _ _ Hh Hj0 H32 Hm).
Qed.

Lemma scatter_run_bits bs :
  forall j0 m,
    Forall ok_batch bs -> 0 <= j0 -> bytemap_ok m ->
    exists m',
      scatter_run j0 bs m = Ok m' /\ bytemap_ok m' /\
      (forall a id, 0 <= id < DV ->
         (marked m' a id <-> marked m a id \/ hit_by j0 bs a id)).
Proof.
  induction bs as [|b bs IH]; intros j0 m Hok Hj0 Hm.
  - exists m. split; [reflexivity|]. split; [exact Hm|].
    intros a id Hid. split; [auto|].
    intros [H|(k & b & Hk & _)]; [exact H|]. rewrite lookup_nil in Hk. discriminate.
  - apply Forall_cons in Hok as [Hb Hbs]. cbn [scatter_run].
    destruct (scatter_batch_exact j0 b m Hb Hj0 Hm) as (m1 & H1 & Hok1 & Hm1).
    rewrite H1. cbn [bind].
    destruct (IH 0 m1 Hbs ltac:(lia) Hok1) as (m2 & H2 & Hok2 & Hm2).
    exists m2. split; [exact H2|]. split; [exact Hok2|].
    intros a id Hid. rewrite (Hm2 a id Hid), (Hm1 a id Hid). unfold hit_by. split.
    + intros [[H|H]|(k & b' & Hk & Hh)]; [left; exact H|right..].
      * exists 0%nat, b. split; [reflexivity|exact H].
      * exists (S k), b'. split; [exact Hk|].
        cbn [Nat.eqb]. destruct (Nat.eqb k 0); exact Hh.
    + intros [H|(k & b' & Hk & Hh)]; [left; left; exact H|].
      destruct k as [|k].
      * cbn in Hk. injection Hk as <-. left. right. exact Hh.
      * right. exists k, b'. split; [exact Hk|].
        cbn [Nat.eqb] in Hh. destruct (Nat.eqb k 0); exact Hh.
Qed.


(** X5: scatter clears exactly the bits of the shingles it consumes. From a
    map of bytes, a run over batches with room for their hashes returns a map
    of bytes in which bit [id] of slot [a] is clear if and only if it was
    clear before or [a] is the slot, in co-filter [id], of a consumed shingle;
    from the map as [main] resets it, the clear bits are exactly the slots of
    the consumed shingles. *)
Theorem scatter_clears_exactly (bs : list batch) (j0 : Z) (m : bytemap) :
  Forall ok_batch bs -> 0 <= j0 -> bytemap_ok m ->
  (exists m',
     scatter_run j0 bs m = Ok m' /\ bytemap_ok m' /\
     (forall a id, 0 <= id < DV ->
        (marked m' a id <-> marked m a id \/ hit_by j0 bs a id))) /\
  (exists m',
     scatter_run j0 bs map_init = Ok m' /\
     (forall a id, 0 <= id < DV -> (marked m' a id <-> hit_by j0 bs a id))).
Proof.
  intros Hok Hj0 Hm. split; [apply scatter_run_bits; assumption|].
  destruct (scatter_run_bits bs j0 map_init Hok Hj0 bytemap_ok_init) as (m' & Hrun & _ & Hb).
  exists m'. split; [exact Hrun|]. intros a id Hid. rewrite (Hb a id Hid).
  split; [|auto]. intros [H|H]; [|exact H]. destruct (marked_init a id Hid H).
Qed.

Lemma scatter_clears_exactly_witness :
  (exists m',
     scatter_run LC [demo_batch] map_init = Ok m' /\ bytemap_ok m' /\
     (forall a id, 0 <= id < DV ->
        (marked m' a id <-> marked map_init a id \/ hit_by LC [demo_batch] a id))) /\
  (exists m',
     scatter_run LC [demo_batch] map_init = Ok m' /\
     (forall a id, 0 <= id < DV -> (marked m' a id <-> hit_by LC [demo_batch] a id))).
Proof.
  apply (scatter_clears_exactly [demo_batch] LC map_init).
  - apply Forall_cons. split; [exact demo_batch_ok|apply Forall_nil; exact I].
  - vm_compute. congruence.
  - exact bytemap_ok_init.
Defined.




(** ** What gather reads from the map *)

Lemma aggregate_at s hc com div j (c d : Z) :
  hashed s hc com div -> (hc + 1) * DV < 2 ^ 32 ->
  0 <= j -> 0 <= c -> c + j <= hc -> 0 <= d -> d + j * DV + DV <= (hc + 1) * DV ->
  exists hash,
    Gather.aggregate (ptr_add (Ptr com 0) c) (ptr_add (Ptr div 0) d) j = Ok hash /\
    (forall id, 0 <= id < DV ->
       rd hash id
       = Ok (com_scratch s (c + j)
             + div_scratch ((d + id) mod DV) s
                 (Z.min (hc - 1) (j + (d + id) / DV)))).
Proof.
  intros (Hc & Hd & Hlast) H32 Hj Hc0 Hcj Hd0 Hdj. unfold Gather.aggregate.
  assert (Hdiv : forall id, 0 <= id < DV ->
            rd div (d + j * DV + id)
            = Ok (div_scratch ((d + id) mod DV) s (Z.min (hc - 1) (j + (d + id) / DV)))).
  { intros id Hid.
    pose proof (Z.div_mod (d + id) DV ltac:(zc)) as Hdm.
    pose proof (Z.mod_pos_bound (d + id) DV ltac:(zc)) as Hmb.
    assert (Hq0 : 0 <= (d + id) / DV) by (apply Z.div_pos; zc).
    replace (d + j * DV + id)
      with ((j + (d + id) / DV) * DV + (d + id) mod DV) by lia.
    assert (Hle : j + (d + id) / DV <= hc) by nia.
    destruct (Z.eq_dec (j + (d + id) / DV) hc) as [E|Hne].
    - rewrite E. rewrite Z.min_l by lia. apply Hlast. lia.
    - rewrite Z.min_r by lia. apply Hd; lia. }
  pose (I := fun (id : Z) (h : list Z) =>
    len h = DV /\
    forall id', 0 <= id' < id ->
      rd h id' = Ok (com_scratch s (c + j)
                     + div_scratch ((d + id') mod DV) s
                         (Z.min (hc - 1) (j + (d + id') / DV)))).
  match goal with
  | |- exists r, for_range 0 DV ?body ?h0 = Ok r /\ _ =>
      destruct (for_range_inv I 0 DV body h0) as (h' & Hrun & HI)
  end.
  - zc.
  - unfold I. split; [reflexivity|]. intros; lia.
  - intros id h Hid (Hl & Hdone). unfold ptr_rd, ptr_add. cbn [arr off].
    replace (0 + c + j) with (c + j) by lia. rewrite (Hc (c + j)) by lia. cbn [bind].
    rewrite (wrap32_small (j * DV)) by (unfold DV in *; lia).
    rewrite (wrap32_small (j * DV + id)) by (unfold DV in *; lia).
    replace (0 + d + (j * DV + id)) with (d + j * DV + id) by lia.
    rewrite (Hdiv id Hid). cbn [bind].
    set (q := Z.min (hc - 1) (j + (d + id) / DV)).
    assert (Hrange : 0 <= com_scratch s (c + j) + div_scratch ((d + id) mod DV) s q < 2 ^ 64).
    { pose proof (com_scratch_range s (c + j)).
      pose proof (div_scratch_range ((d + id) mod DV) s q). zc. }
    rewrite (wrap64_small _ Hrange).
    match goal with
    | |- exists r, wr h id ?v = Ok r /\ _ =>
        assert (Hw : wr h id v = Ok (<[Z.to_nat id := v]> h)) by (apply wr_ok; lia)
    end.
    rewrite Hw. eexists. split; [reflexivity|]. unfold I.
    split; [rewrite (wr_len _ _ _ _ Hw); exact Hl|].
    intros id' Hid'. destruct (Z.eq_dec id' id) as [->|Hne].
    + exact (rd_wr_same _ _ _ _ Hw).
    + rewrite (rd_wr_other _ _ _ _ _ Hw) by lia. apply Hdone. lia.
  - exists h'. destruct HI as (_ & Hdone). auto.
Qed.

Lemma check_hash_bits m hash (a : Z -> Z) :
  (forall id, 0 <= id < DV -> rd hash id = Ok (a id) /\ 0 <= a id < MAP_SIZE) ->
  exists w,
    Gather.check_hash m hash = Ok w /\ 0 <= w < 256 /\
    (forall id, 0 <= id < DV -> Z.testbit w id = Z.testbit (m (a id)) id).
Proof.
  intros Hh. unfold Gather.check_hash.
  pose (I := fun (id : Z) (w : Z) =>
    0 <= w < 256 /\
    forall i, 0 <= i < DV -> Z.testbit w i = (i <? id) && Z.testbit (m (a i)) i).
  match goal with
  | |- exists r, for_range 0 DV ?body 0 = Ok r /\ _ =>
      destruct (for_range_inv I 0 DV body 0) as (w & Hrun & HI)
  end.
  - zc.
  - unfold I. split; [lia|]. intros i Hi. rewrite Z.bits_0.
    destruct (Z.ltb_spec i 0); [lia|reflexivity].
  - intros id w Hid (Hw & Hdone). destruct (Hh id Hid) as (Hrd & Hin).
    rewrite Hrd. cbn [bind]. rewrite (map_rd_ok _ _ Hin). cbn [bind].
    eexists. split; [reflexivity|]. unfold I. split; [apply wrap8_range|].
    intros i Hi. unfold wrap8. rewrite Z.testbit_mod_pow2 by lia.
    destruct (Z.ltb_spec i 8); [|zc]. rewrite andb_true_l.
    rewrite Z.lor_spec, Z.land_spec, Z.shiftl_1_l, Z.pow2_bits_eqb by lia.
    rewrite (Hdone i Hi).
    destruct (Z.eqb_spec id i) as [->|Hne].
    + destruct (Z.ltb_spec i i); [lia|]. destruct (Z.ltb_spec i (i + 1)); [|lia].
      rewrite andb_true_r. reflexivity.
    + rewrite andb_false_r, orb_false_r.
      destruct (Z.ltb_spec i id), (Z.ltb_spec i (id + 1)); try lia; reflexivity.
  - exists w. destruct HI as (Hw & Hdone). split; [exact Hrun|]. split; [exact Hw|].
    intros id Hid. rewrite (Hdone id Hid).
    destruct (Z.ltb_spec id DV); [reflexivity|lia].
Qed.

Lemma byte_zero_bits w :
  0 <= w < 256 -> (w = 0 <-> forall id, 0 <= id < DV -> Z.testbit w id = false).
Proof.
  intros Hw. split.
  - intros -> id _. apply Z.bits_0.
  - intros Hb. apply (byte_eq w 0 Hw ltac:(lia)). intros i Hi.
    rewrite Z.bits_0. split; [reflexivity|]. intros _. apply Hb, Hi.
Qed.

Lemma verdict_bits s hc com div j m :
  hashed s hc com div -> 0 <= j < hc -> (hc + 1) * DV < 2 ^ 32 ->
  exists w,
    verdict m (Ptr com 0) (Ptr div 0) j = Ok w /\ 0 <= w < 256 /\
    (forall id, 0 <= id < DV -> Z.testbit w id = Z.testbit (m (addr s j id)) id) /\
    (w = 0 <-> forall id, 0 <= id < DV -> marked m (addr s j id) id).
Proof.
  intros Hh Hj H32. unfold verdict.
  destruct (aggregate_spec s hc com div j Hh Hj H32) as (hash & Hagg & Hv).
  rewrite Hagg. cbn [bind].
  destruct (check_hash_bits m hash (addr s j)) as (w & Hw & Hr & Hb).
  { intros id Hid. split; [apply Hv, Hid|apply addr_in_map]. }
  exists w. split; [exact Hw|]. split; [exact Hr|]. split; [exact Hb|].
  rewrite (byte_zero_bits w Hr). unfold marked.
  split; intros H id Hid; [rewrite <- (Hb id Hid)|rewrite (Hb id Hid)]; apply H, Hid.
Qed.

(** X7: the verdict on a test shingle is the map seen through its eight
    slots. On the hashes that [hash_batch] returns, [aggregate] followed by
    [check_hash] returns a byte whose bit [id] is bit [id] of the map byte at
    the shingle's slot in co-filter [id], whatever the map holds; so the
    shingle survives (the byte is [0]) if and only if all eight bits are
    clear, and one bit that is still set rejects it. *)
Theorem verdict_reads_eight_bits (s : list Z) (hc : Z) (com div : list Z) (j : Z)
        (m : bytemap) :
  bytes s -> 1 <= hc -> (hc + 1) * DV < 2 ^ 32 -> room s hc com div ->
  0 <= j < hc ->
  exists com' div' w,
    Gather.hash_batch s hc com div = Ok (com', div') /\
    verdict m (Ptr com' 0) (Ptr div' 0) j = Ok w /\ 0 <= w < 256 /\
    (forall id, 0 <= id < DV -> Z.testbit w id = Z.testbit (m (addr s j id)) id) /\
    (w = 0 <-> forall id, 0 <= id < DV -> marked m (addr s j id) id) /\
    (forall id, 0 <= id < DV -> ~ marked m (addr s j id) id -> w <> 0).
Proof.
  intros Hs Hhc H32 Hroom Hj.
  destruct (hash_batch_spec _ _ _ _ Hs Hhc H32 Hroom) as (com' & div' & Hhb & _ & _ & Hh).
  destruct (verdict_bits s hc com' div' j m Hh Hj H32) as (w & Hw & Hr & Hb & Hz).
  exists com', div', w. split; [rewrite gather_hash_batch; exact Hhb|].
  repeat split; try assumption; try apply Hr; try apply Hz.
  intros id Hid Hn H0. apply Hn. apply (proj1 Hz H0 id Hid).
Qed.

Lemma verdict_reads_eight_bits_witness :
  exists com' div' w,
    Gather.hash_batch demo_buf 10 (replicate 11 0) (replicate 88 0) = Ok (com', div') /\
    verdict map_init (Ptr com' 0) (Ptr div' 0) 3 = Ok w /\ 0 <= w < 256 /\
    (forall id, 0 <= id < DV ->
       Z.testbit w id = Z.testbit (map_init (addr demo_buf 3 id)) id) /\
    (w = 0 <-> forall id, 0 <= id < DV -> marked map_init (addr demo_buf 3 id) id) /\
    (forall id, 0 <= id < DV -> ~ marked map_init (addr demo_buf 3 id) id -> w <> 0).
Proof.
  apply (verdict_reads_eight_bits demo_buf 10 (replicate 11 0) (replicate 88 0) 3 map_init).
  - exact demo_buf_bytes.
  - lia.
  - vm_compute. reflexivity.
  - vm_compute. repeat split; congruence.
  - lia.
Defined.





(** ** The first container of gather's worker3 *)

(** X9: the slots that gather checks in its first container. There worker3
    calls [check_batch(batch_size - LC, com_ctr + LC, div_ctr + LC)]. The
    common hash that [aggregate] then reads for round [j] is that of shingle
    [j + LC], but the diversified hashes start [LC] entries into the array,
    not [LC * DV]: for co-filter [id] it adds the hash of co-filter [id + LC]
    of shingle [j] (when [id < DV - LC]) or of co-filter [id + LC - DV] of
    shingle [j + 1]. With the pointer [div_ctr + LC * DV] the sums are the
    eight slots of shingle [j + LC]. *)
Theorem first_container_slots (s : list Z) (hc : Z) (com div : list Z) (j : Z)
        (m : bytemap) (st : Gather.run_state) :
  bytes s -> 1 <= hc -> (hc + 1) * DV < 2 ^ 32 -> room s hc com div ->
  0 <= j -> j + LC < hc ->
  exists com' div' hash hash',
    Gather.hash_batch s hc com div = Ok (com', div') /\
    Gather.worker3_consume m true hc com' div' st
    = Gather.check_batch m (hc - LC) (ptr_add (Ptr com' 0) LC)
                         (ptr_add (Ptr div' 0) LC) st /\
    Gather.aggregate (ptr_add (Ptr com' 0) LC) (ptr_add (Ptr div' 0) LC) j = Ok hash /\
    (forall id, 0 <= id < DV ->
       rd hash id
       = Ok (com_scratch s (j + LC)
             + (if id <? DV - LC then div_scratch (id + LC) s j
                else div_scratch (id + LC - DV) s (j + 1)))) /\
    Gather.aggregate (ptr_add (Ptr com' 0) LC) (ptr_add (Ptr div' 0) (LC * DV)) j
    = Ok hash' /\
    (forall id, 0 <= id < DV -> rd hash' id = Ok (addr s (j + LC) id)).
Proof.
  intros Hs Hhc H32 Hroom Hj Hjl.
  destruct (hash_batch_spec _ _ _ _ Hs Hhc H32 Hroom) as (com' & div' & Hhb & _ & _ & Hh).
  destruct (aggregate_at s hc com' div' j LC LC Hh H32 Hj) as (hash & Hagg & Hv); try zc.
  destruct (aggregate_at s hc com' div' j LC (LC * DV) Hh H32 Hj) as (hash' & Hagg' & Hv');
    try zc.
  exists com', div', hash, hash'.
  split; [rewrite gather_hash_batch; exact Hhb|].
  split. { unfold Gather.worker3_consume. rewrite wrap32_small by zc. reflexivity. }
  split; [exact Hagg|]. split; [|split; [exact Hagg'|]].
  - intros id Hid. rewrite (Hv id Hid). replace (LC + j) with (j + LC) by lia.
    do 3 f_equal. each_id Hid; cbn [Z.ltb Z.compare DV LC L Z.sub Z.add Z.opp Z.pos_sub
                               Pos.compare Pos.compare_cont];
      change ((LC + 0) / DV) with 0; change ((LC + 1) / DV) with 0;
      change ((LC + 2) / DV) with 0; change ((LC + 3) / DV) with 0;
      change ((LC + 4) / DV) with 1; change ((LC + 5) / DV) with 1;
      change ((LC + 6) / DV) with 1; change ((LC + 7) / DV) with 1;
      change ((LC + 0) mod DV) with 4; change ((LC + 1) mod DV) with 5;
      change ((LC + 2) mod DV) with 6; change ((LC + 3) mod DV) with 7;
      change ((LC + 4) mod DV) with 0; change ((LC + 5) mod DV) with 1;
      change ((LC + 6) mod DV) with 2; change ((LC + 7) mod DV) with 3;
      rewrite ?Z.add_0_r; (rewrite Z.min_r by zc); reflexivity.
  - intros id Hid. rewrite (Hv' id Hid). unfold addr.
    replace (LC + j) with (j + LC) by lia.
    replace ((LC * DV + id) / DV) with LC
      by (apply (Z.div_unique _ _ _ id); zc).
    replace ((LC * DV + id) mod DV) with id
      by (apply (Z.mod_unique _ _ LC id); zc).
    rewrite Z.min_r by zc. reflexivity.
Qed.

Lemma first_container_slots_witness :
  exists com' div' hash hash',
    Gather.hash_batch demo_buf 10 (replicate 11 0) (replicate 88 0) = Ok (com', div') /\
    Gather.worker3_consume map_init true 10 com' div' Gather.run_init
    = Gather.check_batch map_init (10 - LC) (ptr_add (Ptr com' 0) LC)
                         (ptr_add (Ptr div' 0) LC) Gather.run_init /\
    Gather.aggregate (ptr_add (Ptr com' 0) LC) (ptr_add (Ptr div' 0) LC) 2 = Ok hash /\
    (forall id, 0 <= id < DV ->
       rd hash id
       = Ok (com_scratch demo_buf (2 + LC)
             + (if id <? DV - LC then div_scratch (id + LC) demo_buf 2
                else div_scratch (id + LC - DV) demo_buf (2 + 1)))) /\
    Gather.aggregate (ptr_add (Ptr com' 0) LC) (ptr_add (Ptr div' 0) (LC * DV)) 2
    = Ok hash' /\
    (forall id, 0 <= id < DV -> rd hash' id = Ok (addr demo_buf (2 + LC) id)).
Proof.
  apply (first_container_slots demo_buf 10 (replicate 11 0) (replicate 88 0) 2
                               map_init Gather.run_init).
  - exact demo_buf_bytes.
  - lia.
  - vm_compute. reflexivity.
  - vm_compute. repeat split; congruence.
  - lia.
  - vm_compute. reflexivity.
Defined.

(** ** [rcp_generator] probes linearly *)

Lemma probe_first fuel :
  forall (a : list bool) rand r,
    len a = 256 -> 0 <= rand < 256 ->
    probe fuel a rand = Ok r ->
    exists k,
      0 <= k < Z.of_nat fuel /\ r = (rand + k) mod 256 /\ rd a r = Ok false /\
      (forall k', 0 <= k' < k -> rd a ((rand + k') mod 256) = Ok true).
Proof.
  induction fuel as [|fuel IH]; intros a rand r Hl Hr Hp; [discriminate Hp|].
  cbn [probe] in Hp. destruct (rd_ok a rand ltac:(lia)) as [t Ht].
  rewrite Ht in Hp. cbn [bind] in Hp. destruct t.
  - destruct (IH a (wrap8 (rand + 1)) r Hl (wrap8_range _) Hp) as (k & Hk & Hrk & Hfree & Hbusy).
    assert (Hshift : forall x, (wrap8 (rand + 1) + x) mod 256 = (rand + (x + 1)) mod 256).
    { intros x. unfold wrap8. change (2 ^ 8) with 256.
      rewrite Zplus_mod_idemp_l. f_equal. lia. }
    exists (k + 1). split; [lia|]. split; [rewrite <- Hshift; exact Hrk|].
    split; [exact Hfree|]. intros k' Hk'.
    destruct (Z.eq_dec k' 0) as [->|Hne].
    + rewrite Z.add_0_r, Z.mod_small by lia. exact Ht.
    + replace k' with ((k' - 1) + 1) by lia. rewrite <- Hshift. apply Hbusy. lia.
  - injection Hp as <-. exists 0. split; [lia|].
    split; [rewrite Z.add_0_r, Z.mod_small by lia; reflexivity|].
    split; [exact Ht|]. intros; lia.
Qed.

(** The state of the first loop after [j] rounds, with where each entry came
    from: [p[i]] is [k] steps up from the [i]-th draw, and the [k] values in
    between were taken by earlier entries. *)
Lemma rcp_fill_probes (draw : Z -> Z) (p : list Z) :
  len p = 256 ->
  exists a q,
    rcp_fill draw p = Ok (a, q) /\ rcp_inv 256 (a, q) /\
    (forall i, 0 <= i < 256 ->
       exists k, 0 <= k < 256 /\
         rd q i = Ok ((wrap8 (draw i) + k) mod 256) /\
         (forall k', 0 <= k' < k ->
            exists i', 0 <= i' < i /\ rd q i' = Ok ((wrap8 (draw i) + k') mod 256))).
Proof.
  intros Hp. unfold rcp_fill.
  pose (I := fun (j : Z) (ap : list bool * list Z) =>
    rcp_inv j ap /\
    forall i, 0 <= i < j ->
      exists k, 0 <= k < 256 /\
        rd (snd ap) i = Ok ((wrap8 (draw i) + k) mod 256) /\
        (forall k', 0 <= k' < k ->
           exists i', 0 <= i' < i /\ rd (snd ap) i' = Ok ((wrap8 (draw i) + k') mod 256))).
  match goal with
  | |- exists a q, for_range 0 256 ?body ?st0 = Ok (a, q) /\ _ =>
      destruct (for_range_inv I 0 256 body st0) as ([a q] & Hrun & Hinv & Hpr)
  end.
  - lia.
  - split; [|intros; lia].
    unfold rcp_inv. split; [reflexivity|]. split; [exact Hp|].
    split; [apply (trues_replicate 256)|]. split; [intros; lia|]. split; [intros; lia|].
    intros x Hx. apply rd_inv in Hx as [_ Hx].
    apply lookup_replicate in Hx as [Hx _]. discriminate.
  - intros j [a q] Hj ((Hla & Hlq & Ht & Hran & Hinj & Hsur) & Hpr). cbn [snd] in Hpr.
    destruct (probe_finds a (wrap8 (draw j)) Hla (wrap8_range _) ltac:(lia))
      as (r & Hprobe & Hr & Hfree).
    destruct (probe_first 256 a (wrap8 (draw j)) r Hla (wrap8_range _) Hprobe)
      as (k & Hk & Hrk & _ & Hbusy).
    rewrite Hprobe. cbn [bind].
    assert (Hwa : wr a r true = Ok (<[Z.to_nat r := true]> a)) by (apply wr_ok; lia).
    rewrite Hwa. cbn [bind].
    assert (Hwq : wr q j r = Ok (<[Z.to_nat j := r]> q)) by (apply wr_ok; lia).
    rewrite Hwq. cbn [bind].
    eexists. split; [reflexivity|].
    assert (Hold : forall i x, 0 <= i < j -> rd q i = Ok x -> x <> r).
    { intros i x Hi Hx ->. destruct (Hran i Hi) as (y & Hy & _ & Hay).
      rewrite Hx in Hy. injection Hy as <-. congruence. }
    split.
    + unfold rcp_inv.
      split; [rewrite (wr_len _ _ _ _ Hwa); exact Hla|].
      split; [rewrite (wr_len _ _ _ _ Hwq); exact Hlq|].
      split.
      { rewrite trues_insert; [lia|]. apply rd_inv in Hfree as [_ Hfree]. exact Hfree. }
      split.
      { intros i Hi. destruct (Z.eq_dec i j) as [->|Hne].
        - exists r. split; [exact (rd_wr_same _ _ _ _ Hwq)|]. split; [exact Hr|].
          exact (rd_wr_same _ _ _ _ Hwa).
        - destruct (Hran i ltac:(lia)) as (x & Hx & Hxr & Hax).
          exists x. split; [rewrite (rd_wr_other _ _ _ _ _ Hwq) by lia; exact Hx|].
          split; [exact Hxr|].
          rewrite (rd_wr_other _ _ _ _ _ Hwa); [exact Hax|].
          intros E. exact (Hold i x ltac:(lia) Hx (eq_sym E)). }
      split.
      { intros i i' x Hi Hi' Hx Hx'.
        destruct (Z.eq_dec i j) as [->|Hne]; destruct (Z.eq_dec i' j) as [->|Hne'];
          [reflexivity| | |].
        - rewrite (rd_wr_same _ _ _ _ Hwq) in Hx. injection Hx as <-.
          rewrite (rd_wr_other _ _ _ _ _ Hwq) in Hx' by lia.
          exfalso. exact (Hold i' r ltac:(lia) Hx' eq_refl).
        - rewrite (rd_wr_same _ _ _ _ Hwq) in Hx'. injection Hx' as <-.
          rewrite (rd_wr_other _ _ _ _ _ Hwq) in Hx by lia.
          exfalso. exact (Hold i r ltac:(lia) Hx eq_refl).
        - rewrite (rd_wr_other _ _ _ _ _ Hwq) in Hx by lia.
          rewrite (rd_wr_other _ _ _ _ _ Hwq) in Hx' by lia.
          apply (Hinj i i' x); [lia|lia|exact Hx|exact Hx']. }
      intros x Hx. destruct (Z.eq_dec x r) as [->|Hne].
      * exists j. split; [lia|]. exact (rd_wr_same _ _ _ _ Hwq).
      * rewrite (rd_wr_other _ _ _ _ _ Hwa) in Hx by congruence.
        destruct (Hsur x Hx) as (i & Hi & Hqi). exists i. split; [lia|].
        rewrite (rd_wr_other _ _ _ _ _ Hwq) by lia. exact Hqi.
    + cbn [snd]. intros i Hi. destruct (Z.eq_dec i j) as [->|Hne].
      * exists k. split; [lia|]. split; [rewrite <- Hrk; exact (rd_wr_same _ _ _ _ Hwq)|].
        intros k' Hk'. destruct (Hsur _ (Hbusy k' Hk')) as (i' & Hi' & Hqi').
        exists i'. split; [exact Hi'|].
        rewrite (rd_wr_other _ _ _ _ _ Hwq) by lia. exact Hqi'.
      * destruct (Hpr i ltac:(lia)) as (k0 & Hk0 & Hq0 & Hb0).
        exists k0. split; [exact Hk0|].
        split; [rewrite (rd_wr_other _ _ _ _ _ Hwq) by lia; exact Hq0|].
        intros k' Hk'. destruct (Hb0 k' Hk') as (i' & Hi' & Hqi').
        exists i'. split; [exact Hi'|].
        rewrite (rd_wr_other _ _ _ _ _ Hwq) by lia. exact Hqi'.
  - exists a, q. cbn [snd] in Hpr. auto.
Qed.

(** X10: [rcp_generator] is linear probing. Entry [j] of the permutation is
    the first value, counting up from the [j]-th draw and wrapping at 256,
    that no earlier entry holds; so draws that are all different are
    returned as they come, and a repeated draw moves up to the next free
    value. *)
Theorem rcp_generator_linear_probing (draw : Z -> Z) (p : list Z) :
  len p = 256 ->
  exists p',
    rcp_generator draw p = Ok p' /\
    (forall j, 0 <= j < 256 ->
       exists k, 0 <= k < 256 /\
         rd p' j = Ok ((wrap8 (draw j) + k) mod 256) /\
         (forall k', 0 <= k' < k ->
            exists i, 0 <= i < j /\ rd p' i = Ok ((wrap8 (draw j) + k') mod 256)) /\
         (forall i, 0 <= i < j -> rd p' i <> Ok ((wrap8 (draw j) + k) mod 256))) /\
    ((forall i j, 0 <= i < j -> j < 256 -> wrap8 (draw i) <> wrap8 (draw j)) ->
     forall j, 0 <= j < 256 -> rd p' j = Ok (wrap8 (draw j))).
Proof.
  intros Hp. unfold rcp_generator.
  destruct (rcp_fill_probes draw p Hp) as (a & q & Hfill & Hinv & Hpr).
  rewrite Hfill. cbn [bind snd].
  pose proof (rcp_inv_bijection a q Hinv) as Hbij.
  rewrite (rcp_test_ok q Hbij). cbn [bind].
  exists q. split; [reflexivity|].
  destruct Hbij as (_ & _ & Hinj & _).
  split.
  - intros j Hj. destruct (Hpr j Hj) as (k & Hk & Hq & Hb).
    exists k. split; [exact Hk|]. split; [exact Hq|]. split; [exact Hb|].
    intros i Hi E. assert (i = j) by (eapply (Hinj i j); [lia|lia|exact E|exact Hq]). lia.
  - intros Hdist j Hj.
    assert (Hall : forall n : nat, forall j, 0 <= j < 256 -> j < Z.of_nat n ->
                     rd q j = Ok (wrap8 (draw j))).
    { induction n as [|n IH]; intros j0 Hj0 Hn; [lia|].
      destruct (Hpr j0 Hj0) as (k & Hk & Hq & Hb).
      destruct (Z.eq_dec k 0) as [->|Hne].
      - rewrite Hq, Z.add_0_r. f_equal. apply Z.mod_small, wrap8_range.
      - exfalso. destruct (Hb 0 ltac:(lia)) as (i & Hi & Hqi).
        rewrite Z.add_0_r, (Z.mod_small _ 256) in Hqi by apply wrap8_range.
        rewrite (IH i ltac:(lia) ltac:(lia)) in Hqi. injection Hqi as Hqi.
        apply (Hdist i j0); [lia|lia|exact Hqi]. }
    apply (Hall (Z.to_nat (j + 1))); lia.
Qed.

Lemma rcp_generator_linear_probing_witness :
  exists p',
    rcp_generator demo_draw (replicate 256 0) = Ok p' /\
    (forall j, 0 <= j < 256 ->
       exists k, 0 <= k < 256 /\
         rd p' j = Ok ((wrap8 (demo_draw j) + k) mod 256) /\
         (forall k', 0 <= k' < k ->
            exists i, 0 <= i < j /\ rd p' i = Ok ((wrap8 (demo_draw j) + k') mod 256)) /\
         (forall i, 0 <= i < j -> rd p' i <> Ok ((wrap8 (demo_draw j) + k) mod 256))) /\
    ((forall i j, 0 <= i < j -> j < 256 -> wrap8 (demo_draw i) <> wrap8 (demo_draw j)) ->
     forall j, 0 <= j < 256 -> rd p' j = Ok (wrap8 (demo_draw j))).
Proof.
  apply (rcp_generator_linear_probing demo_draw (replicate 256 0)).
  reflexivity.
Defined.

(** ** The map file, from scatter to gather *)

(** X11: the map file round trip. What scatter writes at the end of [main],
    the setup time and then the [M_COM + M_DIV] bytes of the map,
    [load_hash_map] of gather reads back: it returns, the setup time it
    returns is the one written, and every slot of the map holds the byte
    scatter left there, whatever the destinations held before. *)
Theorem map_file_round_trip (sizeof_time_t : Z) (old : option file)
        (cur_time : Z -> Z) (m : bytemap) (t0 : Z -> Z) (m0 : bytemap) :
  0 < sizeof_time_t < 2 ^ 32 ->
  exists t' m',
    load_hash_map sizeof_time_t (write_hash_map sizeof_time_t true old cur_time m) t0 m0
    = Ok (t', m') /\
    (forall i, 0 <= i < sizeof_time_t -> t' i = cur_time i) /\
    (forall a, 0 <= a < MAP_SIZE -> m' a = m a) /\
    (forall a, map_rd m' a = map_rd m a).
Proof.
  intros Hsz. unfold write_hash_map, load_hash_map. cbv zeta. cbn [f_len f_at].
  rewrite (wrap64_small (sizeof_time_t + MAP_SIZE)) by zc.
  rewrite (wrap64_small (M_COM + M_DIV)) by zc.
  destruct (Z.ltb_spec (sizeof_time_t + MAP_SIZE) (M_COM + M_DIV)) as [Hlt|_]; [zc|].
  unfold gcount. cbn [f_len].
  replace (Z.max 0 (Z.min sizeof_time_t (sizeof_time_t + MAP_SIZE - 0)))
    with sizeof_time_t by zc.
  rewrite Z.eqb_refl.
  replace (Z.max 0 (Z.min (M_COM + M_DIV) (sizeof_time_t + MAP_SIZE - sizeof_time_t)))
    with MAP_SIZE by zc.
  eexists _, _. split; [reflexivity|].
  assert (Hm : forall a, 0 <= a < MAP_SIZE ->
            (if (0 <=? a) && (a <? MAP_SIZE)
             then (if sizeof_time_t + a <? sizeof_time_t then cur_time (sizeof_time_t + a)
                   else m (sizeof_time_t + a - sizeof_time_t))
             else m0 a) = m a).
  { intros a Ha. destruct (Z.leb_spec 0 a); [|lia]. destruct (Z.ltb_spec a MAP_SIZE); [|lia].
    cbn [andb]. destruct (Z.ltb_spec (sizeof_time_t + a) sizeof_time_t); [lia|].
    f_equal. lia. }
  split; [|split].
  - intros i Hi. cbv beta. destruct (Z.leb_spec 0 i); [|lia].
    destruct (Z.ltb_spec i sizeof_time_t); [|lia]. reflexivity.
  - exact Hm.
  - intros a. unfold map_rd.
    destruct ((0 <=? a) && (a <? MAP_SIZE)) eqn:E; [|reflexivity].
    apply andb_true_iff in E as [E1 E2]. f_equal.
    destruct (Z.ltb_spec (sizeof_time_t + a) sizeof_time_t); [lia|]. f_equal. lia.
Qed.

Lemma map_file_round_trip_witness :
  exists t' m',
    load_hash_map 8 (write_hash_map 8 true None (fun _ => 1) map_init)
                  (fun _ => 0) (fun _ => 0)
    = Ok (t', m') /\
    (forall i, 0 <= i < 8 -> t' i = 1) /\
    (forall a, 0 <= a < MAP_SIZE -> m' a = map_init a) /\
    (forall a, map_rd m' a = map_rd map_init a).
Proof.
  apply (map_file_round_trip 8 None (fun _ => 1) map_init (fun _ => 0) (fun _ => 0)).
  lia.
Defined.

(** X12: what [load_hash_map] checks. It exits with 26 without a file and
    with 27 exactly when the file is shorter than [M_COM + M_DIV] bytes,
    the size of the map alone. A file of at least that length whose setup
    time is complete is accepted also when it is shorter than setup time
    plus map: the slots from [length - sizeof(time_t)] on then keep what the
    fresh allocation held. *)
Theorem load_hash_map_checks (sizeof_time_t : Z) (f : file) (t0 : Z -> Z) (m0 : bytemap) :
  0 < sizeof_time_t <= MAP_SIZE -> 0 <= f_len f < 2 ^ 64 ->
  load_hash_map sizeof_time_t None t0 m0 = Err (ExitCode 26) /\
  (f_len f < MAP_SIZE <->
   load_hash_map sizeof_time_t (Some f) t0 m0 = Err (ExitCode 27)) /\
  (MAP_SIZE <= f_len f ->
   exists t' m',
     load_hash_map sizeof_time_t (Some f) t0 m0 = Ok (t', m') /\
     (forall a, 0 <= a < MAP_SIZE -> a < f_len f - sizeof_time_t ->
        m' a = f_at f (sizeof_time_t + a)) /\
     (forall a, f_len f - sizeof_time_t <= a -> m' a = m0 a)).
Proof.
  intros Hsz Hlen. split; [reflexivity|].
  unfold load_hash_map. cbv zeta.
  rewrite (wrap64_small (f_len f)) by lia.
  rewrite (wrap64_small (M_COM + M_DIV)) by zc.
  fold MAP_SIZE.
  destruct (Z.ltb_spec (f_len f) MAP_SIZE) as [Hlt|Hge].
  - split; [tauto|]. intros; lia.
  - split; [split; [lia|discriminate]|]. intros _.
    unfold gcount.
    replace (Z.max 0 (Z.min sizeof_time_t (f_len f - 0))) with sizeof_time_t by zc.
    rewrite Z.eqb_refl. eexists _, _. split; [reflexivity|]. split.
    + intros a Ha Hlt. cbv beta.
      destruct (Z.leb_spec 0 a); [|lia].
      destruct (Z.ltb_spec a (Z.max 0 (Z.min MAP_SIZE (f_len f - sizeof_time_t)))); [|lia].
      reflexivity.
    + intros a Ha. cbv beta.
      destruct (Z.ltb_spec a (Z.max 0 (Z.min MAP_SIZE (f_len f - sizeof_time_t)))); [lia|].
      rewrite andb_false_r. reflexivity.
Qed.

Lemma load_hash_map_checks_witness :
  load_hash_map 8 None (fun _ => 0) (fun _ => 0) = Err (ExitCode 26) /\
  (f_len (File MAP_SIZE (fun _ => 1)) < MAP_SIZE <->
   load_hash_map 8 (Some (File MAP_SIZE (fun _ => 1))) (fun _ => 0) (fun _ => 0)
   = Err (ExitCode 27)) /\
  (MAP_SIZE <= f_len (File MAP_SIZE (fun _ => 1)) ->
   exists t' m',
     load_hash_map 8 (Some (File MAP_SIZE (fun _ => 1))) (fun _ => 0) (fun _ => 0)
     = Ok (t', m') /\
     (forall a, 0 <= a < MAP_SIZE -> a < f_len (File MAP_SIZE (fun _ => 1)) - 8 ->
        m' a = f_at (File MAP_SIZE (fun _ => 1)) (8 + a)) /\
     (forall a, f_len (File MAP_SIZE (fun _ => 1)) - 8 <= a -> m' a = 0)).
Proof.
  apply (load_hash_map_checks 8 (File MAP_SIZE (fun _ => 1)) (fun _ => 0) (fun _ => 0)).
  - vm_compute. split; congruence.
  - vm_compute. split; congruence.
Defined.

(** ** master *)

Lemma take_wr_snoc (buffer : list Z) (i : Z) (v : Z) :
  0 <= i < len buffer ->
  take (Z.to_nat (i + 1)) (<[Z.to_nat i := v]> buffer)
  = take (Z.to_nat i) buffer ++ [v].
Proof.
  intros Hi. unfold len in Hi.
  replace (Z.to_nat (i + 1)) with (S (Z.to_nat i)) by lia.
  rewrite (take_S_r _ _ v).
  - rewrite take_insert_ge by lia. reflexivity.
  - apply list_lookup_insert_eq. lia.
Qed.

Lemma fmap_seqZ_join {A} (f : Z -> A) a b :
  0 <= a -> 0 <= b -> (f <$> seqZ 0 a) ++ (f <$> seqZ a b) = f <$> seqZ 0 (a + b).
Proof.
  intros Ha Hb. rewrite (seqZ_app 0 a b Ha Hb), fmap_app. reflexivity.
Qed.

Lemma master_loop (n : Z) (draw : Z -> Z) (buffer : list Z) :
  0 <= n -> len buffer = Master.BUFFER_SIZE ->
  exists buffer' i out,
    Master.generate n draw buffer
    = Ok (buffer', i, out) /\
    len buffer' = Master.BUFFER_SIZE /\
    i = n mod Master.BUFFER_SIZE /\
    out = (fun j => wrap8 (draw j)) <$> seqZ 0 (n - i) /\
    take (Z.to_nat i) buffer' = (fun j => wrap8 (draw j)) <$> seqZ (n - i) i.
Proof.
  intros Hn Hl. unfold Master.generate.
  pose (I := fun (j : Z) (st : list Z * Z * list Z) =>
    let '(b, i, out) := st in
    len b = Master.BUFFER_SIZE /\
    i = j mod Master.BUFFER_SIZE /\
    out = (fun j => wrap8 (draw j)) <$> seqZ 0 (j - i) /\
    take (Z.to_nat i) b = (fun j => wrap8 (draw j)) <$> seqZ (j - i) i).
  match goal with
  | |- exists b i out, for_range 0 n ?body ?st0 = _ /\ _ =>
      destruct (for_range_inv I 0 n body st0) as ([[b i] out] & Hrun & HI)
  end.
  - exact Hn.
  - unfold I. split; [exact Hl|]. split; [reflexivity|]. split; reflexivity.
  - intros j [[b i] out] Hj (Hlb & Hi & Hout & Hbuf).
    pose proof (Z.mod_pos_bound j Master.BUFFER_SIZE ltac:(reflexivity)) as Hib.
    rewrite <- Hi in Hib.
    assert (Hw : wr b i (wrap8 (draw j)) = Ok (<[Z.to_nat i := wrap8 (draw j)]> b))
      by (apply wr_ok; lia).
    rewrite Hw. cbn [bind]. cbv zeta.
    rewrite (wrap64_small (i + 1)) by (unfold Master.BUFFER_SIZE in *; lia).
    assert (Hlb' : len (<[Z.to_nat i := wrap8 (draw j)]> b) = Master.BUFFER_SIZE)
      by (rewrite (wr_len _ _ _ _ Hw); exact Hlb).
    assert (Htake : take (Z.to_nat (i + 1)) (<[Z.to_nat i := wrap8 (draw j)]> b)
                    = (fun j => wrap8 (draw j)) <$> seqZ (j - i) (i + 1)).
    { rewrite take_wr_snoc by lia. rewrite Hbuf.
      rewrite (seqZ_app (j - i) i 1) by lia. rewrite fmap_app.
      replace (j - i + i) with j by lia. reflexivity. }
    destruct (Z.eqb_spec (i + 1) Master.BUFFER_SIZE) as [E|Hne].
    + unfold Master.write. rewrite Hlb'.
      destruct (Z.leb_spec 0 Master.BUFFER_SIZE); [|discriminate].
      rewrite Z.leb_refl. cbn [andb bind].
      eexists. split; [reflexivity|]. unfold I.
      assert (Hm : (j + 1) mod Master.BUFFER_SIZE = 0).
      { replace (j + 1) with (i + 1 + (j - i)) by lia.
        rewrite E. rewrite (Z.div_mod j Master.BUFFER_SIZE) at 1 by discriminate.
        rewrite <- Hi.
        replace (Master.BUFFER_SIZE + (Master.BUFFER_SIZE * (j / Master.BUFFER_SIZE) + i - i))
          with ((1 + j / Master.BUFFER_SIZE) * Master.BUFFER_SIZE) by lia.
        apply Z_mod_mult. }
      split; [exact Hlb'|]. split; [symmetry; exact Hm|].
      split; [|reflexivity].
      rewrite Z.sub_0_r. rewrite <- E, Htake, Hout.
      rewrite fmap_seqZ_join.
      * do 2 f_equal. lia.
      * rewrite Hi. pose proof (Z.mod_le j Master.BUFFER_SIZE). lia.
      * lia.
    + eexists. split; [reflexivity|]. unfold I.
      assert (Hm : (j + 1) mod Master.BUFFER_SIZE = i + 1).
      { symmetry. apply (Z.mod_unique _ _ (j / Master.BUFFER_SIZE)); [lia|].
        pose proof (Z.div_mod j Master.BUFFER_SIZE ltac:(discriminate)). lia. }
      split; [exact Hlb'|]. split; [symmetry; exact Hm|].
      replace (j + 1 - (i + 1)) with (j - i) by lia.
      split; [exact Hout|exact Htake].
  - exists buffer', i, out. destruct HI as (H1 & H2 & H3 & H4). auto.
Qed.

(** X13: the file that master writes. With the output file open and the
    buffer allocated, [main] returns and the file holds exactly the [n] draws
    of the generator, in the order drawn, whether or not [n] is a multiple of
    [BUFFER_SIZE]: no byte is lost or written twice between two buffers, and
    nothing of what [malloc] returned reaches the file. A file that cannot
    be opened ends the program with 10, a failed [malloc] with 11. *)
Theorem master_writes_the_draws (n : Z) (draw : Z -> Z) (buffer : list Z) :
  0 <= n -> len buffer = Master.BUFFER_SIZE ->
  Master.main n draw true true buffer
  = Ok ((fun j => wrap8 (draw j)) <$> seqZ 0 n) /\
  (forall out, Master.main n draw true true buffer = Ok out -> len out = n) /\
  (forall malloc_ok, Master.main n draw false malloc_ok buffer = Err (ExitCode 10)) /\
  Master.main n draw true false buffer = Err (ExitCode 11).
Proof.
  intros Hn Hl.
  assert (Hmain : Master.main n draw true true buffer
                  = Ok ((fun j => wrap8 (draw j)) <$> seqZ 0 n)).
  { unfold Master.main. cbn [negb].
    destruct (master_loop n draw buffer Hn Hl) as (b & i & out & Hrun & Hlb & Hi & Hout & Hbuf).
    rewrite Hrun. cbn [bind].
    pose proof (Z.mod_pos_bound n Master.BUFFER_SIZE ltac:(reflexivity)) as Hib.
    rewrite <- Hi in Hib.
    destruct (Z.ltb_spec 0 i) as [Hpos|Hz].
    - unfold Master.write. rewrite Hlb.
      destruct (Z.leb_spec 0 i); [|lia]. destruct (Z.leb_spec i Master.BUFFER_SIZE); [|lia].
      cbn [andb]. rewrite Hbuf, Hout.
      rewrite fmap_seqZ_join.
      + do 3 f_equal. lia.
      + rewrite Hi. pose proof (Z.mod_le n Master.BUFFER_SIZE). lia.
      + lia.
    - rewrite Hout. do 3 f_equal. lia. }
  split; [exact Hmain|]. split; [|split; [intros; reflexivity|reflexivity]].
  intros out Ho. rewrite Hmain in Ho. injection Ho as <-.
  unfold len. rewrite length_fmap, length_seqZ. lia.
Qed.

Lemma master_writes_the_draws_witness :
  Master.main Master.N demo_draw true true (replicate (Z.to_nat Master.BUFFER_SIZE) 0)
  = Ok ((fun j => wrap8 (demo_draw j)) <$> seqZ 0 Master.N) /\
  (forall out,
     Master.main Master.N demo_draw true true (replicate (Z.to_nat Master.BUFFER_SIZE) 0)
     = Ok out -> len out = Master.N) /\
  (forall malloc_ok,
     Master.main Master.N demo_draw false malloc_ok (replicate (Z.to_nat Master.BUFFER_SIZE) 0)
     = Err (ExitCode 10)) /\
  Master.main Master.N demo_draw true false (replicate (Z.to_nat Master.BUFFER_SIZE) 0)
  = Err (ExitCode 11).
Proof.
  apply (master_writes_the_draws Master.N demo_draw
           (replicate (Z.to_nat Master.BUFFER_SIZE) 0)).
  - vm_compute. congruence.
  - unfold len. rewrite length_replicate. reflexivity.
Defined.

(** ** worker1: the string buffers *)

Lemma rd_insert_same {A} (l : list A) c x :
  0 <= c < len l -> rd (<[Z.to_nat c := x]> l) c = Ok x.
Proof. intros Hc. apply (rd_wr_same l _ c x). apply wr_ok, Hc. Qed.

Lemma rd_insert_other {A} (l : list A) c c' x :
  0 <= c < len l -> c <> c' -> rd (<[Z.to_nat c := x]> l) c' = rd l c'.
Proof. intros Hc Hne. apply (rd_wr_other l _ c c' x); [apply wr_ok, Hc|exact Hne]. Qed.

Lemma len_insert {A} (l : list A) i x : len (<[i := x]> l) = len l.
Proof. unfold len. rewrite length_insert. reflexivity. Qed.

Lemma wr2_insert bufs c b i v :
  0 <= c < len bufs -> 0 <= i < len b ->
  wr2 (<[Z.to_nat c := b]> bufs) c i v
  = Ok (<[Z.to_nat c := <[Z.to_nat i := v]> b]> bufs).
Proof.
  intros Hc Hi. unfold wr2. rewrite rd_insert_same by exact Hc. cbn [bind].
  rewrite (wr_ok b) by exact Hi. cbn [bind]. rewrite wr_ok.
  - rewrite list_insert_insert_eq. reflexivity.
  - rewrite len_insert. exact Hc.
Qed.

Lemma rd2_insert_same bufs c b i :
  0 <= c < len bufs -> rd2 (<[Z.to_nat c := b]> bufs) c i = rd b i.
Proof. intros Hc. unfold rd2. rewrite rd_insert_same by exact Hc. reflexivity. Qed.

Lemma rd2_insert_other bufs c c' b i :
  0 <= c < len bufs -> c <> c' ->
  rd2 (<[Z.to_nat c := b]> bufs) c' i = rd2 bufs c' i.
Proof. intros Hc Hne. unfold rd2. rewrite rd_insert_other by assumption. reflexivity. Qed.

(** A loop that works on container [c] only. *)
Lemma store_loop (P : Z -> list Z -> Prop) (bufs : list (list Z)) c lo hi
      (body : Z -> list (list Z) -> res (list (list Z))) st0 b :
  st0 = <[Z.to_nat c := b]> bufs -> lo <= hi -> P lo b ->
  (forall j b', lo <= j < hi -> P j b' ->
     exists b'', body j (<[Z.to_nat c := b']> bufs) = Ok (<[Z.to_nat c := b'']> bufs) /\
                 P (j + 1) b'') ->
  exists b', for_range lo hi body st0 = Ok (<[Z.to_nat c := b']> bufs) /\ P hi b'.
Proof.
  intros -> Hle H0 Hstep.
  destruct (for_range_inv
              (fun j st => exists b', st = <[Z.to_nat c := b']> bufs /\ P j b')
              lo hi body (<[Z.to_nat c := b]> bufs)) as (st & Hrun & b' & -> & HP).
  - exact Hle.
  - exists b. auto.
  - intros j s Hj (b' & -> & HP). destruct (Hstep j b' Hj HP) as (b'' & Hbody & HP').
    eexists. split; [exact Hbody|]. exists b''. auto.
  - exists b'. auto.
Qed.

Lemma bufs_ok_rd bufs c :
  bufs_ok bufs -> 0 <= c < 3 ->
  len bufs = 3 /\ exists b, rd bufs c = Ok b /\ len b = BUF_CTR_LEN.
Proof.
  intros [Hl Hall] Hc. split; [unfold len; lia|].
  destruct (rd_ok bufs c) as [b Hb]; [unfold len; lia|].
  exists b. split; [exact Hb|].
  apply rd_inv in Hb as [_ Hb]. exact (proj1 (Forall_lookup _ _) Hall _ _ Hb).
Qed.

Lemma bufs_ok_insert bufs c b :
  bufs_ok bufs -> len b = BUF_CTR_LEN -> bufs_ok (<[c := b]> bufs).
Proof.
  intros [Hl Hall] Hb. split; [rewrite length_insert; exact Hl|].
  apply Forall_insert; assumption.
Qed.

Lemma ctr_of_range batch_id : 0 <= ctr_of batch_id < 3.
Proof. unfold ctr_of. apply Z.mod_pos_bound. lia. Qed.

(** The carry: [for (i = 0; i < LC; i++) buffer[i] = carry_buffer[i];]. *)
Lemma carry_copy_spec bufs carry c bc :
  bufs_ok bufs -> 0 <= carry < 3 -> 0 <= c < 3 -> c <> carry ->
  rd bufs carry = Ok bc ->
  exists b,
    for_range 0 LC (fun i bufs =>
        v <- rd2 bufs carry (BATCH_SIZE + i) ;;
        wr2 bufs c i v) bufs
    = Ok (<[Z.to_nat c := b]> bufs) /\
    len b = BUF_CTR_LEN /\
    (forall i, 0 <= i < LC -> rd b i = rd bc (BATCH_SIZE + i)).
Proof.
  intros Hok Hcarry Hc Hne Hbc.
  destruct (bufs_ok_rd bufs c Hok Hc) as (Hl3 & b0 & Hb0 & Hlb0).
  destruct (bufs_ok_rd bufs carry Hok Hcarry) as (_ & bc' & Hbc' & Hlbc).
  rewrite Hbc in Hbc'. injection Hbc' as <-.
  assert (Hcl : 0 <= c < len bufs) by lia.
  assert (Hid : bufs = <[Z.to_nat c := b0]> bufs).
  { symmetry. apply list_insert_id. apply rd_inv in Hb0. apply Hb0. }
  pose (P1 := fun (i : Z) (b : list Z) =>
    len b = BUF_CTR_LEN /\ forall i', 0 <= i' < i -> rd b i' = rd bc (BATCH_SIZE + i')).
  apply (store_loop P1 bufs c 0 LC _ bufs b0 Hid).
  - zc.
  - split; [exact Hlb0|]. intros; lia.
  - intros i b' Hi (Hlb' & Hdone).
    rewrite rd2_insert_other by (try exact Hcl; exact Hne).
    unfold rd2 at 1. rewrite Hbc. cbn [bind].
    destruct (rd_ok bc (BATCH_SIZE + i) ltac:(zc)) as [v Hv]. rewrite Hv. cbn [bind].
    rewrite wr2_insert by (try exact Hcl; zc).
    eexists. split; [reflexivity|]. split; [rewrite len_insert; exact Hlb'|].
    intros i' Hi'. destruct (Z.eq_dec i' i) as [->|Hni].
    + rewrite rd_insert_same by zc. symmetry. exact Hv.
    + rewrite rd_insert_other by zc. apply Hdone. lia.
Qed.

Lemma worker1_block_spec demo zeroed file shuffle batch_id size bufs carry pos done bc :
  bufs_ok bufs -> 0 <= carry < 3 -> ctr_of batch_id <> carry ->
  0 <= size <= BATCH_SIZE -> 0 <= pos -> pos + size <= len file ->
  bytes file -> len shuffle = 256 ->
  demo_zeroes demo zeroed batch_id size ->
  rd bufs carry = Ok bc ->
  exists b,
    worker1_block demo file shuffle batch_id size (W1 bufs carry pos done)
    = Ok (W1 (<[Z.to_nat (ctr_of batch_id) := b]> bufs) (ctr_of batch_id)
             (pos + size) (done ++ [b])) /\
    len b = BUF_CTR_LEN /\
    (forall i, 0 <= i < LC -> rd b i = rd bc (BATCH_SIZE + i)) /\
    (forall j, 0 <= j < size ->
       rd b (LC + j)
       = Ok (if zeroed ((batch_id - 1) * BATCH_SIZE + j) then 0
             else byte_at shuffle (byte_at file (pos + j)))).
Proof.
  intros Hok Hcarry Hne Hsize Hpos Hfile Hbytes Hshuf Hdemo Hbc.
  pose proof (ctr_of_range batch_id) as Hc. set (c := ctr_of batch_id) in *.
  destruct (bufs_ok_rd bufs c Hok Hc) as (Hl3 & b0 & Hb0 & Hlb0).
  destruct (bufs_ok_rd bufs carry Hok Hcarry) as (_ & bc' & Hbc' & Hlbc).
  rewrite Hbc in Hbc'. injection Hbc' as <-.
  assert (Hcl : 0 <= c < len bufs) by lia.
  unfold worker1_block. cbn [w1_bufs w1_carry w1_pos w1_done]. fold c.
  assert (Hid : bufs = <[Z.to_nat c := b0]> bufs).
  { symmetry. apply list_insert_id. apply rd_inv in Hb0. apply Hb0. }
  (* the carry *)
  destruct (carry_copy_spec bufs carry c bc Hok Hcarry Hc Hne Hbc)
    as (b1 & Hrun1 & Hlb1 & Hc1).
  rewrite Hrun1. cbn [bind].
  destruct (Z.ltb_spec (len file) (pos + size)) as [Hshort|_]; [lia|].
  (* the read *)
  pose (P2 := fun (j : Z) (b : list Z) =>
    len b = BUF_CTR_LEN /\
    (forall i, 0 <= i < LC -> rd b i = rd bc (BATCH_SIZE + i)) /\
    forall j', 0 <= j' < j -> rd b (LC + j') = Ok (byte_at file (pos + j'))).
  match goal with
  | |- exists r, bind (for_range 0 size ?body _) _ = _ /\ _ =>
      destruct (store_loop P2 bufs c 0 size body _ b1 eq_refl)
        as (b2 & Hrun2 & Hlb2 & Hc2 & Hr2)
  end.
  { lia. }
  { split; [exact Hlb1|]. split; [exact Hc1|]. intros; lia. }
  { intros j b' Hj (Hlb' & Hcar & Hdone).
    rewrite (rd_byte_at file (pos + j)) by lia. cbn [bind].
    rewrite wr2_insert by (try exact Hcl; zc).
    eexists. split; [reflexivity|]. split; [rewrite len_insert; exact Hlb'|]. split.
    - intros i Hi. rewrite rd_insert_other by zc. apply Hcar, Hi.
    - intros j' Hj'. destruct (Z.eq_dec j' j) as [->|Hnj].
      + rewrite rd_insert_same by zc. reflexivity.
      + rewrite rd_insert_other by zc. apply Hdone. lia. }
  rewrite Hrun2. cbn [bind].
  (* the shuffle *)
  pose (P3 := fun (j : Z) (b : list Z) =>
    len b = BUF_CTR_LEN /\
    (forall i, 0 <= i < LC -> rd b i = rd bc (BATCH_SIZE + i)) /\
    (forall j', 0 <= j' < j ->
       rd b (LC + j') = Ok (byte_at shuffle (byte_at file (pos + j')))) /\
    forall j', j <= j' < size -> rd b (LC + j') = Ok (byte_at file (pos + j'))).
  match goal with
  | |- exists r, bind (for_range 0 size ?body _) _ = _ /\ _ =>
      destruct (store_loop P3 bufs c 0 size body _ b2 eq_refl)
        as (b3 & Hrun3 & Hlb3 & Hc3 & Hr3 & _)
  end.
  { lia. }
  { split; [exact Hlb2|]. split; [exact Hc2|]. split; [intros; lia|].
    intros j' Hj'. apply Hr2. lia. }
  { intros j b' Hj (Hlb' & Hcar & Hdone & Htodo).
    rewrite rd2_insert_same by exact Hcl. rewrite (Htodo j) by lia. cbn [bind].
    pose proof (byte_at_range file (pos + j) Hbytes) as Hx.
    rewrite (rd_byte_at shuffle (byte_at file (pos + j))) by lia. cbn [bind].
    rewrite wr2_insert by (try exact Hcl; zc).
    eexists. split; [reflexivity|]. split; [rewrite len_insert; exact Hlb'|]. split.
    - intros i Hi. rewrite rd_insert_other by zc. apply Hcar, Hi.
    - split.
      + intros j' Hj'. destruct (Z.eq_dec j' j) as [->|Hnj].
        * rewrite rd_insert_same by zc. reflexivity.
        * rewrite rd_insert_other by zc. apply Hdone. lia.
      + intros j' Hj'. rewrite rd_insert_other by zc. apply Htodo. lia. }
  rewrite Hrun3. cbn [bind].
  (* the demo-string hook *)
  destruct (Hdemo (<[Z.to_nat c := b3]> bufs) c b3) as (b4 & Hd & Hlb4 & Hc4 & Hr4).
  { apply rd_insert_same, Hcl. }
  { exact Hlb3. }
  rewrite Hd. cbn [bind]. rewrite list_insert_insert_eq.
  rewrite rd_insert_same by exact Hcl. cbn [bind].
  exists b4. split; [reflexivity|]. split; [exact Hlb4|]. split.
  - intros i Hi. rewrite (Hc4 i Hi). apply Hc3, Hi.
  - intros j Hj. rewrite (Hr4 j Hj).
    destruct (zeroed ((batch_id - 1) * BATCH_SIZE + j)); [reflexivity|]. apply Hr3, Hj.
Qed.

(** The state of worker1 after [k] full batches. *)
Lemma ctr_of_succ (k : Z) : ctr_of (k + 1) = k mod 3 /\ k mod 3 <> (k - 1) mod 3.
Proof.
  unfold ctr_of. replace (k + 1 - 1) with k by lia. split; [reflexivity|].
  Z.div_mod_to_equations. lia.
Qed.

Lemma w1_fold demo zeroed file shuffle start (sizes : list Z) :
  bytes file -> len shuffle = 256 -> 0 <= start ->
  forall (k : nat) bufs carry pos done bc,
    bufs_ok bufs -> pos = start + Z.of_nat k * BATCH_SIZE ->
    carry = (Z.of_nat k - 1) mod 3 -> rd bufs carry = Ok bc ->
    (forall i, 0 <= i < LC ->
       rd bc (BATCH_SIZE + i)
       = Ok (if Nat.eqb k 0 then 0
             else stream_byte start zeroed file shuffle
                    (Z.of_nat k * BATCH_SIZE + i - LC))) ->
    (forall (i : nat) sz, sizes !! i = Some sz ->
       0 < sz <= BATCH_SIZE /\
       (S i < length sizes -> sz = BATCH_SIZE)%nat /\
       demo_zeroes demo zeroed (Z.of_nat (k + i) + 1) sz) ->
    pos + foldr Z.add 0 sizes <= len file ->
    exists st' bs,
      fold_batches (worker1_block demo file shuffle) (Z.of_nat k + 1) sizes
                   (W1 bufs carry pos done) = Ok st' /\
      w1_done st' = done ++ bs /\ length bs = length sizes /\
      (forall (i : nat) sz, sizes !! i = Some sz ->
         exists b, bs !! i = Some b /\
                   window (stream_byte start zeroed file shuffle) (k + i) sz b).
Proof.
  intros Hbytes Hshuf Hstart.
  induction sizes as [|sz rest IH];
    intros k bufs carry pos done bc Hok Hpos Hcarry Hbc Hcb Hsizes Hfile.
  - exists (W1 bufs carry pos done), []. split; [reflexivity|].
    split; [cbn [w1_done]; rewrite app_nil_r; reflexivity|]. split; [reflexivity|].
    intros i sz Hi. rewrite lookup_nil in Hi. discriminate.
  - cbn [fold_batches foldr] in *.
    destruct (Hsizes 0%nat sz eq_refl) as (Hsz & Hfull & Hdemo).
    rewrite Nat.add_0_r in Hdemo.
    destruct (ctr_of_succ (Z.of_nat k)) as [Hc Hne].
    assert (Hrest0 : 0 <= foldr Z.add 0 rest).
    { assert (Hall : forall (i : nat) x, rest !! i = Some x -> 0 <= x).
      { intros i x Hi. destruct (Hsizes (S i) x Hi) as (H & _). lia. }
      clear -Hall. induction rest as [|x rest IHr]; [cbn; lia|].
      cbn [foldr]. pose proof (Hall 0%nat x eq_refl).
      assert (0 <= foldr Z.add 0 rest) by (apply IHr; intros i y Hi; apply (Hall (S i) y Hi)).
      lia. }
    destruct (worker1_block_spec demo zeroed file shuffle (Z.of_nat k + 1) sz
                bufs carry pos done bc) as (b & Hblock & Hlb & Hcar & Hin);
      try assumption.
    { rewrite Hcarry. apply Z.mod_pos_bound. lia. }
    { rewrite Hc, Hcarry. exact Hne. }
    { lia. }
    { zc. }
    { lia. }
    rewrite Hblock. cbn [bind]. rewrite Hc.
    assert (Hwin : window (stream_byte start zeroed file shuffle) (k + 0) sz b).
    { split; [exact Hlb|]. intros p Hp. rewrite Nat.add_0_r.
      destruct (Z.ltb_spec p LC) as [Hlt|Hge].
      - rewrite (Hcar p) by lia. rewrite (Hcb p) by lia.
        rewrite andb_true_r. reflexivity.
      - rewrite andb_false_r.
        replace p with (LC + (p - LC)) at 1 by lia. rewrite (Hin (p - LC)) by lia.
        f_equal. unfold stream_byte.
        replace (Z.of_nat k + 1 - 1) with (Z.of_nat k) by lia.
        replace (Z.of_nat k * BATCH_SIZE + p - LC)
          with (Z.of_nat k * BATCH_SIZE + (p - LC)) by lia.
        destruct (zeroed _); [reflexivity|]. do 2 f_equal. lia. }
    destruct rest as [|sz' rest'].
    + exists (W1 (<[Z.to_nat (Z.of_nat k mod 3) := b]> bufs) (Z.of_nat k mod 3)
                 (pos + sz) (done ++ [b])), [b].
      split; [reflexivity|]. split; [reflexivity|]. split; [reflexivity|].
      intros i sz0 Hi. destruct i as [|i]; [|destruct i; discriminate Hi].
      injection Hi as <-. exists b. split; [reflexivity|exact Hwin].
    + assert (Hszf : sz = BATCH_SIZE) by (apply Hfull; cbn [length]; lia).
      pose proof (Z.mod_pos_bound (Z.of_nat k) 3 ltac:(lia)) as Hcr.
      assert (Hl3 : len bufs = 3) by (destruct Hok as [H _]; unfold len; lia).
      destruct (IH (S k) (<[Z.to_nat (Z.of_nat k mod 3) := b]> bufs) (Z.of_nat k mod 3)
                   (pos + sz) (done ++ [b]) b) as (st' & bs & Hfold & Hdone & Hlen & Hw).
      * apply bufs_ok_insert; assumption.
      * lia.
      * f_equal. lia.
      * apply rd_insert_same. lia.
      * intros i Hi. cbn [Nat.eqb].
        replace (BATCH_SIZE + i) with (LC + (BATCH_SIZE - LC + i)) by lia.
        rewrite (Hin (BATCH_SIZE - LC + i)) by zc.
        f_equal. unfold stream_byte.
        replace (Z.of_nat k + 1 - 1) with (Z.of_nat k) by lia.
        replace (Z.of_nat (S k) * BATCH_SIZE + i - LC)
          with (Z.of_nat k * BATCH_SIZE + (BATCH_SIZE - LC + i)) by lia.
        destruct (zeroed _); [reflexivity|]. do 2 f_equal. lia.
      * intros i x Hi. destruct (Hsizes (S i) x Hi) as (H1 & H2 & H3).
        split; [exact H1|]. split.
        -- intros Hlt. apply H2. cbn [length] in *. lia.
        -- replace (Z.of_nat (S k + i)) with (Z.of_nat (k + S i)) by lia. exact H3.
      * cbn [foldr] in *. lia.
      * replace (Z.of_nat k + 1 + 1) with (Z.of_nat (S k) + 1) by lia.
        exists st', (b :: bs). split; [exact Hfold|].
        split; [rewrite Hdone, <- app_assoc; reflexivity|].
        split; [cbn [length]; rewrite Hlen; reflexivity|].
        intros i x Hi. destruct i as [|i].
        -- injection Hi as <-. exists b. split; [reflexivity|exact Hwin].
        -- destruct (Hw i x Hi) as (b' & Hb' & Hw').
           exists b'. split; [exact Hb'|].
           replace (k + S i)%nat with (S k + i)%nat by lia. exact Hw'.
Qed.

(** *** The demo-string hooks *)

Lemma zero_loop bufs c b st0 lo hi (pos : Z -> Z) :
  st0 = <[Z.to_nat c := b]> bufs -> 0 <= c < len bufs -> lo <= hi ->
  (forall j, lo <= j < hi -> 0 <= pos j < len b) ->
  exists b',
    for_range lo hi (fun j bufs => wr2 bufs c (pos j) 0) st0
    = Ok (<[Z.to_nat c := b']> bufs) /\
    len b' = len b /\
    (forall p, (exists j, lo <= j < hi /\ pos j = p) -> rd b' p = Ok 0) /\
    (forall p, (forall j, lo <= j < hi -> pos j <> p) -> rd b' p = rd b p).
Proof.
  intros Hst Hc Hle Hpos.
  pose (P := fun (j : Z) (b' : list Z) =>
    len b' = len b /\
    (forall p, (exists j', lo <= j' < j /\ pos j' = p) -> rd b' p = Ok 0) /\
    (forall p, (forall j', lo <= j' < j -> pos j' <> p) -> rd b' p = rd b p)).
  apply (store_loop P bufs c lo hi _ st0 b Hst Hle).
  - split; [reflexivity|]. split; [|reflexivity].
    intros p (j' & Hj' & _). lia.
  - intros j b' Hj (Hlb' & Hz & Hs).
    pose proof (Hpos j Hj) as Hpj.
    rewrite wr2_insert by (try exact Hc; lia).
    eexists. split; [reflexivity|]. split; [rewrite len_insert; exact Hlb'|]. split.
    + intros p (j' & Hj' & Hp). destruct (Z.eq_dec (pos j) p) as [<-|Hne].
      * apply rd_insert_same. lia.
      * rewrite rd_insert_other by (try lia; exact Hne).
        apply Hz. exists j'. split; [|exact Hp].
        destruct (Z.eq_dec j' j) as [->|]; [congruence|lia].
    + intros p Hp. rewrite rd_insert_other by (try lia; apply Hp; lia).
      apply Hs. intros j' Hj'. apply Hp. lia.
Qed.

Lemma store_id (bufs : list (list Z)) c b :
  rd bufs c = Ok b -> 0 <= c < len bufs /\ bufs = <[Z.to_nat c := b]> bufs.
Proof.
  intros Hb. apply rd_inv in Hb as [Hc Hb]. split; [exact Hc|].
  symmetry. apply list_insert_id, Hb.
Qed.

Lemma scatter_demo_zeroes n batch_id sz :
  1 <= batch_id -> 0 <= sz <= BATCH_SIZE ->
  demo_zeroes (scatter_demo n) (scatter_zeroed n) batch_id sz.
Proof.
  intros Hid Hsz bufs c b Hb Hlb. destruct (store_id bufs c b Hb) as [Hc Hst].
  unfold scatter_demo, scatter_zeroed. cbv zeta.
  set (d := wrap32 (n / BATCH_SIZE) / 2).
  destruct (Z.eqb_spec batch_id d) as [E|Hne].
  - destruct (zero_loop bufs c b bufs 0 20 (fun j => LC + j) Hst Hc ltac:(lia))
      as (b' & Hrun & Hlb' & Hz & Hs).
    { intros j Hj. zc. }
    exists b'. split; [exact Hrun|]. split; [lia|]. split.
    + intros i Hi. apply Hs. intros j Hj. lia.
    + intros j Hj. rewrite <- E.
      destruct (Z.leb_spec 1 batch_id); [|lia].
      destruct (Z.leb_spec ((batch_id - 1) * BATCH_SIZE) ((batch_id - 1) * BATCH_SIZE + j));
        [|lia].
      cbn [andb].
      destruct (Z.ltb_spec ((batch_id - 1) * BATCH_SIZE + j) ((batch_id - 1) * BATCH_SIZE + 20)).
      * apply Hz. exists j. split; lia.
      * apply Hs. intros j' Hj'. lia.
  - exists b. split; [rewrite <- Hst; reflexivity|]. split; [exact Hlb|].
    split; [reflexivity|]. intros j Hj.
    destruct (Z.leb_spec 1 d); [|reflexivity].
    destruct (Z.leb_spec ((d - 1) * BATCH_SIZE) ((batch_id - 1) * BATCH_SIZE + j));
      [|reflexivity].
    destruct (Z.ltb_spec ((batch_id - 1) * BATCH_SIZE + j) ((d - 1) * BATCH_SIZE + 20));
      [|reflexivity].
    exfalso. zc.
Qed.


(** *** The whole run of worker1 *)

Lemma plan_sizes_at n (k : Z) :
  0 < n < 2 ^ 32 -> 0 <= k < batch_count (worker_plan n) ->
  plan_sizes (worker_plan n) !! Z.to_nat k
  = Some (if k + 1 <? batch_count (worker_plan n) then BATCH_SIZE
          else last_batch_size (worker_plan n)).
Proof.
  intros Hn Hk. unfold plan_sizes.
  destruct (Z.ltb_spec (k + 1) (batch_count (worker_plan n))) as [Hlt|Hge].
  - rewrite lookup_app_l by (rewrite length_replicate; lia).
    apply lookup_replicate_2. lia.
  - rewrite lookup_app_r by (rewrite length_replicate; lia).
    rewrite length_replicate.
    replace (Z.to_nat k - Z.to_nat (batch_count (worker_plan n) - 1))%nat with 0%nat by lia.
    reflexivity.
Qed.

Lemma plan_sizes_length n :
  0 < n < 2 ^ 32 ->
  Z.of_nat (length (plan_sizes (worker_plan n))) = batch_count (worker_plan n).
Proof.
  intros Hn. destruct (worker_plan_spec n Hn) as (Hbc & _).
  unfold plan_sizes. rewrite length_app, length_replicate. cbn [length]. lia.
Qed.

Lemma worker1_spec start n needed demo zeroed file shuffle bufs :
  0 < n < 2 ^ 32 -> 0 <= start -> needed <= len file -> start + n <= len file ->
  len file < 2 ^ 64 ->
  bytes file -> len shuffle = 256 -> bufs_ok bufs ->
  (forall (k : nat) sz, plan_sizes (worker_plan n) !! k = Some sz ->
     demo_zeroes demo zeroed (Z.of_nat k + 1) sz) ->
  exists st,
    worker1 start n needed demo (Some file) shuffle bufs = Ok st /\
    len (w1_done st) = main_batch_count n /\
    (forall (k : nat) sz, plan_sizes (worker_plan n) !! k = Some sz ->
       exists b, w1_done st !! k = Some b /\
                 window (stream_byte start zeroed file shuffle) k sz b).
Proof.
  intros Hn Hstart Hneed Hfile H64 Hbytes Hshuf Hok Hdemo.
  unfold worker1. cbv zeta. cbn [default]. pose proof (len_nonneg file) as Hl0.
  rewrite (wrap64_small (len file)) by lia.
  destruct (Z.ltb_spec (len file) needed) as [Hlt|_]; [lia|].
  destruct (bufs_ok_rd bufs 2 Hok ltac:(lia)) as (Hl3 & b0 & Hb0 & Hlb0).
  destruct (store_id bufs 2 b0 Hb0) as [Hc Hst].
  destruct (zero_loop bufs 2 b0 bufs 0 LC (fun j => BATCH_SIZE + j) Hst Hc ltac:(zc))
    as (b1 & Hrun & Hlb1 & Hz & _).
  { intros j Hj. zc. }
  rewrite Hrun. cbn [bind]. rewrite run_worker_spec by exact Hn.
  destruct (w1_fold demo zeroed file shuffle start (plan_sizes (worker_plan n))
              Hbytes Hshuf Hstart 0%nat (<[Z.to_nat 2 := b1]> bufs) 2 start [] b1)
    as (st & bs & Hfold & Hdone & Hlen & Hw).
  - apply bufs_ok_insert; [exact Hok|lia].
  - lia.
  - reflexivity.
  - apply rd_insert_same. lia.
  - intros i Hi. cbn [Nat.eqb]. apply Hz. exists i. split; [lia|reflexivity].
  - intros i sz Hi. destruct (plan_sizes_lookup n i sz Hn Hi) as (H1 & H2 & _).
    split; [exact H1|]. split.
    + intros Hlt. apply H2. pose proof (plan_sizes_length n Hn). lia.
    + cbn [Nat.add]. apply Hdemo, Hi.
  - rewrite plan_sizes_sum by exact Hn. exact Hfile.
  - exists st. split; [exact Hfold|]. split.
    + rewrite Hdone. cbn [app]. unfold len. rewrite Hlen.
      rewrite plan_sizes_length by exact Hn.
      destruct (worker_plan_spec n Hn) as (_ & _ & Hm & _). exact Hm.
    + intros k sz Hk. destruct (Hw k sz Hk) as (b & Hb & Hwin).
      exists b. rewrite Hdone. split; [exact Hb|exact Hwin].
Qed.

(** Every [L] consecutive bytes of the stream are one shingle of one buffer. *)
Lemma windows_cover (T : Z -> Z) n (bs : list (list Z)) :
  0 < n < 2 ^ 32 ->
  (forall (k : nat) sz, plan_sizes (worker_plan n) !! k = Some sz ->
     exists b, bs !! k = Some b /\ window T k sz b) ->
  forall g, 0 <= g -> g + L <= n ->
    exists b,
      bs !! Z.to_nat ((g + LC) / BATCH_SIZE) = Some b /\
      shingle b ((g + LC) mod BATCH_SIZE) = (fun i => T (g + i)) <$> seqZ 0 L.
Proof.
  intros Hn Hw g Hg HgL.
  destruct (worker_plan_spec n Hn) as (Hbc & Hlast & _ & _ & Hsum).
  set (K := (g + LC) / BATCH_SIZE). set (j := (g + LC) mod BATCH_SIZE).
  pose proof (Z.div_mod (g + LC) BATCH_SIZE ltac:(discriminate)) as Hdm.
  pose proof (Z.mod_pos_bound (g + LC) BATCH_SIZE ltac:(reflexivity)) as Hj.
  fold K j in Hdm, Hj.
  assert (HK0 : 0 <= K) by (apply Z.div_pos; zc).
  assert (HK : K < batch_count (worker_plan n)).
  { destruct (Z.lt_ge_cases K (batch_count (worker_plan n))) as [H|H]; [exact H|].
    exfalso. assert (batch_count (worker_plan n) * BATCH_SIZE <= K * BATCH_SIZE)
      by (apply Z.mul_le_mono_nonneg_r; zc).
    zc. }
  pose proof (plan_sizes_at n K Hn ltac:(lia)) as Hat.
  destruct (Hw _ _ Hat) as (b & Hb & Hlb & Hwin).
  exists b. split; [exact Hb|].
  assert (Hjs : j + L <= LC + (if K + 1 <? batch_count (worker_plan n) then BATCH_SIZE
                               else last_batch_size (worker_plan n))).
  { destruct (Z.ltb_spec (K + 1) (batch_count (worker_plan n))) as [Hlt|Hge]; [zc|].
    assert (K = batch_count (worker_plan n) - 1) by lia. subst K. zc. }
  unfold shingle. apply list_fmap_ext. intros i x Hx.
  apply lookup_seqZ in Hx as [-> Hi]. rewrite Z.add_0_l.
  set (p := j + Z.of_nat i).
  assert (Hp : 0 <= p < LC + (if K + 1 <? batch_count (worker_plan n) then BATCH_SIZE
                              else last_batch_size (worker_plan n))) by (unfold p; lia).
  specialize (Hwin p Hp). apply rd_inv in Hwin as [_ Hwin].
  unfold byte_at. rewrite Hwin. cbn [default].
  rewrite Z2Nat.id by lia.
  replace (K * BATCH_SIZE + p - LC) with (g + Z.of_nat i) by (unfold p; lia).
  destruct (Nat.eqb_spec (Z.to_nat K) 0) as [E|_]; [|reflexivity].
  assert (K = 0) by lia. destruct (Z.ltb_spec p LC); [|reflexivity].
  exfalso. unfold p in *. lia.
Qed.

(** And every shingle that worker3 takes from a buffer is [L] consecutive
    bytes of the stream. *)
Lemma window_shingle (T : Z -> Z) (k : nat) sz b j :
  window T k sz b -> (if Nat.eqb k 0 then LC else 0) <= j < sz ->
  shingle b j = (fun i => T (Z.of_nat k * BATCH_SIZE + j - LC + i)) <$> seqZ 0 L.
Proof.
  intros [Hlb Hwin] Hj. unfold shingle. apply list_fmap_ext. intros i x Hx.
  apply lookup_seqZ in Hx as [-> Hi]. rewrite Z.add_0_l.
  assert (Hp : 0 <= j + Z.of_nat i < LC + sz) by (destruct (Nat.eqb k 0); zc).
  specialize (Hwin _ Hp). apply rd_inv in Hwin as [_ Hwin].
  unfold byte_at. rewrite Hwin. cbn [default].
  replace (Z.of_nat k * BATCH_SIZE + (j + Z.of_nat i) - LC)
    with (Z.of_nat k * BATCH_SIZE + j - LC + Z.of_nat i) by lia.
  destruct (Nat.eqb k 0); [|reflexivity].
  destruct (Z.ltb_spec (j + Z.of_nat i) LC); [lia|reflexivity].
Qed.

(** X14: worker1 of scatter hands on the reference stream without a gap.
    With a master file of at least [ns] bytes it returns after its last
    batch, one buffer per batch; buffer [k] holds the last [LC] bytes of
    buffer [k - 1] (in the first one, the artificial carry of zeros) and then
    its [batch_size] bytes of the stream, where byte [i] of the stream is the
    shuffled byte [i] of the file, or [0] in the twenty places of the
    demo-string. So every [L] consecutive bytes of the stream, also those
    across a batch boundary, are one shingle of one buffer, and the shingles
    that worker3 takes (all but the first [LC] of the first buffer) are
    nothing else. *)
Theorem scatter_worker1_stream (ns : Z) (file shuffle : list Z) (bufs : list (list Z)) :
  0 < ns < 2 ^ 32 -> ns <= len file < 2 ^ 64 -> bytes file -> len shuffle = 256 ->
  bufs_ok bufs ->
  exists st,
    scatter_worker1 ns (Some file) shuffle bufs = Ok st /\
    len (w1_done st) = main_batch_count ns /\
    (forall (k : nat) sz, plan_sizes (worker_plan ns) !! k = Some sz ->
       exists b, w1_done st !! k = Some b /\
                 window (stream_byte 0 (scatter_zeroed ns) file shuffle) k sz b) /\
    (forall g, 0 <= g -> g + L <= ns ->
       exists b,
         w1_done st !! Z.to_nat ((g + LC) / BATCH_SIZE) = Some b /\
         shingle b ((g + LC) mod BATCH_SIZE)
         = (fun i => stream_byte 0 (scatter_zeroed ns) file shuffle (g + i)) <$> seqZ 0 L) /\
    (forall (k : nat) sz b j,
       plan_sizes (worker_plan ns) !! k = Some sz -> w1_done st !! k = Some b ->
       (if Nat.eqb k 0 then LC else 0) <= j < sz ->
       shingle b j
       = (fun i => stream_byte 0 (scatter_zeroed ns) file shuffle
                     (Z.of_nat k * BATCH_SIZE + j - LC + i)) <$> seqZ 0 L).
Proof.
  intros Hn Hfile Hbytes Hshuf Hok. unfold scatter_worker1.
  destruct (worker1_spec 0 ns ns (scatter_demo ns) (scatter_zeroed ns) file shuffle bufs)
    as (st & Hrun & Hlen & Hw); try assumption; try lia.
  { intros k sz Hk. destruct (plan_sizes_lookup ns k sz Hn Hk) as (H1 & _).
    apply scatter_demo_zeroes; lia. }
  exists st. split; [exact Hrun|]. split; [exact Hlen|]. split; [exact Hw|].
  split; [apply (windows_cover _ ns (w1_done st) Hn Hw)|].
  intros k sz b j Hk Hb Hj. destruct (Hw k sz Hk) as (b' & Hb' & Hwin).
  rewrite Hb in Hb'. injection Hb' as <-. apply (window_shingle _ k sz b j Hwin Hj).
Qed.

Lemma scatter_worker1_stream_witness :
  exists st,
    scatter_worker1 20000 (Some (replicate (Z.to_nat 20000) 7)) (replicate 256 9)
                    (replicate 3 (replicate (Z.to_nat BUF_CTR_LEN) 0)) = Ok st /\
    len (w1_done st) = main_batch_count 20000 /\
    (forall (k : nat) sz, plan_sizes (worker_plan 20000) !! k = Some sz ->
       exists b, w1_done st !! k = Some b /\
                 window (stream_byte 0 (scatter_zeroed 20000) (replicate (Z.to_nat 20000) 7)
                                     (replicate 256 9)) k sz b) /\
    (forall g, 0 <= g -> g + L <= 20000 ->
       exists b,
         w1_done st !! Z.to_nat ((g + LC) / BATCH_SIZE) = Some b /\
         shingle b ((g + LC) mod BATCH_SIZE)
         = (fun i => stream_byte 0 (scatter_zeroed 20000) (replicate (Z.to_nat 20000) 7)
                                 (replicate 256 9) (g + i)) <$> seqZ 0 L) /\
    (forall (k : nat) sz b j,
       plan_sizes (worker_plan 20000) !! k = Some sz -> w1_done st !! k = Some b ->
       (if Nat.eqb k 0 then LC else 0) <= j < sz ->
       shingle b j
       = (fun i => stream_byte 0 (scatter_zeroed 20000) (replicate (Z.to_nat 20000) 7)
                     (replicate 256 9) (Z.of_nat k * BATCH_SIZE + j - LC + i))
           <$> seqZ 0 L).
Proof.
  apply (scatter_worker1_stream 20000 (replicate (Z.to_nat 20000) 7) (replicate 256 9)
                                (replicate 3 (replicate (Z.to_nat BUF_CTR_LEN) 0))).
  - lia.
  - unfold len. rewrite length_replicate. lia.
  - apply Forall_replicate. lia.
  - reflexivity.
  - split; [reflexivity|]. apply Forall_replicate. reflexivity.
Defined.



Lemma plan_sizes_first n :
  0 < n < 2 ^ 32 ->
  exists sz rest, plan_sizes (worker_plan n) = sz :: rest /\ 0 < sz.
Proof.
  intros Hn. destruct (worker_plan_spec n Hn) as (_ & Hlast & _).
  unfold plan_sizes. destruct (Z.to_nat (batch_count (worker_plan n) - 1)) as [|k].
  - eexists _, _. split; [reflexivity|]. lia.
  - eexists _, _. split; [reflexivity|]. reflexivity.
Qed.

(** X16: a master file that cannot be opened. worker1 only reports it and
    goes on: [tellg()] is [-1], which as [uint64_t] is not below the length
    the check asks for, so [exit(12)] is not taken; the first block then
    reads nothing and the program ends with the short-read code of
    container A, 14, in scatter and in gather. *)
Theorem worker1_master_file_missing (start n needed : Z)
        (demo : Z -> Z -> list (list Z) -> Z -> res (list (list Z)))
        (shuffle : list Z) (bufs : list (list Z)) (ns NS : Z) :
  0 < n < 2 ^ 32 -> 0 <= start -> needed < 2 ^ 64 -> bufs_ok bufs ->
  worker1 start n needed demo None shuffle bufs = Err (ExitCode 14) /\
  (0 < ns < 2 ^ 32 -> scatter_worker1 ns None shuffle bufs = Err (ExitCode 14)) /\
  (0 <= ns -> L <= NS < 2 ^ 32 ->
   gather_worker1 ns NS None shuffle bufs = Err (ExitCode 14)).
Proof.
  intros Hn Hstart Hneed Hok.
  assert (Hgen : forall start n needed demo,
            0 < n < 2 ^ 32 -> 0 <= start -> needed < 2 ^ 64 ->
            worker1 start n needed demo None shuffle bufs = Err (ExitCode 14)).
  { clear -Hok. intros start n needed demo Hn Hstart Hneed.
    unfold worker1. cbv zeta. cbn [default].
    change (wrap64 (-1)) with (2 ^ 64 - 1).
    destruct (Z.ltb_spec (2 ^ 64 - 1) needed) as [Hlt|_]; [lia|].
    destruct (bufs_ok_rd bufs 2 Hok ltac:(lia)) as (Hl3 & b0 & Hb0 & Hlb0).
    destruct (store_id bufs 2 b0 Hb0) as [Hc Hst].
    destruct (zero_loop bufs 2 b0 bufs 0 LC (fun j => BATCH_SIZE + j) Hst Hc ltac:(zc))
      as (b1 & Hrun & Hlb1 & _).
    { intros j Hj. zc. }
    rewrite Hrun. cbn [bind]. rewrite run_worker_spec by exact Hn.
    destruct (plan_sizes_first n Hn) as (sz & rest & -> & Hsz0).
    cbn [fold_batches]. unfold worker1_block at 1.
    cbn [w1_bufs w1_carry w1_pos w1_done].
    assert (Hok1 : bufs_ok (<[Z.to_nat 2 := b1]> bufs))
      by (apply bufs_ok_insert; [exact Hok|lia]).
    destruct (carry_copy_spec (<[Z.to_nat 2 := b1]> bufs) 2 (ctr_of 1) b1 Hok1)
      as (b2 & Hrun2 & _); try lia.
    { vm_compute. split; congruence. }
    { vm_compute. congruence. }
    { apply rd_insert_same. lia. }
    rewrite Hrun2. cbn [bind].
    change (len []) with 0.
    destruct (Z.ltb_spec 0 (start + sz)) as [_|Hge]; [|lia].
    reflexivity. }
  split; [apply Hgen; assumption|]. split.
  - intros Hns. unfold scatter_worker1. apply Hgen; lia.
  - intros Hns HNS. unfold gather_worker1.
    pose proof (N_of_small NS HNS) as HN.
    apply Hgen; [zc|lia|apply Z.mod_pos_bound; lia].
Qed.

Lemma worker1_master_file_missing_witness :
  worker1 0 20000 20000 (scatter_demo 20000) None (replicate 256 9)
          (replicate 3 (replicate (Z.to_nat BUF_CTR_LEN) 0)) = Err (ExitCode 14) /\
  (0 < 20000 < 2 ^ 32 ->
   scatter_worker1 20000 None (replicate 256 9)
                   (replicate 3 (replicate (Z.to_nat BUF_CTR_LEN) 0))
   = Err (ExitCode 14)) /\
  (0 <= 20000 -> L <= 20000 < 2 ^ 32 ->
   gather_worker1 20000 20000 None (replicate 256 9)
                  (replicate 3 (replicate (Z.to_nat BUF_CTR_LEN) 0))
   = Err (ExitCode 14)).
Proof.
  apply (worker1_master_file_missing 0 20000 20000 (scatter_demo 20000) (replicate 256 9)
           (replicate 3 (replicate (Z.to_nat BUF_CTR_LEN) 0)) 20000 20000).
  - lia.
  - lia.
  - lia.
  - split; [reflexivity|]. apply Forall_replicate. reflexivity.
Defined.

(** ** The scheduler *)

Lemma ctr_cases (t : Z) :
  (ctr_of t = 0 /\ ctr_of (t - 1) = 2 /\ ctr_of (t - 2) = 1) \/
  (ctr_of t = 1 /\ ctr_of (t - 1) = 0 /\ ctr_of (t - 2) = 2) \/
  (ctr_of t = 2 /\ ctr_of (t - 1) = 1 /\ ctr_of (t - 2) = 0).
Proof. unfold ctr_of. Z.div_mod_to_equations. lia. Qed.

Lemma enter_ok stage_id w st b :
  get_worker st w = Some b -> rd (s_busy st) (ctr_of b) = Ok false ->
  enter stage_id w st
  = Ok (Sched (s_w1 st) (s_w2 st) (s_w3 st)
              (<[Z.to_nat (ctr_of b) := true]> (s_busy st))
              (s_log st ++ [(stage_id, w, b)])).
Proof.
  intros Hw Hb. unfold enter. rewrite Hw. cbv zeta. rewrite Hb. cbn [bind].
  rewrite wr_ok by (apply rd_inv in Hb; apply Hb). reflexivity.
Qed.

Lemma leave_ok bc w st b :
  get_worker st w = Some b -> 0 <= ctr_of b < len (s_busy st) ->
  leave bc w st
  = Ok (set_worker (Sched (s_w1 st) (s_w2 st) (s_w3 st)
                          (<[Z.to_nat (ctr_of b) := false]> (s_busy st)) (s_log st))
                   w (if b =? bc then None else Some (wrap32 (b + 1)))).
Proof.
  intros Hw Hb. unfold leave. rewrite Hw. rewrite wr_ok by exact Hb. reflexivity.
Qed.

Lemma stage_three bc t log :
  3 <= t <= bc -> bc < 2 ^ 32 - 1 ->
  run_stage bc t [Worker1; Worker2; Worker3]
            (Sched (Some t) (Some (t - 1)) (Some (t - 2)) [false; false; false] log)
  = Ok (Sched (if t =? bc then None else Some (t + 1)) (Some t) (Some (t - 1))
              [false; false; false]
              (log ++ [(t, Worker1, t); (t, Worker2, t - 1); (t, Worker3, t - 2)])).
Proof.
  intros Ht Hbc. unfold run_stage, each_worker.
  destruct (ctr_cases t) as [(H1 & H2 & H3)|[(H1 & H2 & H3)|(H1 & H2 & H3)]].
  all: erewrite enter_ok; [|reflexivity|cbn [s_busy]; rewrite H1; reflexivity].
  all: cbn [bind s_w1 s_w2 s_w3 s_busy s_log]; rewrite H1.
  all: erewrite enter_ok; [|reflexivity|cbn [s_busy]; rewrite H2; reflexivity].
  all: cbn [bind s_w1 s_w2 s_w3 s_busy s_log]; rewrite H2.
  all: erewrite enter_ok; [|reflexivity|cbn [s_busy]; rewrite H3; reflexivity].
  all: cbn [bind s_w1 s_w2 s_w3 s_busy s_log]; rewrite H3.
  all: erewrite leave_ok; [|reflexivity|cbn [s_busy]; rewrite H1; vm_compute; split; congruence].
  all: cbn [bind set_worker s_w1 s_w2 s_w3 s_busy s_log]; rewrite H1.
  all: erewrite leave_ok; [|reflexivity|cbn [s_busy]; rewrite H2; vm_compute; split; congruence].
  all: cbn [bind set_worker s_w1 s_w2 s_w3 s_busy s_log]; rewrite H2.
  all: erewrite leave_ok; [|reflexivity|cbn [s_busy]; rewrite H3; vm_compute; split; congruence].
  all: cbn [bind set_worker s_w1 s_w2 s_w3 s_busy s_log]; rewrite H3.
  all: destruct (Z.eqb_spec (t - 1) bc) as [E|_]; [lia|].
  all: destruct (Z.eqb_spec (t - 2) bc) as [E|_]; [lia|].
  all: rewrite (wrap32_small (t - 1 + 1)), (wrap32_small (t - 2 + 1)) by lia.
  all: replace (t - 1 + 1) with t by lia; replace (t - 2 + 1) with (t - 1) by lia.
  all: rewrite <- !app_assoc; cbn [app].
  all: destruct (t =? bc); [reflexivity|rewrite wrap32_small by lia; reflexivity].
Qed.

Lemma pipeline_log_succ bc T :
  0 <= T -> pipeline_log bc (T + 1) = pipeline_log bc T ++ stage_jobs bc (T + 1).
Proof.
  intros HT. unfold pipeline_log.
  rewrite (seqZ_app 1 T 1) by lia. rewrite bind_app.
  rewrite (seqZ_cons (1 + T) 1) by lia. cbn [Z.pred Z.add Pos.pred_double].
  change (seqZ (Z.succ (1 + T)) (Z.pred 1)) with (@nil Z).
  rewrite bind_singleton. f_equal. f_equal. lia.
Qed.

Lemma stage_jobs_mid bc t :
  3 <= t <= bc ->
  stage_jobs bc t = [(t, Worker1, t); (t, Worker2, t - 1); (t, Worker3, t - 2)].
Proof.
  intros Ht. unfold stage_jobs.
  destruct (Z.leb_spec t bc); [|lia]. destruct (Z.leb_spec 2 t); [|lia].
  destruct (Z.leb_spec t (bc + 1)); [|lia]. destruct (Z.leb_spec 3 t); [|lia].
  destruct (Z.leb_spec t (bc + 2)); [|lia]. reflexivity.
Qed.

Lemma pipeline_log_elem bc s w b :
  3 <= bc ->
  (s, w, b) ∈ pipeline_log bc (bc + 2) <-> 1 <= b <= bc /\ s = stage_of w b.
Proof.
  intros Hbc. unfold pipeline_log. rewrite list_elem_of_bind. split.
  - intros (t & Hin & Ht). apply elem_of_seqZ in Ht. unfold stage_jobs in Hin.
    rewrite !elem_of_app in Hin.
    destruct Hin as [Hin|[Hin|Hin]].
    + destruct (Z.leb_spec t bc); [|inversion Hin].
      apply list_elem_of_singleton in Hin. injection Hin as -> -> ->.
      cbn [stage_of]. lia.
    + destruct (Z.leb_spec 2 t); [|inversion Hin].
      destruct (Z.leb_spec t (bc + 1)); [|inversion Hin].
      apply list_elem_of_singleton in Hin. injection Hin as -> -> ->.
      cbn [stage_of]. lia.
    + destruct (Z.leb_spec 3 t); [|inversion Hin].
      destruct (Z.leb_spec t (bc + 2)); [|inversion Hin].
      apply list_elem_of_singleton in Hin. injection Hin as -> -> ->.
      cbn [stage_of]. lia.
  - intros (Hb & ->). exists (stage_of w b). split.
    + unfold stage_jobs. rewrite !elem_of_app. destruct w; cbn [stage_of].
      * left. destruct (Z.leb_spec b bc); [|lia]. apply list_elem_of_singleton. reflexivity.
      * right. left. destruct (Z.leb_spec 2 (b + 1)); [|lia].
        destruct (Z.leb_spec (b + 1) (bc + 1)); [|lia].
        apply list_elem_of_singleton. do 2 f_equal. lia.
      * right. right. destruct (Z.leb_spec 3 (b + 2)); [|lia].
        destruct (Z.leb_spec (b + 2) (bc + 2)); [|lia].
        apply list_elem_of_singleton. do 2 f_equal. lia.
    + apply elem_of_seqZ. destruct w; cbn [stage_of]; lia.
Qed.

Lemma pipeline_log_2 bc :
  3 <= bc ->
  pipeline_log bc 2 = [(1, Worker1, 1); (2, Worker1, 2); (2, Worker2, 1)].
Proof.
  intros Hbc. unfold pipeline_log.
  change (seqZ 1 2) with [1; 2]. rewrite bind_cons, bind_singleton.
  unfold stage_jobs.
  destruct (Z.leb_spec 1 bc); [|lia]. destruct (Z.leb_spec 2 bc); [|lia].
  destruct (Z.leb_spec 2 (bc + 1)); [|lia]. destruct (Z.leb_spec 1 (bc + 1)); [|lia].
  destruct (Z.leb_spec 1 (bc + 2)); [|lia]. destruct (Z.leb_spec 2 (bc + 2)); [|lia].
  reflexivity.
Qed.

Lemma scheduler_run bc :
  3 <= bc < 2 ^ 32 - 1 ->
  scheduler bc
  = Ok (Sched None None None [false; false; false] (pipeline_log bc (bc + 2))).
Proof.
  intros Hbc. unfold scheduler. cbv zeta.
  (* stage 1 *)
  unfold run_stage at 1. unfold each_worker.
  erewrite enter_ok; [|reflexivity|reflexivity].
  cbn [bind s_w1 s_w2 s_w3 s_busy s_log].
  erewrite leave_ok; [|reflexivity|vm_compute; split; congruence].
  cbn [bind set_worker s_w1 s_w2 s_w3 s_busy s_log].
  destruct (Z.eqb_spec 1 bc) as [E|_]; [lia|].
  change (ctr_of 1) with 0. change (wrap32 (1 + 1)) with 2. cbn [app].
  change (<[Z.to_nat 0:=false]> (<[Z.to_nat 0:=true]> [false; false; false]))
    with [false; false; false].
  (* stage 2 *)
  unfold run_stage at 1. unfold each_worker.
  erewrite enter_ok; [|reflexivity|reflexivity].
  cbn [bind s_w1 s_w2 s_w3 s_busy s_log].
  erewrite enter_ok; [|reflexivity|reflexivity].
  cbn [bind s_w1 s_w2 s_w3 s_busy s_log].
  erewrite leave_ok; [|reflexivity|vm_compute; split; congruence].
  cbn [bind set_worker s_w1 s_w2 s_w3 s_busy s_log].
  erewrite leave_ok; [|reflexivity|vm_compute; split; congruence].
  cbn [bind set_worker s_w1 s_w2 s_w3 s_busy s_log].
  destruct (Z.eqb_spec 2 bc) as [E|_]; [lia|].
  destruct (Z.eqb_spec 1 bc) as [E|_]; [lia|].
  change (ctr_of 1) with 0. change (ctr_of 2) with 1.
  change (wrap32 (1 + 1)) with 2. change (wrap32 (2 + 1)) with 3.
  cbn [app].
  change (<[Z.to_nat 0:=false]>
            (<[Z.to_nat 1:=false]>
               (<[Z.to_nat 0:=true]> (<[Z.to_nat 1:=true]> [false; false; false]))))
    with [false; false; false].
  (* stages 3 .. batch_count *)
  pose (I := fun (t : Z) (st : sched) =>
    st = Sched (if t =? bc + 1 then None else Some t) (Some (t - 1)) (Some (t - 2))
               [false; false; false] (pipeline_log bc (t - 1))).
  match goal with
  | |- bind (for_range 3 (bc + 1) ?body ?st0) _ = _ =>
      destruct (for_range_inv I 3 (bc + 1) body st0) as (st & Hrun & HI)
  end.
  { lia. }
  { unfold I. destruct (Z.eqb_spec 3 (bc + 1)) as [E|_]; [lia|].
    change (3 - 1) with 2. rewrite pipeline_log_2 by lia. reflexivity. }
  { intros t st Ht ->. destruct (Z.eqb_spec t (bc + 1)) as [E|_]; [lia|].
    rewrite stage_three by lia. eexists. split; [reflexivity|]. unfold I.
    replace (t + 1 - 1) with t by lia. replace (t + 1 - 2) with (t - 1) by lia.
    replace (pipeline_log bc t) with (pipeline_log bc (t - 1 + 1)) by (f_equal; lia).
    rewrite pipeline_log_succ by lia. replace (t - 1 + 1) with t by lia.
    rewrite stage_jobs_mid by lia.
    destruct (Z.eqb_spec t bc) as [->|Hne].
    - rewrite Z.eqb_refl. reflexivity.
    - destruct (Z.eqb_spec (t + 1) (bc + 1)); [lia|]. reflexivity. }
  rewrite Hrun, HI. cbn [bind]. rewrite Z.eqb_refl.
  replace (bc + 1 - 1) with bc by lia. replace (bc + 1 - 2) with (bc - 1) by lia.
  (* stage batch_count + 1 *)
  unfold run_stage at 1. unfold each_worker.
  destruct (ctr_cases bc) as [(H1 & H2 & _)|[(H1 & H2 & _)|(H1 & H2 & _)]].
  all: erewrite enter_ok; [|reflexivity|cbn [s_busy]; rewrite H1; reflexivity].
  all: cbn [bind s_w1 s_w2 s_w3 s_busy s_log]; rewrite H1.
  all: erewrite enter_ok; [|reflexivity|cbn [s_busy]; rewrite H2; reflexivity].
  all: cbn [bind s_w1 s_w2 s_w3 s_busy s_log]; rewrite H2.
  all: erewrite leave_ok; [|reflexivity|cbn [s_busy]; rewrite H1; vm_compute; split; congruence].
  all: cbn [bind set_worker s_w1 s_w2 s_w3 s_busy s_log]; rewrite H1.
  all: erewrite leave_ok; [|reflexivity|cbn [s_busy]; rewrite H2; vm_compute; split; congruence].
  all: cbn [bind set_worker s_w1 s_w2 s_w3 s_busy s_log]; rewrite H2.
  all: rewrite Z.eqb_refl.
  all: destruct (Z.eqb_spec (bc - 1) bc) as [E|_]; [lia|].
  all: rewrite (wrap32_small (bc - 1 + 1)) by lia.
  all: replace (bc - 1 + 1) with bc by lia.
  (* stage batch_count + 2 *)
  all: unfold run_stage, each_worker.
  all: erewrite enter_ok; [|reflexivity|cbn [s_busy]; rewrite H1; reflexivity].
  all: cbn [bind s_w1 s_w2 s_w3 s_busy s_log]; rewrite H1.
  all: erewrite leave_ok; [|reflexivity|cbn [s_busy]; rewrite H1; vm_compute; split; congruence].
  all: cbn [bind set_worker s_w1 s_w2 s_w3 s_busy s_log]; rewrite H1.
  all: rewrite Z.eqb_refl.
  all: apply f_equal; apply (f_equal2 (Sched None None None)); [reflexivity|].
  all: rewrite <- !app_assoc; cbn [app].
  all: replace (bc + 2) with (bc + 1 + 1) by lia.
  all: rewrite pipeline_log_succ by lia.
  all: replace (pipeline_log bc (bc + 1)) with (pipeline_log bc (bc + 1 - 1 + 1))
         by (f_equal; lia).
  all: rewrite pipeline_log_succ by lia.
  all: replace (bc + 1 - 1 + 1) with (bc + 1) by lia.
  all: rewrite <- app_assoc; f_equal.
  all: unfold stage_jobs.
  all: destruct (Z.leb_spec (bc + 1) bc); [lia|].
  all: destruct (Z.leb_spec 2 (bc + 1)); [|lia].
  all: destruct (Z.leb_spec (bc + 1) (bc + 1)); [|lia].
  all: destruct (Z.leb_spec 3 (bc + 1)); [|lia].
  all: destruct (Z.leb_spec (bc + 1) (bc + 2)); [|lia].
  all: destruct (Z.leb_spec (bc + 1 + 1) bc); [lia|].
  all: destruct (Z.leb_spec 2 (bc + 1 + 1)); [|lia].
  all: destruct (Z.leb_spec (bc + 1 + 1) (bc + 1)); [lia|].
  all: destruct (Z.leb_spec 3 (bc + 1 + 1)); [|lia].
  all: destruct (Z.leb_spec (bc + 1 + 1) (bc + 2)); [|lia].
  all: cbn [andb app].
  all: replace (bc + 1 - 1) with bc by lia; replace (bc + 1 - 2) with (bc - 1) by lia.
  all: replace (bc + 1 + 1 - 2) with bc by lia; replace (bc + 1 + 1) with (bc + 2) by lia.
  all: reflexivity.
Qed.

Lemma pipeline_log_length bc (k : nat) :
  3 <= bc -> 2 + Z.of_nat k <= bc ->
  len (pipeline_log bc (2 + Z.of_nat k)) = 3 + 3 * Z.of_nat k.
Proof.
  intros Hbc. induction k as [|k IH]; intros Hk.
  - change (2 + Z.of_nat 0) with 2. rewrite pipeline_log_2 by exact Hbc. reflexivity.
  - replace (2 + Z.of_nat (S k)) with (2 + Z.of_nat k + 1) by lia.
    rewrite pipeline_log_succ by lia. rewrite stage_jobs_mid by lia.
    unfold len in *. rewrite length_app. cbn [length].
    specialize (IH ltac:(lia)). lia.
Qed.

(** X17: the pipeline that the scheduler runs. With at least three batches
    the stages of [main] give every worker exactly [batch_count]
    start-signals: all three return, so the joins return, and no wait is
    left without its end-signal. Batch [b] is read in stage [b], hashed in
    stage [b + 1] and consumed in stage [b + 2], once each; the blocks that
    run in the same stage work on different containers, so none of the busy
    checks ([exit(13)] to [exit(24)]) ends the program, and all three flags
    are clear at the end. With a single batch the second stage would wait
    for worker1, which has returned by then. *)
Theorem scheduler_pipeline (batch_count : Z) :
  3 <= batch_count < 2 ^ 32 - 1 ->
  (exists st,
     scheduler batch_count = Ok st /\
     s_w1 st = None /\ s_w2 st = None /\ s_w3 st = None /\
     s_busy st = [false; false; false] /\
     (forall s w b, (s, w, b) ∈ s_log st <-> 1 <= b <= batch_count /\ s = stage_of w b) /\
     len (s_log st) = 3 * batch_count /\
     (forall s w w' b b',
        (s, w, b) ∈ s_log st -> (s, w', b') ∈ s_log st -> w <> w' ->
        ctr_of b <> ctr_of b')) /\
  scheduler 1 = Err OutOfFuel.
Proof.
  intros Hbc. split; [|vm_compute; reflexivity].
  eexists. split; [apply scheduler_run, Hbc|].
  cbn [s_w1 s_w2 s_w3 s_busy s_log]. repeat (split; [reflexivity|]).
  split; [intros s w b; apply pipeline_log_elem; lia|]. split.
  - replace (batch_count + 2) with (batch_count + 1 + 1) by lia.
    rewrite pipeline_log_succ by lia.
    replace (batch_count + 1) with (batch_count + 1 - 1 + 1) at 1 by lia.
    rewrite pipeline_log_succ by lia.
    replace (batch_count + 1 - 1) with (2 + Z.of_nat (Z.to_nat (batch_count - 2))) by lia.
    unfold len. rewrite !length_app.
    pose proof (pipeline_log_length batch_count (Z.to_nat (batch_count - 2))
                  ltac:(lia) ltac:(lia)) as Hlen.
    unfold len in Hlen. rewrite Nat2Z.inj_add, Nat2Z.inj_add, Hlen.
    replace (2 + Z.of_nat (Z.to_nat (batch_count - 2)) + 1) with (batch_count + 1) by lia.
    unfold stage_jobs.
    destruct (Z.leb_spec (batch_count + 1) batch_count); [lia|].
    destruct (Z.leb_spec 2 (batch_count + 1)); [|lia].
    destruct (Z.leb_spec (batch_count + 1) (batch_count + 1)); [|lia].
    destruct (Z.leb_spec 3 (batch_count + 1)); [|lia].
    destruct (Z.leb_spec (batch_count + 1) (batch_count + 2)); [|lia].
    destruct (Z.leb_spec (batch_count + 1 + 1) batch_count); [lia|].
    destruct (Z.leb_spec 2 (batch_count + 1 + 1)); [|lia].
    destruct (Z.leb_spec (batch_count + 1 + 1) (batch_count + 1)); [lia|].
    destruct (Z.leb_spec 3 (batch_count + 1 + 1)); [|lia].
    destruct (Z.leb_spec (batch_count + 1 + 1) (batch_count + 2)); [|lia].
    cbn [andb app length]. lia.
  - intros s w w' b b' H1 H2 Hne.
    apply pipeline_log_elem in H1 as [Hb ->]; [|lia].
    apply pipeline_log_elem in H2 as [Hb' E]; [|lia].
    unfold ctr_of. destruct w, w'; cbn [stage_of] in E; try congruence;
      Z.div_mod_to_equations; lia.
Qed.

Lemma scheduler_pipeline_witness :
  (exists st,
     scheduler 3 = Ok st /\
     s_w1 st = None /\ s_w2 st = None /\ s_w3 st = None /\
     s_busy st = [false; false; false] /\
     (forall s w b, (s, w, b) ∈ s_log st <-> 1 <= b <= 3 /\ s = stage_of w b) /\
     len (s_log st) = 3 * 3 /\
     (forall s w w' b b',
        (s, w, b) ∈ s_log st -> (s, w', b') ∈ s_log st -> w <> w' ->
        ctr_of b <> ctr_of b')) /\
  scheduler 1 = Err OutOfFuel.
Proof.
  apply (scheduler_pipeline 3). lia.
Defined.

(** ** What [hash_batch] leaves alone *)

Lemma for_loop_preserves_in {St} (P : St -> Prop) (body : Z -> St -> res St) k :
  forall j st r,
    (forall i st st', j <= i < j + Z.of_nat k -> body i st = Ok st' -> P st -> P st') ->
    for_loop k j body st = Ok r -> P st -> P r.
Proof.
  induction k as [|k IH]; intros j st r Hb Hrun HP.
  - cbn in Hrun. injection Hrun as <-. exact HP.
  - cbn [for_loop] in Hrun. destruct (body j st) as [st1|e] eqn:E; [|discriminate].
    apply (IH (j + 1) st1 r).
    + intros i s s' Hi. apply Hb. lia.
    + exact Hrun.
    + apply (Hb j st st1); [lia|exact E|exact HP].
Qed.

Lemma for_range_preserves_in {St} (P : St -> Prop) lo hi (body : Z -> St -> res St) st r :
  (forall i st st', lo <= i < hi -> body i st = Ok st' -> P st -> P st') ->
  for_range lo hi body st = Ok r -> P st -> P r.
Proof.
  intros Hb. unfold for_range. apply for_loop_preserves_in.
  intros i s s' Hi. apply Hb. lia.
Qed.

Lemma wr_frame (a a' : list Z) i v (Q : Z -> Prop) (a0 : list Z) :
  wr a i v = Ok a' -> Q i ->
  (forall k, ~ Q k -> rd a k = rd a0 k) -> (forall k, ~ Q k -> rd a' k = rd a0 k).
Proof.
  intros Hw Hi Ha k Hk. rewrite (rd_wr_other _ _ _ _ _ Hw); [apply Ha, Hk|].
  intros ->. exact (Hk Hi).
Qed.

Lemma div_first_frame s div div' :
  div_first s div = Ok div' ->
  forall k, ~ (0 <= k < 2 * DV) -> rd div' k = rd div k.
Proof.
  unfold div_first. intros H.
  eapply (for_range_preserves_in
            (fun d => forall k, ~ (0 <= k < 2 * DV) -> rd d k = rd div k));
    [|exact H|reflexivity].
  intros id d d' Hid Hb Hd. cbv beta in Hb.
  apply bind_ok in Hb as (d1 & H1 & Hb).
  apply bind_ok in Hb as (d2 & H2 & Hb).
  apply bind_ok in Hb as (h & _ & Hb).
  assert (Hd1 : forall k, ~ (0 <= k < 2 * DV) -> rd d1 k = rd div k).
  { apply (wr_frame d d1 id 0 _ div H1); [zc|exact Hd]. }
  assert (Hd2 : forall k, ~ (0 <= k < 2 * DV) -> rd d2 k = rd div k).
  { eapply (for_range_preserves_in
              (fun x => forall k, ~ (0 <= k < 2 * DV) -> rd x k = rd div k));
      [|exact H2|exact Hd1].
    intros j x x' _ Hx HP. cbv beta in Hx.
    apply bind_ok in Hx as (h' & _ & Hx). apply bind_ok in Hx as (b & _ & Hx).
    apply (wr_frame x x' id _ _ div Hx); [zc|exact HP]. }
  apply (wr_frame d2 d' (DV + id) h _ div Hb); [zc|exact Hd2].
Qed.

Lemma update_div_hashes_frame d hash hash1 s sp d' :
  Scatter.update_div_hashes d hash hash1 s sp = Ok d' ->
  forall k, ~ (hash <= k < hash + DV) -> ~ (hash1 <= k < hash1 + DV) -> rd d' k = rd d k.
Proof.
  unfold Scatter.update_div_hashes. intros H k Hk Hk1.
  eapply (for_range_preserves_in (fun x => rd x k = rd d k)); [|exact H|reflexivity].
  intros id x x' Hid Hb HP. cbv beta in Hb.
  apply bind_ok in Hb as (sL & _ & Hb). apply bind_ok in Hb as (h & _ & Hb).
  apply bind_ok in Hb as (s0 & _ & Hb). cbv zeta in Hb.
  apply bind_ok in Hb as (x1 & H1 & Hb).
  rewrite (rd_wr_other _ _ _ _ _ Hb) by lia.
  rewrite (rd_wr_other _ _ _ _ _ H1) by lia. exact HP.
Qed.

Lemma hash_batch_frame s hc com div com' div' :
  1 <= hc -> (hc + 1) * DV < 2 ^ 32 ->
  Scatter.hash_batch s hc com div = Ok (com', div') ->
  (forall k, ~ (0 <= k <= hc) -> rd com' k = rd com k) /\
  (forall k, ~ (0 <= k < (hc + 1) * DV) -> rd div' k = rd div k).
Proof.
  intros Hhc H32 H. unfold Scatter.hash_batch, hash_batch_with in H.
  apply bind_ok in H as (d1 & Hd1 & H).
  apply bind_ok in H as (d2 & Hd2 & H).
  apply bind_ok in H as (c1 & Hc1 & H).
  apply bind_ok in H as (c2 & Hc2 & H). injection H as <- <-.
  split.
  - assert (H1 : forall k, ~ (0 <= k <= hc) -> rd c1 k = rd com k).
    { unfold com_first in Hc1. apply bind_ok in Hc1 as (c0 & H0 & Hc1).
      eapply (for_range_preserves_in
                (fun x => forall k, ~ (0 <= k <= hc) -> rd x k = rd com k));
        [|exact Hc1|].
      - intros j x x' _ Hx HP. cbv beta in Hx.
        apply bind_ok in Hx as (h & _ & Hx). apply bind_ok in Hx as (b & _ & Hx).
        apply (wr_frame x x' 0 _ _ com Hx); [lia|exact HP].
      - apply (wr_frame com c0 0 0 _ com H0); [lia|reflexivity]. }
    unfold com_following in Hc2.
    eapply (for_range_preserves_in
              (fun x => forall k, ~ (0 <= k <= hc) -> rd x k = rd com k));
      [|exact Hc2|exact H1].
    intros j x x' Hj Hx HP. cbv beta in Hx.
    apply bind_ok in Hx as (h & _ & Hx). apply bind_ok in Hx as (s0 & _ & Hx).
    apply bind_ok in Hx as (sL & _ & Hx).
    apply (wr_frame x x' _ _ _ com Hx); [rewrite wrap32_small by zc; lia|exact HP].
  - pose proof (div_first_frame _ _ _ Hd1) as H1.
    unfold div_following_with in Hd2.
    eapply (for_range_preserves_in
              (fun x => forall k, ~ (0 <= k < (hc + 1) * DV) -> rd x k = rd div k));
      [|exact Hd2|].
    + intros j x x' Hj Hx HP k Hk. cbv beta in Hx.
      rewrite (wrap32_small (j + 1)) in Hx by zc.
      rewrite (wrap32_small (j * DV)) in Hx by zc.
      rewrite (wrap32_small ((j + 1) * DV)) in Hx by zc.
      rewrite (update_div_hashes_frame _ _ _ _ _ _ Hx) by zc. apply HP, Hk.
    + intros k Hk. apply H1. zc.
Qed.

(** X18: what [hash_batch] leaves alone. A call that returns has written
    the common hashes [0 .. hash_count] and the diversified hashes
    [0 .. (hash_count + 1) * DV - 1] and nothing else: every other entry of
    the two arrays holds what it held before, so after a short last batch
    the rest of a container still carries the hashes of an earlier batch.
    Given room for them, the call does return. *)
Theorem hash_batch_writes_only_its_rows (s : list Z) (hc : Z) (com div : list Z) :
  bytes s -> 1 <= hc -> (hc + 1) * DV < 2 ^ 32 -> room s hc com div ->
  exists com' div',
    Scatter.hash_batch s hc com div = Ok (com', div') /\
    Gather.hash_batch s hc com div = Ok (com', div') /\
    (forall k, ~ (0 <= k <= hc) -> rd com' k = rd com k) /\
    (forall k, ~ (0 <= k < (hc + 1) * DV) -> rd div' k = rd div k).
Proof.
  intros Hs Hhc H32 Hroom.
  destruct (hash_batch_spec _ _ _ _ Hs Hhc H32 Hroom) as (com' & div' & Hhb & _).
  exists com', div'. split; [exact Hhb|].
  split; [rewrite gather_hash_batch; exact Hhb|].
  exact (hash_batch_frame _ _ _ _ _ _ Hhc H32 Hhb).
Qed.

Lemma hash_batch_writes_only_its_rows_witness :
  exists com' div',
    Scatter.hash_batch demo_buf 10 (replicate 11 0) (replicate 88 0) = Ok (com', div') /\
    Gather.hash_batch demo_buf 10 (replicate 11 0) (replicate 88 0) = Ok (com', div') /\
    (forall k, ~ (0 <= k <= 10) -> rd com' k = rd (replicate 11 0) k) /\
    (forall k, ~ (0 <= k < (10 + 1) * DV) -> rd div' k = rd (replicate 88 0) k).
Proof.
  apply (hash_batch_writes_only_its_rows demo_buf 10 (replicate 11 0) (replicate 88 0)).
  - exact demo_buf_bytes.
  - lia.
  - vm_compute. reflexivity.
  - vm_compute. repeat split; congruence.
Defined.

(** ** The shuffle keeps what is common *)

(** X19: the permutation that [rcp_generator] returns, used by worker1 as
    [shuffle], sends different bytes to different bytes. So, outside the
    demo-string, [n] bytes of the shuffled reference stream from [a] equal
    [n] bytes of the shuffled test stream from [b] exactly when the bytes
    of the master file at those places are equal: the common substrings
    that the filter looks for are those of the file. *)
Theorem shuffle_keeps_common_substrings (draw : Z -> Z) (p file : list Z)
        (start a b n : Z) :
  len p = 256 -> bytes file ->
  exists shuffle,
    rcp_generator draw p = Ok shuffle /\
    (forall x y, 0 <= x < 256 -> 0 <= y < 256 ->
       byte_at shuffle x = byte_at shuffle y -> x = y) /\
    ((forall k, 0 <= k < n ->
        stream_byte 0 (fun _ => false) file shuffle (a + k)
        = stream_byte start (fun _ => false) file shuffle (b + k)) <->
     (forall k, 0 <= k < n -> byte_at file (a + k) = byte_at file (start + (b + k)))).
Proof.
  intros Hp Hbytes.
  destruct (rcp_generator_spec draw p Hp) as (shuffle & Hgen & Hl & _ & Hinj & _).
  exists shuffle. split; [exact Hgen|].
  assert (Hi : forall x y, 0 <= x < 256 -> 0 <= y < 256 ->
                 byte_at shuffle x = byte_at shuffle y -> x = y).
  { intros x y Hx Hy E. apply (Hinj x y (byte_at shuffle x) Hx Hy).
    - apply rd_byte_at. lia.
    - rewrite E. apply rd_byte_at. lia. }
  split; [exact Hi|]. unfold stream_byte. cbn [Z.add]. split.
  - intros H k Hk. specialize (H k Hk). rewrite Z.add_0_l in H.
    apply Hi; [apply byte_at_range, Hbytes|apply byte_at_range, Hbytes|exact H].
  - intros H k Hk. rewrite Z.add_0_l. rewrite (H k Hk). reflexivity.
Qed.

Lemma shuffle_keeps_common_substrings_witness :
  exists shuffle,
    rcp_generator demo_draw (replicate 256 0) = Ok shuffle /\
    (forall x y, 0 <= x < 256 -> 0 <= y < 256 ->
       byte_at shuffle x = byte_at shuffle y -> x = y) /\
    ((forall k, 0 <= k < 5 ->
        stream_byte 0 (fun _ => false) demo_buf shuffle (2 + k)
        = stream_byte 8 (fun _ => false) demo_buf shuffle (1 + k)) <->
     (forall k, 0 <= k < 5 -> byte_at demo_buf (2 + k) = byte_at demo_buf (8 + (1 + k)))).
Proof.
  apply (shuffle_keeps_common_substrings demo_draw (replicate 256 0) demo_buf 8 2 1 5).
  - reflexivity.
  - exact demo_buf_bytes.
Defined.
